(** * Artifact processor: the agent loop of [main.py], embedded and verified

    The development follows [src/main.py] top to bottom: the path helpers of
    [os.path] it relies on, the File Store ([read_file_content],
    [write_file_content]), the Retry Policy ([exponential_backoff],
    [retry_openai_request]), the Agent Loop ([process_artifact]) and the Batch
    Driver ([ensure_empty_directory], [list_artifact_files], [main]).

    Conventions of the embedding.
    - Python [str] is [string], a sequence of characters with code points
      below 256; text with other characters has no counterpart here.  The
      platform is POSIX ([os.sep] is a slash, [os.linesep] is a line
      feed).
    - The file system is a finite map from canonical component lists to nodes;
      there are no symbolic links.
    - Effects are threaded through a [world]: the file system, the state of the
      decision service, the number of random draws made so far and the log of
      effects in the order they happened.
    - A Python [float] is an IEEE 754 binary64 number, a [spec_float] at
      precision 53 with round to nearest, ties to even.
    - A Python exception is a value of [exn]; a call either returns, raises, or
      (for the [while True] loop only) runs out of the fuel given to it. *)

From Stdlib Require Import ZArith Ascii SpecFloat.
From stdpp Require Import gmap strings list fin_maps sorting.

Open Scope string_scope.

(** ** Strings: the [str] methods used by the program *)

Module Str.

Definition slash : ascii := "/"%char.
Definition underscore : ascii := "_"%char.
Definition CR : ascii := "013"%char.
Definition LF : ascii := "010"%char.

Definition is_char (c d : ascii) : bool := bool_decide (c = d).

(** [s.startswith(c)] and [s.endswith(c)] for a one-character [c]. *)
Definition startswith (c : ascii) (s : string) : bool :=
  match s with
  | String d _ => is_char c d
  | EmptyString => false
  end.

Fixpoint endswith (c : ascii) (s : string) : bool :=
  match s with
  | EmptyString => false
  | String d EmptyString => is_char c d
  | String _ rest => endswith c rest
  end.

(** [c in s]. *)
Fixpoint contains (c : ascii) (s : string) : bool :=
  match s with
  | EmptyString => false
  | String d rest => is_char c d || contains c rest
  end.

(** [s.split(c)]: always at least one field. *)
Fixpoint split (c : ascii) (s : string) : list string :=
  match s with
  | EmptyString => [""]
  | String d rest =>
      if is_char c d then "" :: split c rest
      else match split c rest with
           | f :: fs => String d f :: fs
           | [] => [String d ""]
           end
  end.

(** [s.split(c)[0]]. *)
Definition first_field (c : ascii) (s : string) : string :=
  match split c s with
  | f :: _ => f
  | [] => ""
  end.

(** [(s[:i], s[i:])] with [i = s.rfind(c) + 1]. *)
Fixpoint rpartition (c : ascii) (s : string) : string * string :=
  match s with
  | EmptyString => ("", "")
  | String d rest =>
      match rpartition c rest with
      | (EmptyString, t) =>
          if is_char c d then (String d "", t) else ("", String d t)
      | (h, t) => (String d h, t)
      end
  end.

(** [s.rstrip(c)]. *)
Fixpoint rstrip (c : ascii) (s : string) : string :=
  match s with
  | EmptyString => ""
  | String d rest =>
      match rstrip c rest with
      | EmptyString => if is_char c d then "" else String d ""
      | r => String d r
      end
  end.

(** [s == c * len(s)]. *)
Fixpoint all_char (c : ascii) (s : string) : bool :=
  match s with
  | EmptyString => true
  | String d rest => is_char c d && all_char c rest
  end.

End Str.

(** ** [os.path] on POSIX *)

Module PosixPath.

(** [os.path.join(a, b)]. *)
Definition join (a b : string) : string :=
  if Str.startswith Str.slash b then b
  else if bool_decide (a = "") || Str.endswith Str.slash a then a ++ b
  else a ++ "/" ++ b.

(** [os.path.split(p)]. *)
Definition split (p : string) : string * string :=
  let '(head, tail) := Str.rpartition Str.slash p in
  let head :=
    if negb (bool_decide (head = "")) && negb (Str.all_char Str.slash head)
    then Str.rstrip Str.slash head else head in
  (head, tail).

Definition basename (p : string) : string := snd (Str.rpartition Str.slash p).
Definition dirname (p : string) : string := fst (split p).
Definition isabs (p : string) : bool := Str.startswith Str.slash p.

(** The components of a path, in order, as the kernel walks them. *)
Definition components (p : string) : list string := Str.split Str.slash p.

End PosixPath.

(** ** The file system *)

Inductive node :=
| File (text : string)
| Dir.

Inductive oserror := ENOENT | ENOTDIR | EISDIR | EEXIST.

Module FS.

(** A tree is a finite map from canonical paths (component lists from the
    root, free of empty, dot and dot-dot components) to nodes.  The root
    itself is always a directory. *)
Abbreviation tree := (gmap (list string) node).

Definition node_at (t : tree) (p : list string) : option node :=
  match p with
  | [] => Some Dir
  | _ => t !! p
  end.

Definition is_dot (c : string) : bool :=
  bool_decide (c = "") || bool_decide (c = ".").
Definition is_dotdot (c : string) : bool := bool_decide (c = "..").

(** One step of a path walk from the directory [cur]. *)
Definition enter (cur : list string) (c : string) : list string :=
  if is_dot c then cur
  else if is_dotdot c then removelast cur
  else cur ++ [c].

(** Walk [comps] from [cur]; every directory a component is looked up in
    must exist and be a directory.  The node reached need not exist. *)
Fixpoint walk (t : tree) (cur : list string) (comps : list string)
  : oserror + list string :=
  match comps with
  | [] => inr cur
  | c :: rest =>
      match node_at t cur with
      | Some Dir => walk t (enter cur c) rest
      | Some (File _) => inl ENOTDIR
      | None => inl ENOENT
      end
  end.

Definition start (cwd : list string) (p : string) : list string :=
  if PosixPath.isabs p then [] else cwd.

Definition resolve (t : tree) (cwd : list string) (p : string)
  : oserror + list string :=
  if bool_decide (p = "") then inl ENOENT
  else walk t (start cwd p) (PosixPath.components p).

(** The text of a path up to and including the component [c], when [seen]
    is the text before it. *)
Definition upto (seen : option string) (c : string) : string :=
  match seen with
  | None => c
  | Some s => s ++ "/" ++ c
  end.

(** The walk of [os.makedirs(p, exist_ok=True)]: as [walk], but a missing
    directory is made on the way, and the node reached must be a directory
    in the end.  An empty component (a doubled or trailing slash) is
    skipped.  A failure leaves the directories made before it in place and
    names the path up to the component that failed: the result is the tree
    after the call and, for a failure, the error and the file name the
    [OSError] carries. *)
Fixpoint walk_creating (t : tree) (cur : list string) (seen : option string)
    (comps : list string) : tree * option (oserror * string) :=
  match comps with
  | [] =>
      match node_at t cur with
      | Some Dir => (t, None)
      | Some (File _) => (t, Some (EEXIST, default "" seen))
      | None => (t, Some (ENOENT, default "" seen))
      end
  | c :: rest =>
      let here := upto seen c in
      if bool_decide (c = "") then walk_creating t cur (Some here) rest
      else
        match node_at t cur with
        | Some Dir =>
            let next := enter cur c in
            match node_at t next with
            | None => walk_creating (<[next := Dir]> t) next (Some here) rest
            | Some _ => walk_creating t next (Some here) rest
            end
        | Some (File _) => (t, Some (ENOTDIR, here))
        | None => (t, Some (ENOENT, here))
        end
  end.

Definition makedirs_run (t : tree) (cwd : list string) (p : string)
  : tree * option (oserror * string) :=
  if bool_decide (p = "") then (t, Some (ENOENT, ""))
  else walk_creating t (start cwd p) None (PosixPath.components p).

(** The outcome of [os.makedirs(p, exist_ok=True)]: the tree after a call
    that succeeds, the error of one that fails. *)
Definition makedirs (t : tree) (cwd : list string) (p : string)
  : oserror + tree :=
  match makedirs_run t cwd p with
  | (t', None) => inr t'
  | (_, Some (code, _)) => inl code
  end.

(** [os.path.exists(p)]. *)
Definition exists_ (t : tree) (cwd : list string) (p : string) : bool :=
  match resolve t cwd p with
  | inr q => bool_decide (is_Some (node_at t q))
  | inl _ => false
  end.

(** [os.path.isdir(p)], also [entry.is_dir()] of a directory entry. *)
Definition isdir (t : tree) (cwd : list string) (p : string) : bool :=
  match resolve t cwd p with
  | inr q =>
      match node_at t q with
      | Some Dir => true
      | _ => false
      end
  | inl _ => false
  end.

Fixpoint strip_prefix (p k : list string) : option (list string) :=
  match p, k with
  | [], _ => Some k
  | a :: p', b :: k' => if bool_decide (a = b) then strip_prefix p' k' else None
  | _ :: _, [] => None
  end.

Definition child_name (p : list string) (k : list string) : option string :=
  match strip_prefix p k with
  | Some [n] => Some n
  | _ => None
  end.

(** The entry names of the directory at [p]. *)
Definition children (t : tree) (p : list string) : list string :=
  omap (fun kv => child_name p kv.1) (map_to_list t).

(** [os.listdir(p)]. *)
Definition listdir (t : tree) (cwd : list string) (p : string)
  : oserror + list string :=
  match resolve t cwd p with
  | inr q =>
      match node_at t q with
      | Some Dir => inr (children t q)
      | Some (File _) => inl ENOTDIR
      | None => inl ENOENT
      end
  | inl e => inl e
  end.

(** Text read with [open(p, 'r')]: universal newlines turn a carriage
    return, alone or followed by a line feed, into one line feed. *)
Fixpoint universal_newlines (s : string) : string :=
  match s with
  | EmptyString => ""
  | String c rest =>
      if Str.is_char Str.CR c then
        match rest with
        | String d rest' =>
            if Str.is_char Str.LF d
            then String Str.LF (universal_newlines rest')
            else String Str.LF (universal_newlines rest)
        | EmptyString => String Str.LF ""
        end
      else String c (universal_newlines rest)
  end.

(** [open(p, 'r').read()]. *)
Definition read_text (t : tree) (cwd : list string) (p : string)
  : oserror + string :=
  match resolve t cwd p with
  | inr q =>
      match node_at t q with
      | Some (File text) => inr (universal_newlines text)
      | Some Dir => inl EISDIR
      | None => inl ENOENT
      end
  | inl e => inl e
  end.

(** [open(p, 'w')]: the file is created or truncated.  On POSIX a line feed
    is written as it is, so the text stored is the text written. *)
Definition open_w (t : tree) (cwd : list string) (p : string)
  : oserror + (list string * tree) :=
  match resolve t cwd p with
  | inr q =>
      match node_at t q with
      | Some Dir => inl EISDIR
      | Some (File _) => inr (q, <[q := File ""]> t)
      | None =>
          match node_at t (removelast q) with
          | Some Dir => inr (q, <[q := File ""]> t)
          | Some (File _) => inl ENOTDIR
          | None => inl ENOENT
          end
      end
  | inl e => inl e
  end.

End FS.

(** ** Exceptions, the transcript and the decision service *)

(** The failure classes of the [openai] client; all derive from
    [openai.OpenAIError]. *)
Inductive openai_error :=
| APIConnectionError
| APITimeoutError
| RateLimitError
| InternalServerError
| BadRequestError
| AuthenticationError
| UnprocessableEntityError.

Inductive exn :=
| OpenAIError (kind : openai_error) (detail : string)
| OSError (code : oserror) (filename : string)
| UnicodeEncodeError (text : string)
| JSONDecodeError (doc : string)
| KeyError (key : string)
| TypeError (detail : string)
| ValueError (detail : string)
| AttributeError (detail : string)
| CalledProcessError (argv : list string) (returncode : Z)
| OverflowError (detail : string)
| Exception_ (message : string).

(** [isinstance(e, OpenAIError)], the test of [except OpenAIError]. *)
Definition is_OpenAIError (e : exn) : bool :=
  match e with
  | OpenAIError _ _ => true
  | _ => false
  end.

(** Modelled from the spec: the classification of a decision-service failure
    that the program itself never computes.  Section 6 calls a network or
    service fault transient (retryable) and a malformed request permanent;
    section 7 names a bad request or a schema mismatch as permanent. *)
Definition transient (k : openai_error) : bool :=
  match k with
  | APIConnectionError | APITimeoutError | RateLimitError
  | InternalServerError => true
  | BadRequestError | AuthenticationError | UnprocessableEntityError => false
  end.

Definition permanent_failure (e : exn) : bool :=
  match e with
  | OpenAIError k _ => negb (transient k)
  | _ => false
  end.

Definition transient_failure (e : exn) : bool :=
  match e with
  | OpenAIError k _ => transient k
  | _ => false
  end.

(** A value decoded by [json.loads]; an object keeps one pair per key. *)
#[warnings="-register-all"]
Inductive json :=
| JNull
| JBool (b : bool)
| JNumber (literal : string)
| JString (s : string)
| JArray (items : list json)
| JObject (members : list (string * json)).

Fixpoint assoc (k : string) (l : list (string * json)) : option json :=
  match l with
  | [] => None
  | (k', v) :: rest => if bool_decide (k = k') then Some v else assoc k rest
  end.

(** [tool_call.id], [tool_call.function.name], [tool_call.function.arguments]. *)
Record tool_call := ToolCall {
  tc_id : string;
  tc_name : string;
  tc_arguments : string
}.

(** [response.choices[0].message]. *)
Record assistant_message := AssistantMessage {
  am_content : option string;
  am_tool_calls : option (list tool_call)
}.

Inductive message :=
| SystemMsg (content : string)
| UserMsg (content : string)
| AssistantMsg (m : assistant_message)
| ToolMsg (tool_call_id : string) (name : string) (content : string).

(** The entries of [tools]: name and required arguments. *)
Definition tools : list (string * list string) :=
  [("read_file_content", ["file_path"]);
   ("write_file_content", ["file_path"; "content"])].

Record request := Request {
  req_model : string;
  req_messages : list message;
  req_tools : list (string * list string)
}.

Record completed_process := CompletedProcess {
  returncode : Z;
  stdout : string
}.

(** The effects of the program, logged in the order they happen. *)
Inductive event :=
| EvCreate (r : request)
| EvSleep (seconds : spec_float)
| EvOpenRead (path : string)
| EvOpenWrite (path : string)
| EvMakedirs (path : string)
| EvSubprocess (argv : list string) (cwd : string)
| EvPrint (line : string).

Inductive result (A : Type) :=
| Ret (a : A)
| Raise (e : exn)
| OutOfFuel.
Arguments Ret {A} a.
Arguments Raise {A} e.
Arguments OutOfFuel {A}.

(** ** Floating point: the [float] of Python *)

Module Float.

Definition prec : Z := 53.
Definition emax : Z := 1024.

(** [x + y], [x < y] and [x <= y] on floats. *)
Definition add (x y : spec_float) : spec_float := SFadd prec emax x y.
Definition ltb (x y : spec_float) : bool := SFltb x y.
Definition leb (x y : spec_float) : bool := SFleb x y.

(** The float nearest to the integer [n], infinite when [n] is out of
    range. *)
Definition of_Z (n : Z) : spec_float := binary_normalize prec emax n 0 false.

(** [float(n)] for an [int]; [None] stands for [OverflowError]. *)
Definition of_int (n : Z) : option spec_float :=
  match of_Z n with
  | S754_infinity _ => None
  | x => Some x
  end.

(** [2.0 ** n] for a negative [n]: the power when it is a float, zero
    below the smallest one. *)
Definition exp2_neg (n : Z) : spec_float := binary_normalize prec emax 1 n false.

(** [min(a, b)]: the first argument unless the second is less. *)
Definition min (a b : spec_float) : spec_float := if ltb b a then b else a.

(** The literals [0.0], [1.0] and [60.0]. *)
Definition zero : spec_float := S754_zero false.
Definition one : spec_float := S754_finite false 4503599627370496 (-52).
Definition sixty : spec_float := S754_finite false 8444249301319680 (-47).

End Float.

(** ** Built-ins: [int], [sorted], [str.strip] *)

Module Py.

(** The value of an arithmetic expression: an [int] or a [float]. *)
Inductive number :=
| Int (n : Z)
| Flt (x : spec_float).

(** [2 ** n]: an [int] for [n >= 0], a [float] for a negative [n]. *)
Definition power_of_two (n : Z) : number :=
  if (0 <=? n)%Z then Int (2 ^ n) else Flt (Float.exp2_neg n).

(** [a + x] for a float [x]: an [int] is converted first; [None] stands for
    the [OverflowError] of a conversion out of range. *)
Definition add_float (a : number) (x : spec_float) : option spec_float :=
  match a with
  | Int n => (λ y, Float.add y x) <$> Float.of_int n
  | Flt y => Some (Float.add y x)
  end.

(** [c.isspace()] for a character below 256. *)
Definition is_space (c : ascii) : bool :=
  let n := nat_of_ascii c in
  ((9 <=? n)%nat && (n <=? 13)%nat) || ((28 <=? n)%nat && (n <=? 32)%nat)
  || (n =? 133)%nat || (n =? 160)%nat.

(** The white space [int] skips around a numeral: that of [isspace] but for
    the four separators 28 to 31. *)
Definition is_int_space (c : ascii) : bool :=
  let n := nat_of_ascii c in
  ((9 <=? n)%nat && (n <=? 13)%nat) || (n =? 32)%nat
  || (n =? 133)%nat || (n =? 160)%nat.

Fixpoint lstrip (space : ascii -> bool) (s : string) : string :=
  match s with
  | String c rest => if space c then lstrip space rest else s
  | EmptyString => ""
  end.

Fixpoint rstrip (space : ascii -> bool) (s : string) : string :=
  match s with
  | EmptyString => ""
  | String c rest =>
      match rstrip space rest with
      | EmptyString => if space c then "" else String c ""
      | r => String c r
      end
  end.

(** [s.strip()]. *)
Definition strip (s : string) : string := lstrip is_space (rstrip is_space s).

Definition digit (c : ascii) : option Z :=
  let n := nat_of_ascii c in
  if (48 <=? n)%nat && (n <=? 57)%nat then Some (Z.of_nat n - 48)%Z else None.

(** Decimal digits, where one underscore may stand between two digits. *)
Fixpoint digits (acc : Z) (s : string) : option Z :=
  match s with
  | EmptyString => Some acc
  | String c rest =>
      match digit c with
      | Some d => digits (10 * acc + d)%Z rest
      | None =>
          if Str.is_char Str.underscore c then
            match rest with
            | String c' rest' =>
                match digit c' with
                | Some d => digits (10 * acc + d)%Z rest'
                | None => None
                end
            | EmptyString => None
            end
          else None
      end
  end.

(** A numeral starts with a digit. *)
Definition unsigned (s : string) : option Z :=
  match s with
  | String c _ => match digit c with Some _ => digits 0 s | None => None end
  | EmptyString => None
  end.

(** [int(s)] for a [str] of characters below 256: surrounding white space,
    an optional sign, then decimal digits with single underscores allowed
    between them; [None] stands for [ValueError]. *)
Definition int (s : string) : option Z :=
  match lstrip is_int_space (rstrip is_int_space s) with
  | String "+" rest => unsigned rest
  | String "-" rest => Z.opp <$> unsigned rest
  | t => unsigned t
  end.

(** [sorted(l, key=...)] on elements already paired with their keys: a
    stable sort, ascending by key. *)
Fixpoint insert_by_key {A} (x : Z * A) (l : list (Z * A)) : list (Z * A) :=
  match l with
  | [] => [x]
  | y :: rest =>
      if (x.1 <=? y.1)%Z then x :: y :: rest
      else y :: insert_by_key x rest
  end.

Definition sorted_by_key {A} (l : list (Z * A)) : list (Z * A) :=
  foldr insert_by_key [] l.

End Py.

(** ** The world and the effect monad *)

Record world (svc : Type) := World {
  w_fs : FS.tree;
  w_svc : svc;
  w_draws : nat;
  w_log : list event
}.
Arguments World {svc} _ _ _ _.
Arguments w_fs {svc} _.
Arguments w_svc {svc} _.
Arguments w_draws {svc} _.
Arguments w_log {svc} _.

(** What the program takes from its platform and its libraries.
    - [create] is [openai.chat.completions.create] against a decision service
      with internal state; it answers with [response.choices[0].message] or
      raises.
    - [uniform n] is the value of the [n]-th call of [random.uniform(0, 1)].
    - [json_loads] is [json.loads]; [None] stands for [JSONDecodeError].
    - [str_exc] is [str(e)]; [format_delay] is the format [{delay:.2f}].
    - [encodable] tells whether the default text codec can encode a text.
    - [subprocess_run argv cwd] is [subprocess.run(argv, cwd=cwd, ...)].
    - [system_prompt] and [example_prompt] are the two fixed literals that
      open every transcript. *)
Record platform (svc : Type) := Platform {
  create : svc -> request -> (exn + assistant_message) * svc;
  uniform : nat -> spec_float;
  json_loads : string -> option json;
  str_exc : exn -> string;
  format_delay : spec_float -> string;
  encodable : string -> bool;
  cwd : list string;
  subprocess_run :
    list string -> string -> FS.tree -> (exn + completed_process) * FS.tree;
  system_prompt : string;
  example_prompt : string
}.
Arguments create {svc} _ _ _.
Arguments uniform {svc} _ _.
Arguments json_loads {svc} _ _.
Arguments str_exc {svc} _ _.
Arguments format_delay {svc} _ _.
Arguments encodable {svc} _ _.
Arguments cwd {svc} _.
Arguments subprocess_run {svc} _ _ _ _.
Arguments system_prompt {svc} _.
Arguments example_prompt {svc} _.

(** The command line after [parser.parse_args()]. *)
Record arguments := Args {
  arg_input : string;
  arg_output : string;
  arg_model : string;
  arg_ignore_failed : bool
}.

Section Program.

Context {svc : Type} (P : platform svc).

Definition M (A : Type) : Type := world svc -> result A * world svc.

Definition ret {A} (a : A) : M A := fun w => (Ret a, w).
Definition raise {A} (e : exn) : M A := fun w => (Raise e, w).
Definition out_of_fuel {A} : M A := fun w => (OutOfFuel, w).

Definition bind {A B} (m : M A) (k : A -> M B) : M B :=
  fun w =>
    match m w with
    | (Ret a, w') => k a w'
    | (Raise e, w') => (Raise e, w')
    | (OutOfFuel, w') => (OutOfFuel, w')
    end.

(** [try: m  except <class> as e: handler e], the class given by its
    [isinstance] test. *)
Definition try_except {A} (m : M A) (catches : exn -> bool)
    (handler : exn -> M A) : M A :=
  fun w =>
    match m w with
    | (Raise e, w') => if catches e then handler e w' else (Raise e, w')
    | r => r
    end.

Definition any_Exception (e : exn) : bool := true.

Notation "'do' x <- m ; k" := (bind m (fun x => k))
  (at level 10, x name, m at level 100, k at level 200).
Notation "'run' m ; k" := (bind m (fun _ => k))
  (at level 10, m at level 100, k at level 200).

Definition emit (ev : event) : M unit :=
  fun w => (Ret tt, World (w_fs w) (w_svc w) (w_draws w) (w_log w ++ [ev])%list).

Definition get_fs : M FS.tree := fun w => (Ret (w_fs w), w).
Definition put_fs (t : FS.tree) : M unit :=
  fun w => (Ret tt, World t (w_svc w) (w_draws w) (w_log w)).

Definition print (line : string) : M unit := emit (EvPrint line).
Definition time_sleep (seconds : spec_float) : M unit :=
  emit (EvSleep seconds).

(** [random.uniform(0, 1)]. *)
Definition random_uniform : M spec_float :=
  fun w => (Ret (uniform P (w_draws w)),
            World (w_fs w) (w_svc w) (S (w_draws w)) (w_log w)).

Definition lift_os {A} (filename : string) (r : oserror + A) : M A :=
  match r with
  | inr a => ret a
  | inl code => raise (OSError code filename)
  end.

(** ** File Store *)

(** [with open(file_path, 'r') as file: return file.read()]. *)
Definition open_read (file_path : string) : M string :=
  run emit (EvOpenRead file_path);
  do t <- get_fs;
  lift_os file_path (FS.read_text t (cwd P) file_path).

Definition read_file_content (file_path : string) : M string :=
  try_except (open_read file_path) any_Exception
    (fun e => ret ("Error reading file content: " ++ str_exc P e)).

(** [open(file_path, 'w')]: yields the node the file object writes to. *)
Definition open_write (file_path : string) : M (list string) :=
  run emit (EvOpenWrite file_path);
  do t <- get_fs;
  do opened <- lift_os file_path (FS.open_w t (cwd P) file_path);
  run put_fs opened.2;
  ret opened.1.

(** [file.write(content)] and the flush when the [with] block is left.  The
    argument is whatever the decoded JSON held: only a [str] is accepted,
    and only a text the codec can encode reaches the file. *)
Definition file_write (q : list string) (content : json) : M unit :=
  match content with
  | JString text =>
      if encodable P text then
        do t <- get_fs;
        put_fs (<[q := File text]> t)
      else raise (UnicodeEncodeError text)
  | _ => raise (TypeError "write() argument must be str")
  end.

Definition write_file_content (file_path : string) (content : json)
  : M string :=
  try_except
    (do q <- open_write file_path;
     run file_write q content;
     ret "File written successfully.")
    any_Exception
    (fun e => ret ("Error writing file content: " ++ str_exc P e)).

(** ** Directory listing *)

Definition tee : string := "├── ".
Definition elbow : string := "└── ".
Definition pipe : string := "│   ".
Definition blank : string := "    ".

(** [pointers = ['├── '] * (n - 1) + ['└── ']]. *)
Definition pointers (n : nat) : list string :=
  (replicate (n - 1) tee ++ [elbow])%list.

(** ['\n'.join(lines)]. *)
Fixpoint join_lines (lines : list string) : string :=
  match lines with
  | [] => ""
  | [line] => line
  | line :: rest => line ++ String Str.LF (join_lines rest)
  end.

(** The body of [for pointer, path in zip(pointers, contents)] over the
    entries still to come, the last of which gets the elbow.  [subtree] is
    the recursive call [tree(path.path, prefix + extension, depth + 1)] and
    [is_dir] is [path.is_dir()]; a failure below discards the lines. *)
Fixpoint tree_entries (subtree : string -> string -> exn + list string)
    (is_dir : string -> bool) (dir_path prefix : string)
    (contents : list string) : exn + list string :=
  match contents with
  | [] => inr []
  | name :: rest =>
      let pointer := match rest with [] => elbow | _ => tee end in
      let path := PosixPath.join dir_path name in
      let below :=
        if is_dir path then
          let extension := if bool_decide (pointer = tee) then pipe else blank in
          subtree path (prefix ++ extension)
        else inr [] in
      match below with
      | inl e => inl e
      | inr lines =>
          match tree_entries subtree is_dir dir_path prefix rest with
          | inl e => inl e
          | inr others =>
              inr ((prefix ++ pointer ++ name) :: (lines ++ others)%list)
          end
      end
  end.

(** The generator [tree] of [list_directory_files], with the levels left
    until [depth > max_depth]: [levels = max_depth + 1 - depth]. *)
Fixpoint tree (levels : nat) (t : FS.tree) (cwd : list string)
    (dir_path prefix : string) : exn + list string :=
  match levels with
  | O => inr [prefix ++ elbow ++ "..."]
  | S levels' =>
      match FS.listdir t cwd dir_path with
      | inl code => inl (OSError code dir_path)
      | inr contents =>
          tree_entries (tree levels' t cwd) (FS.isdir t cwd) dir_path prefix
            contents
      end
  end.

Definition list_directory_files (directory : string) (max_depth : Z)
  : M string :=
  do t <- get_fs;
  match tree (Z.to_nat (max_depth + 1)) t (cwd P) directory "" with
  | inr lines => ret (join_lines lines)
  | inl e => raise e
  end.

(** [os.makedirs(name, exist_ok=True)]. *)
Definition os_makedirs (name : string) : M unit :=
  run emit (EvMakedirs name);
  do t <- get_fs;
  let '(t', failure) := FS.makedirs_run t (cwd P) name in
  run put_fs t';
  match failure with
  | None => ret tt
  | Some (code, filename) => raise (OSError code filename)
  end.

Definition os_listdir (directory : string) : M (list string) :=
  do t <- get_fs;
  lift_os directory (FS.listdir t (cwd P) directory).

Definition os_path_exists (directory : string) : M bool :=
  do t <- get_fs;
  ret (FS.exists_ t (cwd P) directory).

(** ** Retry Policy *)

(** [delay = min(2 ** attempt + random.uniform(0, 1), max_delay)]: the
    power is computed, the jitter is drawn, and the sum is made in floating
    point, which raises when the power is too large to convert. *)
Definition exponential_backoff (attempt : Z) (max_delay : spec_float)
  : M spec_float :=
  let power := Py.power_of_two attempt in
  do jitter <- random_uniform;
  match Py.add_float power jitter with
  | Some sum =>
      let delay := Float.min sum max_delay in
      ret delay
  | None => raise (OverflowError "int too large to convert to float")
  end.

Definition default_max_delay : spec_float := Float.sixty.

Definition max_retries : nat := 5.

(** The body of [for attempt in range(max_retries)], over the attempts
    still to come.  Falling off the loop returns [None]. *)
Fixpoint retry_attempts {A} (func : M A) (attempts : list nat)
  : M (option A) :=
  match attempts with
  | [] => ret None
  | attempt :: rest =>
      try_except
        (do r <- func; ret (Some r))
        is_OpenAIError
        (fun e =>
           if (attempt =? max_retries - 1)%nat then raise e
           else
             do delay <- exponential_backoff (Z.of_nat attempt)
                           default_max_delay;
             run print ("OpenAI request failed. Retrying in "
                        ++ format_delay P delay ++ " seconds...");
             run time_sleep delay;
             retry_attempts func rest)
  end.

Definition retry_openai_request {A} (func : M A) : M (option A) :=
  retry_attempts func (seq 0 max_retries).

(** ** Agent Loop *)

(** One round trip of [openai.chat.completions.create]. *)
Definition chat_completions_create (r : request) : M assistant_message :=
  run emit (EvCreate r);
  fun w =>
    let '(answer, s') := create P (w_svc w) r in
    let w' := World (w_fs w) s' (w_draws w) (w_log w) in
    match answer with
    | inr m => (Ret m, w')
    | inl e => (Raise e, w')
    end.

Definition loads (doc : string) : M json :=
  match json_loads P doc with
  | Some v => ret v
  | None => raise (JSONDecodeError doc)
  end.

(** [function_args[key]]. *)
Definition subscript (function_args : json) (key : string) : M json :=
  match function_args with
  | JObject members =>
      match assoc key members with
      | Some v => ret v
      | None => raise (KeyError key)
      end
  | _ => raise (TypeError "indices must be integers or the object is not subscriptable")
  end.

(** [value == name] for a [str] [name]. *)
Definition equals_str (value : json) (name : string) : bool :=
  match value with
  | JString s => bool_decide (s = name)
  | _ => false
  end.

(** [os.path.join(output_directory, value)]. *)
Definition os_path_join (output_directory : string) (value : json)
  : M string :=
  match value with
  | JString file_path => ret (PosixPath.join output_directory file_path)
  | _ => raise (TypeError "join() argument must be str, bytes, or os.PathLike object")
  end.

(** [messages.append(m)]. *)
Definition append (messages : list message) (m : message) : list message :=
  (messages ++ [m])%list.

Definition tool_message (tc : tool_call) (content : string) : message :=
  ToolMsg (tc_id tc) (tc_name tc) content.

(** The body of [for tool_call in assistant_message.tool_calls]. *)
Definition dispatch (artifact_path artifact_content output_directory : string)
    (tc : tool_call) (messages : list message) : M (list message) :=
  let function_name := tc_name tc in
  do function_args <- loads (tc_arguments tc);
  if bool_decide (function_name = "read_file_content") then
    do requested <- subscript function_args "file_path";
    if equals_str requested (PosixPath.basename artifact_path) then
      let file_content := artifact_content in
      ret (append messages (tool_message tc file_content))
    else
      do requested <- subscript function_args "file_path";
      do full_path <- os_path_join output_directory requested;
      run print ("Reading the contents from " ++ full_path);
      do file_content <- read_file_content full_path;
      ret (append messages (tool_message tc file_content))
  else if bool_decide (function_name = "write_file_content") then
    do requested <- subscript function_args "file_path";
    do full_path <- os_path_join output_directory requested;
    run os_makedirs (PosixPath.dirname full_path);
    run print ("Writing / Updating the contents to " ++ full_path);
    do content <- subscript function_args "content";
    do response_msg <- write_file_content full_path content;
    ret (append messages (tool_message tc response_msg))
  else ret messages.

Fixpoint dispatch_all (artifact_path artifact_content output_directory : string)
    (tool_calls : list tool_call) (messages : list message)
  : M (list message) :=
  match tool_calls with
  | [] => ret messages
  | tc :: rest =>
      do messages <- dispatch artifact_path artifact_content
                       output_directory tc messages;
      dispatch_all artifact_path artifact_content output_directory
        rest messages
  end.

(** The truth value of [assistant_message.tool_calls]: the requests when
    there are any. *)
Definition requested_calls (m : assistant_message) : list tool_call :=
  match am_tool_calls m with
  | Some calls => calls
  | None => []
  end.

(** [response.choices[0].message]; [None] has no such attribute. *)
Definition message_of (response : option assistant_message)
  : M assistant_message :=
  match response with
  | Some m => ret m
  | None => raise (AttributeError "'NoneType' object has no attribute 'choices'")
  end.

(** One pass through the body of [while True]: the transcript after the
    pass, and whether the loop goes on. *)
Definition turn (artifact_path artifact_content output_directory
    model_name : string) (messages : list message)
  : M (bool * list message) :=
  do response <- retry_openai_request
                   (chat_completions_create
                      (Request model_name messages tools));
  do assistant_message <- message_of response;
  let messages := append messages (AssistantMsg assistant_message) in
  match requested_calls assistant_message with
  | (_ :: _) as tool_calls =>
      do messages <- dispatch_all artifact_path artifact_content
                       output_directory tool_calls messages;
      ret (true, messages)
  | [] =>
      run print "No tool call in the message, moving on to the next file (if any)";
      ret (false, messages)
  end.

(** [while True: ...], given [fuel] passes at most. *)
Fixpoint agent_loop (fuel : nat) (artifact_path artifact_content
    output_directory model_name : string) (messages : list message)
  : M (list message) :=
  match fuel with
  | O => out_of_fuel
  | S fuel' =>
      do step <- turn artifact_path artifact_content output_directory
                   model_name messages;
      if step.1 then
        agent_loop fuel' artifact_path artifact_content output_directory
          model_name step.2
      else ret step.2
  end.

Definition artifact_prompt (name content : string) : string :=
  "
            Analyze this and determine what files need to be created or updated as required.

            Here's the content of an artifact file with the name " ++ name ++ ":

            " ++ content.

Definition initial_messages (artifact_path artifact_content : string)
  : list message :=
  [SystemMsg (system_prompt P);
   UserMsg (example_prompt P);
   UserMsg (artifact_prompt (PosixPath.basename artifact_path)
              artifact_content)].

Definition process_artifact (fuel : nat) (artifact_path output_directory
    model_name : string) : M unit :=
  do artifact_content <- read_file_content artifact_path;
  let messages := initial_messages artifact_path artifact_content in
  do messages <- agent_loop fuel artifact_path artifact_content
                   output_directory model_name messages;
  print ("Processed " ++ PosixPath.basename artifact_path).

(** ** Batch Driver *)

(** [sorted] calls the key [int(x.split('_')[0])] once per element, in
    order, before it compares anything. *)
Definition ordinal_key (x : string) : M Z :=
  let prefix := Str.first_field Str.underscore x in
  match Py.int prefix with
  | Some n => ret n
  | None => raise (ValueError ("invalid literal for int() with base 10: " ++ prefix))
  end.

Fixpoint keyed (files : list string) : M (list (Z * string)) :=
  match files with
  | [] => ret []
  | x :: rest =>
      do k <- ordinal_key x;
      do others <- keyed rest;
      ret ((k, x) :: others)
  end.

Definition list_artifact_files (directory : string) : M (list string) :=
  try_except
    (do files <- os_listdir directory;
     do pairs <- keyed files;
     ret (map snd (Py.sorted_by_key pairs)))
    any_Exception
    (fun e => ret ["Error listing artifact files: " ++ str_exc P e]).

Definition ensure_empty_directory (directory : string) : M unit :=
  do present <- os_path_exists directory;
  if present then
    do entries <- os_listdir directory;
    match entries with
    | _ :: _ =>
        raise (Exception_ ("Output directory '" ++ directory
                           ++ "' is not empty. Please provide an empty directory."))
    | [] => ret tt
    end
  else ret tt.

(** [subprocess.run(argv, cwd=directory, ...)]. *)
Definition run_process (argv : list string) (directory : string)
  : M completed_process :=
  run emit (EvSubprocess argv directory);
  fun w =>
    let '(answer, t') := subprocess_run P argv directory (w_fs w) in
    let w' := World t' (w_svc w) (w_draws w) (w_log w) in
    match answer with
    | inr done => (Ret done, w')
    | inl e => (Raise e, w')
    end.

(** [subprocess.run(argv, cwd=directory, check=True)]. *)
Definition run_checked (argv : list string) (directory : string) : M unit :=
  do done <- run_process argv directory;
  if (returncode done =? 0)%Z then ret tt
  else raise (CalledProcessError argv (returncode done)).

Definition initialize_git_repo (directory : string) : M unit :=
  run run_checked ["git"; "init"] directory;
  print ("Initialized empty Git repository in " ++ directory).

Definition create_git_commit (directory artifact_name artifact_content
    : string) : M unit :=
  do result <- run_process ["git"; "status"; "--porcelain"] directory;
  if bool_decide (Py.strip (stdout result) = "") then
    print ("No changes to commit for " ++ artifact_name)
  else
    run run_checked ["git"; "add"; "."] directory;
    let commit_message := "Processed artifact: " ++ artifact_name in
    run run_checked
          ["git"; "commit"; "-m"; commit_message; "-m"; artifact_content]
          directory;
    print ("Created Git commit for " ++ artifact_name).

(** The body of [for artifact_file in ...]: [true] to go on with the next
    file, [false] after [break]. *)
Definition process_one (fuel : nat) (args : arguments)
    (artifact_file : string) : M bool :=
  run print ("Processing " ++ artifact_file ++ "...");
  let artifact_path := PosixPath.join (arg_input args) artifact_file in
  try_except
    (run process_artifact fuel artifact_path (arg_output args)
           (arg_model args);
     do artifact_content <- read_file_content artifact_path;
     run create_git_commit (arg_output args) artifact_file artifact_content;
     ret true)
    any_Exception
    (fun e =>
       run print ("Error processing " ++ artifact_file ++ ": "
                  ++ str_exc P e);
       if negb (arg_ignore_failed args) then
         run print "Stopping processing due to failure.";
         ret false
       else
         run print "Continuing to next file due to --ignore-failed flag.";
         ret true).

Fixpoint for_artifacts (fuel : nat) (args : arguments)
    (files : list string) : M unit :=
  match files with
  | [] => ret tt
  | artifact_file :: rest =>
      do go_on <- process_one fuel args artifact_file;
      if go_on then for_artifacts fuel args rest else ret tt
  end.

Definition main (fuel : nat) (args : arguments) : M unit :=
  let artifact_directory := arg_input args in
  let output_directory := arg_output args in
  run ensure_empty_directory output_directory;
  run os_makedirs output_directory;
  run initialize_git_repo output_directory;
  do files <- list_artifact_files artifact_directory;
  for_artifacts fuel args files.

End Program.

(** ** Observations on a log, and fixtures for concrete runs *)

Definition is_create (ev : event) : bool :=
  match ev with
  | EvCreate _ => true
  | _ => false
  end.

(** The number of round trips to the decision service in a log. *)
Definition calls (evs : list event) : nat := length (List.filter is_create evs).

(** The delays slept, in order. *)
Fixpoint sleeps (evs : list event) : list spec_float :=
  match evs with
  | [] => []
  | EvSleep d :: rest => d :: sleeps rest
  | _ :: rest => sleeps rest
  end.

(** The paths opened for reading, in order. *)
Fixpoint reads (evs : list event) : list string :=
  match evs with
  | [] => []
  | EvOpenRead p :: rest => p :: reads rest
  | _ :: rest => reads rest
  end.

(** The lines printed, in order. *)
Fixpoint printed (evs : list event) : list string :=
  match evs with
  | [] => []
  | EvPrint line :: rest => line :: printed rest
  | _ :: rest => printed rest
  end.

(** The transcripts submitted to the decision service, in order. *)
Fixpoint submitted (evs : list event) : list (list message) :=
  match evs with
  | [] => []
  | EvCreate r :: rest => req_messages r :: submitted rest
  | _ :: rest => submitted rest
  end.

(** The requests submitted to the decision service, in order. *)
Fixpoint requests (evs : list event) : list request :=
  match evs with
  | [] => []
  | EvCreate r :: rest => r :: requests rest
  | _ :: rest => requests rest
  end.

(** The commands run, in order. *)
Fixpoint subprocesses (evs : list event) : list (list string) :=
  match evs with
  | [] => []
  | EvSubprocess argv _ :: rest => argv :: subprocesses rest
  | _ :: rest => subprocesses rest
  end.

(** The float [2^n], for [n] from 0 to 1023. *)
Definition exp2 (n : Z) : spec_float :=
  S754_finite false 4503599627370496 (n - 52).

(** The delay [min(2 ** attempt + jitter, max_delay)] once the power has
    been converted, for an attempt from 0 to 1023. *)
Definition backoff_delay (attempt : Z) (jitter max_delay : spec_float)
  : spec_float :=
  Float.min (Float.add (exp2 attempt) jitter) max_delay.

(** A float of the unit interval, as [random.uniform(0, 1)] returns it. *)
Definition unit_interval (j : spec_float) : Prop :=
  valid_binary Float.prec Float.emax j = true
  ∧ Float.leb Float.zero j = true
  ∧ Float.leb j Float.one = true.

(** The correlation identifier and the operation name of a result. *)
Definition label (m : message) : option (string * string) :=
  match m with
  | ToolMsg id name _ => Some (id, name)
  | _ => None
  end.

(** The state of the service after [n] calls with the same request. *)
Fixpoint svc_after {svc} (P : platform svc) (r : request) (n : nat) (s : svc)
  : svc :=
  match n with
  | O => s
  | S n' => svc_after P r n' (create P s r).2
  end.

(** The correlation identifiers answered by a list of messages. *)
Fixpoint answered (messages : list message) : list string :=
  match messages with
  | [] => []
  | ToolMsg id _ _ :: rest => id :: answered rest
  | _ :: rest => answered rest
  end.

Definition known_operation (tc : tool_call) : bool :=
  bool_decide (tc_name tc = "read_file_content")
  || bool_decide (tc_name tc = "write_file_content").

(** A line [main] prints when it starts on an artifact. *)
Definition processing_line (artifact_file : string) : string :=
  "Processing " ++ artifact_file ++ "...".

Fixpoint has_prefix (p s : string) : bool :=
  match p, s with
  | EmptyString, _ => true
  | String a p', String b s' => bool_decide (a = b) && has_prefix p' s'
  | String _ _, EmptyString => false
  end.

Definition is_processing (ev : event) : bool :=
  match ev with
  | EvPrint line => has_prefix "Processing " line
  | _ => false
  end.

(** A file name with a leading decimal ordinal and an underscore after it. *)
Fixpoint all_digits (s : string) : bool :=
  match s with
  | EmptyString => true
  | String c rest => bool_decide (is_Some (Py.digit c)) && all_digits rest
  end.

Definition has_ordinal (x : string) : bool :=
  let prefix := Str.first_field Str.underscore x in
  negb (bool_decide (prefix = "")) && all_digits prefix
  && Str.contains Str.underscore x.

(** The value of a decimal numeral, most significant digit first. *)
Definition decimal_value (s : string) : Z :=
  default 0%Z (Py.digits 0 s).

Definition ordinal (x : string) : Z :=
  decimal_value (Str.first_field Str.underscore x).

(** A component that names an entry: not empty, not a dot, not a dot-dot. *)
Definition plain (c : string) : bool :=
  negb (FS.is_dot c) && negb (FS.is_dotdot c).

(** ** Frame properties of the effect monad

    [respects T m]: running [m] relates the world before to the world after
    by [T], whatever the outcome.  [total m]: [m] never runs out of fuel. *)

Definition respects {svc} (T : relation (world svc)) {A} (m : M A) : Prop :=
  ∀ w, T w (m w).2.
Definition total {svc A} (m : @M svc A) : Prop := ∀ w, (m w).1 ≠ OutOfFuel.

(** The log only grows, and by no line that announces an artifact. *)
Definition quiet {svc} : relation (world svc) :=
  λ w w', ∃ evs, (w_log w' = w_log w ++ evs)%list
                 ∧ Forall (λ ev, is_processing ev = false) evs.

(** The decision service is left alone. *)
Definition offline {svc} : relation (world svc) :=
  λ w w', w_svc w' = w_svc w.

(** The file system is left alone. *)
Definition readonly {svc} : relation (world svc) :=
  λ w w', w_fs w' = w_fs w.

(** The write of the File Store as the Agent Loop performs it in
    [process_artifact]: [os.makedirs] on the directory of the path, then
    [write_file_content]. *)
Definition file_store_write {svc} (P : platform svc) (path content : string)
  : M string :=
  bind (os_makedirs P (PosixPath.dirname path))
    (λ _, write_file_content P path (JString content)).

(** The statements of [main] before its loop, and the loop statement. *)
Definition prelude {svc} (P : platform svc) (args : arguments) : M unit :=
  bind (ensure_empty_directory P (arg_output args))
    (λ _, bind (os_makedirs P (arg_output args))
    (λ _, initialize_git_repo P (arg_output args))).

Definition batch {svc} (P : platform svc) (fuel : nat) (args : arguments)
  : M unit :=
  bind (list_artifact_files P (arg_input args))
    (λ files, for_artifacts P fuel args files).

(** Ascending by key, and ascending by ordinal. *)
Definition key_le {A} (a b : Z * A) : Prop := (a.1 <= b.1)%Z.
Definition ordinal_le (a b : string) : Prop := (ordinal a <= ordinal b)%Z.

Definition with_ordinal (x : string) : Z * string := (ordinal x, x).

(** A decision service winds down under a measure of its state: no call
    raises the measure, and an answer that carries operation requests lowers
    it.  Such a service can ask for operations only finitely many times. *)
Definition winds_down {svc} (P : platform svc) (μ : svc → nat) : Prop :=
  ∀ s r,
    (μ (create P s r).2 ≤ μ s)%nat
    ∧ ∀ m, (create P s r).1 = inr m → requested_calls m ≠ [] →
           (μ (create P s r).2 < μ s)%nat.

(** A request whose dispatch cannot raise: its arguments decode, and it is a
    read with a string path or an operation outside the catalog. *)
Definition benign {svc} (P : platform svc) (tc : tool_call) : Prop :=
  ∃ v, json_loads P (tc_arguments tc) = Some v
       ∧ tc_name tc ≠ "write_file_content"
       ∧ (tc_name tc = "read_file_content" →
          ∃ members file_path,
            v = JObject members
            ∧ assoc "file_path" members = Some (JString file_path)).

(** A decision service that answers every call, always with requests. *)
Definition insists {svc} (P : platform svc) : Prop :=
  ∀ s r, ∃ m, (create P s r).1 = inr m
              ∧ requested_calls m ≠ []
              ∧ Forall (benign P) (requested_calls m).

(** The transcript and the world before pass [n + 1] of the Agent Loop,
    when each of the first [n] passes received requests and dispatched
    them; [None] when one of them ended the loop. *)
Fixpoint passes {svc} (P : platform svc) (n : nat) (artifact_path
    artifact_content output_directory model_name : string)
    (messages : list message) (w : world svc)
  : option (list message * world svc) :=
  match n with
  | O => Some (messages, w)
  | S n' =>
      match turn P artifact_path artifact_content output_directory
              model_name messages w with
      | (Ret (true, messages'), w') =>
          passes P n' artifact_path artifact_content output_directory
            model_name messages' w'
      | _ => None
      end
  end.

Definition no_call_line : string :=
  "No tool call in the message, moving on to the next file (if any)".

(** [returns Q m]: whenever [m] returns, the value returned satisfies [Q]. *)
Definition returns {svc A} (Q : A → Prop) (m : @M svc A) : Prop :=
  ∀ w a w', m w = (Ret a, w') → Q a.

(** The log only grows, and by no call of the decision service. *)
Definition backstage {svc} : relation (world svc) :=
  λ w w', ∃ evs, (w_log w' = w_log w ++ evs)%list
                 ∧ Forall (λ ev, is_create ev = false) evs.

(** The answer of the service in state [s], as an outcome. *)
Definition answer {svc} (P : platform svc) (r : request) (s : svc)
  : result assistant_message :=
  match (create P s r).1 with
  | inr m => Ret m
  | inl e => Raise e
  end.

(** The line printed before a backoff sleep. *)
Definition retry_line {svc} (P : platform svc) (d : spec_float) : string :=
  "OpenAI request failed. Retrying in " ++ format_delay P d ++ " seconds...".

(** *** Fixtures *)

Module Fixture.

(** The float [0.5]. *)
Definition half : spec_float := S754_finite false 4503599627370496 (-53).

Definition quote : string := String "034"%char "".
Definition jstr (s : string) : string := quote ++ s ++ quote.
Definition member (k v : string) : string := jstr k ++ ": " ++ v.

(** [json.loads] on the documents of a table, [JSONDecodeError] elsewhere. *)
Fixpoint table_loads (table : list (string * json)) (doc : string)
  : option json :=
  match table with
  | [] => None
  | (d, v) :: rest =>
      if bool_decide (d = doc) then Some v else table_loads rest doc
  end.

Definition doc_write (file_path content : string) : string :=
  "{" ++ member "file_path" (jstr file_path) ++ ", "
      ++ member "content" (jstr content) ++ "}".
Definition doc_read (file_path : string) : string :=
  "{" ++ member "file_path" (jstr file_path) ++ "}".

Definition carriage : string := "a" ++ String Str.CR "b".

(** The documents the fixtures use, with what [json.loads] makes of them.
    In JSON text a backslash followed by [r] stands for a carriage return. *)
Definition documents : list (string * json) :=
  [(doc_write "src/a.js" "hi",
    JObject [("file_path", JString "src/a.js"); ("content", JString "hi")]);
   (doc_write "notes.txt" "a\rb",
    JObject [("file_path", JString "notes.txt");
             ("content", JString carriage)]);
   (doc_write "../escape.txt" "x",
    JObject [("file_path", JString "../escape.txt");
             ("content", JString "x")]);
   (doc_write "/tmp/abs.txt" "x",
    JObject [("file_path", JString "/tmp/abs.txt");
             ("content", JString "x")]);
   (doc_read "2_demo.js", JObject [("file_path", JString "2_demo.js")]);
   (doc_read "src/a.js", JObject [("file_path", JString "src/a.js")]);
   (doc_read "gone.txt", JObject [("file_path", JString "gone.txt")]);
   (doc_write "new/../../in/2_demo.js/x/a.js" "hi",
    JObject [("file_path", JString "new/../../in/2_demo.js/x/a.js");
             ("content", JString "hi")])].

Definition delete_call : tool_call :=
  ToolCall "call_1" "delete_file" (doc_read "gone.txt").

Definition describe (e : exn) : string :=
  match e with
  | OpenAIError _ detail => detail
  | OSError ENOENT f => "[Errno 2] No such file or directory: '" ++ f ++ "'"
  | OSError ENOTDIR f => "[Errno 20] Not a directory: '" ++ f ++ "'"
  | OSError EISDIR f => "[Errno 21] Is a directory: '" ++ f ++ "'"
  | OSError EEXIST f => "[Errno 17] File exists: '" ++ f ++ "'"
  | KeyError k => "'" ++ k ++ "'"
  | TypeError d | ValueError d | AttributeError d | Exception_ d => d
  | UnicodeEncodeError _ => "codec can't encode characters"
  | JSONDecodeError _ => "Expecting value: line 1 column 1 (char 0)"
  | CalledProcessError _ _ => "Command returned non-zero exit status."
  | OverflowError d => d
  end.

(** A platform around a service [create]: jitter one half, every text
    encodable, [git] always succeeding and reporting changes. *)
Definition platform_of {svc} (create : svc -> request ->
    (exn + assistant_message) * svc) : platform svc :=
  {| create := create;
     uniform := fun _ => half;
     json_loads := table_loads documents;
     str_exc := describe;
     format_delay := fun _ => "?";
     encodable := fun _ => true;
     cwd := ["work"];
     subprocess_run := fun _ _ t => (inr (CompletedProcess 0 " M x"), t);
     system_prompt := "SYSTEM";
     example_prompt := "EXAMPLE" |}.

Definition says (content : string) : exn + assistant_message :=
  inr (AssistantMessage (Some content) None).
Definition asks (calls : list tool_call) : exn + assistant_message :=
  inr (AssistantMessage None (Some calls)).

(** A service that plays a script, one answer per call, and then says it
    is done; its state is the number of calls so far. *)
Definition scripted (script : list (exn + assistant_message)) (n : nat)
    (r : request) : (exn + assistant_message) * nat :=
  (default (says "done") (script !! n), S n).

(** A service that fails every call in the same way. *)
Definition failing (e : exn) (n : nat) (r : request)
  : (exn + assistant_message) * nat :=
  (inl e, S n).

(** A service that asks for the same unknown operation for ever. *)
Definition insistent (n : nat) (r : request)
  : (exn + assistant_message) * nat :=
  (asks [ToolCall "call_x" "delete_file" (doc_read "gone.txt")], S n).

(** A service without memory: it asks to read [2_demo.js] until the
    transcript holds a result, and then says it is done.  Its state never
    changes. *)
Definition by_transcript (s : nat) (r : request)
  : (exn + assistant_message) * nat :=
  (match answered (req_messages r) with
   | [] => asks [ToolCall "call_1" "read_file_content" (doc_read "2_demo.js")]
   | _ => says "done"
   end, s).

(** A working directory [/work] holding [in/2_demo.js] and an empty
    [out]. *)
Definition tree0 : FS.tree :=
  <[ ["work"; "in"; "2_demo.js"] := File "// a.js" ]>
    (<[ ["work"; "in"] := Dir ]>
       (<[ ["work"; "out"] := Dir ]>
          (<[ ["work"] := Dir ]> ∅))).

Definition world0 : world nat := World tree0 0 0 [].

(** A service that says at once that it is done, and a request to it. *)
Definition done_service : platform nat := platform_of (scripted []).
Definition ask : request := Request "gpt" [] tools.

(** An input directory with three numbered artifacts. *)
Definition tree_three : FS.tree :=
  <[ ["work"; "in"; "10_c.js"] := File "c" ]>
    (<[ ["work"; "in"; "2_b.js"] := File "b" ]>
       (<[ ["work"; "in"; "1_a.js"] := File "a" ]>
          (<[ ["work"; "in"] := Dir ]> (<[ ["work"] := Dir ]> ∅)))).

(** As [platform_of], with a work tree that [git status] finds clean. *)
Definition clean_platform_of {svc} (create : svc -> request ->
    (exn + assistant_message) * svc) : platform svc :=
  {| create := create;
     uniform := fun _ => half;
     json_loads := table_loads documents;
     str_exc := describe;
     format_delay := fun _ => "?";
     encodable := fun _ => true;
     cwd := ["work"];
     subprocess_run := fun _ _ t => (inr (CompletedProcess 0 ""), t);
     system_prompt := "SYSTEM";
     example_prompt := "EXAMPLE" |}.

(** As [platform_of], with a [git] that exits with status 128. *)
Definition gitless_platform_of {svc} (create : svc -> request ->
    (exn + assistant_message) * svc) : platform svc :=
  {| create := create;
     uniform := fun _ => half;
     json_loads := table_loads documents;
     str_exc := describe;
     format_delay := fun _ => "?";
     encodable := fun _ => true;
     cwd := ["work"];
     subprocess_run := fun _ _ t => (inr (CompletedProcess 128 ""), t);
     system_prompt := "SYSTEM";
     example_prompt := "EXAMPLE" |}.

(** As [done_service], with a decoder that also knows the empty object. *)
Definition lenient_service : platform nat :=
  {| create := scripted [];
     uniform := fun _ => half;
     json_loads := table_loads (("{}", JObject []) :: documents);
     str_exc := describe;
     format_delay := fun _ => "?";
     encodable := fun _ => true;
     cwd := ["work"];
     subprocess_run := fun _ _ t => (inr (CompletedProcess 0 " M x"), t);
     system_prompt := "SYSTEM";
     example_prompt := "EXAMPLE" |}.

Definition rate_limited : exn + assistant_message :=
  inl (OpenAIError RateLimitError "slow down").

(** A service that is rate limited twice and then says it is done. *)
Definition flaky_service : platform nat :=
  platform_of (scripted [rate_limited; rate_limited]).

(** An output directory with a file, a directory and a file below it. *)
Definition tree_nested : FS.tree :=
  <[ ["work"; "out"; "src"; "a.js"] := File "a" ]>
    (<[ ["work"; "out"; "src"] := Dir ]>
       (<[ ["work"; "out"; "readme.md"] := File "r" ]> tree0)).

(** An output directory holding two files and no directory. *)
Definition tree_flat : FS.tree :=
  <[ ["work"; "out"; "b.txt"] := File "b" ]>
    (<[ ["work"; "out"; "a.txt"] := File "a" ]> tree0).

(** An input directory where two names carry the same ordinal. *)
Definition tree_ties : FS.tree :=
  <[ ["work"; "in"; "01_b.js"] := File "b" ]>
    (<[ ["work"; "in"; "1_a.js"] := File "a" ]>
       (<[ ["work"; "in"; "0_z.js"] := File "z" ]>
          (<[ ["work"; "in"] := Dir ]> (<[ ["work"] := Dir ]> ∅)))).

End Fixture.

(** * Floating point

    What the Retry Policy needs of IEEE 754 addition: the sum of a power of
    two and a jitter of the unit interval, rounded to nearest. *)

Section FloatFacts.

Local Open Scope Z_scope.

Lemma digits2_size p : digits2_pos p = Pos.size p.
Proof. induction p; simpl; congruence. Qed.

Lemma digits2_bounds p :
  2 ^ (Zpos (digits2_pos p) - 1) <= Zpos p < 2 ^ Zpos (digits2_pos p).
Proof.
  rewrite digits2_size. split.
  - pose proof (Pos.size_le p) as H.
    assert (Zpos (2 ^ Pos.size p) <= Zpos p~0) as H' by exact H.
    rewrite Pos2Z.inj_pow in H'.
    replace (Zpos (Pos.size p)) with (Z.succ (Zpos (Pos.size p) - 1)) in H' by lia.
    rewrite Z.pow_succ_r in H' by lia. lia.
  - pose proof (Pos.size_gt p) as H.
    assert (Zpos p < Zpos (2 ^ Pos.size p)) as H' by exact H.
    by rewrite Pos2Z.inj_pow in H'.
Qed.

Lemma digits2_unique p d :
  2 ^ (d - 1) <= Zpos p < 2 ^ d -> Zpos (digits2_pos p) = d.
Proof.
  intros [Hlo Hhi]. pose proof (digits2_bounds p) as [Hlo' Hhi'].
  assert (0 < d).
  { destruct (Z.le_gt_cases d 0) as [Hd|]; [|done].
    assert (2 ^ d <= 2 ^ 0) by (apply Z.pow_le_mono_r; lia || (destruct d; simpl in *; lia)).
    simpl in *. lia. }
  destruct (Z.lt_trichotomy (Zpos (digits2_pos p)) d) as [Hlt|[Heq|Hgt]]; [|done|].
  - assert (2 ^ Zpos (digits2_pos p) <= 2 ^ (d - 1)) by (apply Z.pow_le_mono_r; lia).
    lia.
  - assert (2 ^ d <= 2 ^ (Zpos (digits2_pos p) - 1)) by (apply Z.pow_le_mono_r; lia).
    lia.
Qed.

Lemma iter_pos_nat {A} (f : A -> A) p :
  forall x, SpecFloat.iter_pos f p x = Nat.iter (Pos.to_nat p) f x.
Proof.
  induction p as [p IH|p IH|]; intros x; cbn [SpecFloat.iter_pos]; [| |done].
  - rewrite !IH, Pos2Nat.inj_xI.
    replace (S (2 * Pos.to_nat p))%nat
      with (S (Pos.to_nat p + Pos.to_nat p))%nat by lia.
    by rewrite Nat.iter_succ_r, Nat.iter_add.
  - rewrite !IH, Pos2Nat.inj_xO.
    replace (2 * Pos.to_nat p)%nat with (Pos.to_nat p + Pos.to_nat p)%nat
      by lia.
    by rewrite Nat.iter_add.
Qed.

Lemma shr_1_m mrs :
  0 <= shr_m mrs -> shr_m (shr_1 mrs) = shr_m mrs / 2.
Proof.
  destruct mrs as [m r s]. cbn [shr_m]. intros Hm.
  destruct m as [|[p|p|]|p]; cbn [shr_1 shr_m]; [done| | |done|lia].
  - rewrite Pos2Z.inj_xI. apply Z.div_unique with 1; lia.
  - rewrite Pos2Z.inj_xO. apply Z.div_unique with 0; lia.
Qed.

Lemma shr_iter_m k mrs :
  0 <= shr_m mrs ->
  shr_m (Nat.iter k shr_1 mrs) = shr_m mrs / 2 ^ Z.of_nat k.
Proof.
  intros Hm. induction k as [|k IH].
  - simpl. by rewrite Z.div_1_r.
  - rewrite Nat.iter_succ, shr_1_m, IH.
    + rewrite Nat2Z.inj_succ, Z.pow_succ_r by lia.
      rewrite Z.div_div by lia. f_equal. lia.
    + rewrite IH. apply Z.div_pos; lia.
Qed.

Lemma shr_iter_exact k m :
  0 <= m -> m mod 2 ^ Z.of_nat k = 0 ->
  Nat.iter k shr_1 (Build_shr_record m false false)
    = Build_shr_record (m / 2 ^ Z.of_nat k) false false.
Proof.
  intros Hm. induction k as [|k IH]; intros Hmod.
  - simpl. by rewrite Z.div_1_r.
  - rewrite Nat.iter_succ.
    rewrite Nat2Z.inj_succ, Z.pow_succ_r in * by lia.
    assert (0 < 2 ^ Z.of_nat k) by lia.
    apply Z.mod_divide in Hmod as [q Hq]; [|lia].
    rewrite IH.
    2: { apply Z.mod_divide; [lia|]. exists (2 * q). lia. }
    replace (m / 2 ^ Z.of_nat k) with (2 * q)
      by (apply Z.div_unique with 0; lia).
    replace (m / (2 * 2 ^ Z.of_nat k)) with q
      by (apply Z.div_unique with 0; lia).
    assert (0 <= q) by nia.
    destruct q as [|q|q]; [done|done|lia].
Qed.

Lemma shr_spec m e n :
  0 <= m -> 0 <= n ->
  let '(mrs, e') := shr (Build_shr_record m false false) e n in
  e' = e + n
  /\ shr_m mrs = m / 2 ^ n
  /\ (m mod 2 ^ n = 0 -> mrs = Build_shr_record (m / 2 ^ n) false false).
Proof.
  intros Hm Hn. unfold shr. destruct n as [|p|p]; [|..|lia].
  - rewrite Z.add_0_r, Z.div_1_r. done.
  - rewrite iter_pos_nat. split; [done|]. split.
    + rewrite shr_iter_m by done. simpl shr_m. by rewrite positive_nat_Z.
    + intros Hmod. rewrite shr_iter_exact; rewrite ?positive_nat_Z; done.
Qed.

Lemma round_nearest_even_bounds m l :
  m <= round_nearest_even m l <= m + 1.
Proof.
  destruct l as [|[]]; simpl; try lia. destruct (Z.even m); lia.
Qed.

Lemma div_pow2_bounds M D n :
  0 <= n -> n = D - 53 ->
  2 ^ (D - 1) <= M < 2 ^ D ->
  2 ^ 52 <= M / 2 ^ n < 2 ^ 53.
Proof.
  intros Hn -> [Hlo Hhi].
  assert (0 < 2 ^ (D - 53)) by (apply Z.pow_pos_nonneg; lia).
  assert (2 ^ (D - 1) = 2 ^ 52 * 2 ^ (D - 53)) as Hlo'
    by (rewrite <- Z.pow_add_r by lia; f_equal; lia).
  assert (2 ^ D = 2 ^ 53 * 2 ^ (D - 53)) as Hhi'
    by (rewrite <- Z.pow_add_r by lia; f_equal; lia).
  rewrite Hlo' in Hlo. rewrite Hhi' in Hhi.
  split.
  - apply Z.div_le_lower_bound; lia.
  - apply Z.div_lt_upper_bound; lia.
Qed.

Lemma binary_round_aux_finite (M : positive) (e : Z) :
  let D := Zpos (digits2_pos M) in
  let n := D - 53 in
  53 <= D -> -1074 <= e + n ->
  exists m2 e2,
    binary_round_aux 53 1024 false (Zpos M) e loc_Exact =
      (if e2 <=? 971 then S754_finite false m2 e2 else S754_infinity false)
    /\ 2 ^ 52 <= Zpos m2 < 2 ^ 53
    /\ ((e2 = e + n /\ Zpos M / 2 ^ n <= Zpos m2 <= Zpos M / 2 ^ n + 1)
        \/ (e2 = e + n + 1 /\ Zpos m2 = 2 ^ 52
            /\ Zpos M / 2 ^ n = 2 ^ 53 - 1))
    /\ (Zpos M mod 2 ^ n = 0 -> e2 = e + n /\ Zpos m2 = Zpos M / 2 ^ n).
Proof.
  intros D n HD He.
  unfold binary_round_aux, shr_fexp. cbn [Zdigits2]. fold D.
  assert (fexp 53 1024 (D + e) - e = n) as -> by (unfold fexp, emin; lia).
  change (shr_record_of_loc (Zpos M) loc_Exact)
    with (Build_shr_record (Zpos M) false false).
  pose proof (shr_spec (Zpos M) e n ltac:(lia) ltac:(lia)) as Hshr.
  destruct (shr _ e n) as [mrs e1]. destruct Hshr as (-> & Hm & Hexact).
  pose proof (div_pow2_bounds (Zpos M) D n ltac:(lia) eq_refl
                (digits2_bounds M)) as Hb.
  rewrite <- Hm in Hb.
  pose proof (round_nearest_even_bounds (shr_m mrs) (loc_of_shr_record mrs))
    as Hr.
  set (mr := round_nearest_even _ _) in *.
  destruct (Z.eq_dec mr (2 ^ 53)) as [Hcarry|Hno].
  - rewrite Hcarry.
    assert (fexp 53 1024 (Zdigits2 (2 ^ 53) + (e + n)) - (e + n) = 1) as ->.
    { change (Zdigits2 (2 ^ 53)) with 54. unfold fexp, emin. lia. }
    exists (2 ^ 52)%positive, (e + n + 1). split; [done|].
    split; [done|]. split.
    + right. split; [done|]. split; [done|]. lia.
    + intros Hmod. specialize (Hexact Hmod). subst mrs.
      cbn [shr_m loc_of_shr_record round_nearest_even] in *. subst mr. lia.
  - destruct mr as [|q|q] eqn:Hq; [lia| |lia].
    assert (Zpos (digits2_pos q) = 53) as Hd.
    { apply digits2_unique. lia. }
    cbn [Zdigits2]. rewrite Hd.
    assert (fexp 53 1024 (53 + (e + n)) - (e + n) = 0) as ->
      by (unfold fexp, emin; lia).
    cbn [shr shr_record_of_loc shr_m].
    exists q, (e + n). split; [done|]. split; [lia|]. split.
    + left. split; [done|]. lia.
    + intros Hmod. specialize (Hexact Hmod). subst mrs.
      cbn [shr_m loc_of_shr_record round_nearest_even] in *. split; [done|].
      subst mr. lia.
Qed.

Lemma pos_iter_xO m d : Zpos (Pos.iter xO m d) = Zpos m * 2 ^ Zpos d.
Proof.
  rewrite Pos2Nat.inj_iter. rewrite <- (positive_nat_Z d).
  induction (Pos.to_nat d) as [|k IH].
  - simpl. lia.
  - cbn [nat_rect].
    rewrite Pos2Z.inj_xO, IH, Nat2Z.inj_succ, Z.pow_succ_r by lia. lia.
Qed.

Lemma shl_align_down m e e' :
  e' <= e ->
  let '(m', e1) := shl_align m e e' in
  e1 = e' /\ Zpos m' = Zpos m * 2 ^ (e - e').
Proof.
  intros He. unfold shl_align.
  destruct (e' - e) as [|d|d] eqn:Hd; [|lia|].
  - assert (e = e') as -> by lia. rewrite Z.sub_diag. simpl. lia.
  - rewrite pos_iter_xO. replace (e - e') with (Zpos d) by lia. done.
Qed.

Lemma shl_align_up m e e' : e <= e' -> shl_align m e e' = (m, e).
Proof.
  intros He. unfold shl_align. destruct (e' - e) as [|d|d] eqn:Hd; [done|done|lia].
Qed.


Lemma pow52 : Zpos 4503599627370496 = 2 ^ 52.
Proof. done. Qed.

(** Rounding a power of two. *)
Lemma of_Z_exp2 a :
  0 <= a ->
  Float.of_Z (2 ^ a) = if a <=? 1023 then exp2 a else S754_infinity false.
Proof.
  intros Ha. unfold Float.of_Z, Float.prec, Float.emax, binary_normalize.
  assert (0 < 2 ^ a) as Hpos by (apply Z.pow_pos_nonneg; lia).
  destruct (2 ^ a) as [|p|p] eqn:Hp; [lia| |lia].
  unfold binary_round.
  assert (Zpos (digits2_pos p) = a + 1) as Hd.
  { apply digits2_unique. rewrite <- Hp. replace (a + 1 - 1) with a by lia.
    rewrite Z.pow_add_r by lia. lia. }
  rewrite Hd, Z.add_0_r.
  assert (fexp 53 1024 (a + 1) = a - 52) as -> by (unfold fexp, emin; lia).
  destruct (Z.le_gt_cases 52 a) as [Hbig|Hsmall].
  - rewrite shl_align_up by lia.
    destruct (binary_round_aux_finite p 0) as (m2 & e2 & -> & Hm2 & _ & Hex);
      [lia..|].
    rewrite Hd in Hex. replace (a + 1 - 53) with (a - 52) in Hex by lia.
    assert (2 ^ a = 2 ^ 52 * 2 ^ (a - 52)) as Hsplit
      by (rewrite <- Z.pow_add_r by lia; f_equal; lia).
    assert (0 < 2 ^ (a - 52)) by (apply Z.pow_pos_nonneg; lia).
    destruct Hex as [-> Hm].
    { rewrite <- Hp, Hsplit. apply Z.mod_divide; [lia|]. by exists (2 ^ 52). }
    rewrite <- Hp, Hsplit, Z.div_mul in Hm by lia.
    assert (m2 = 4503599627370496%positive) as -> by (rewrite <- pow52 in Hm; lia).
    replace (0 + (a - 52)) with (a - 52) by lia.
    destruct (Z.leb_spec a 1023), (Z.leb_spec (a - 52) 971); done || lia.
  - pose proof (shl_align_down p 0 (a - 52) ltac:(lia)) as Hsh.
    destruct (shl_align p 0 (a - 52)) as [mz ez]. destruct Hsh as [-> Hmz].
    rewrite <- Hp in Hmz. rewrite <- Z.pow_add_r in Hmz by lia.
    replace (a + (0 - (a - 52))) with 52 in Hmz by lia.
    assert (mz = 4503599627370496%positive) as -> by (rewrite <- pow52 in Hmz; lia).
    destruct (binary_round_aux_finite 4503599627370496 (a - 52))
      as (m2 & e2 & -> & Hm2 & _ & Hex); [done|simpl; lia|].
    destruct Hex as [-> Hm]; [done|].
    change (Zpos (digits2_pos 4503599627370496) - 53) with 0 in *.
    rewrite Z.div_1_r in Hm.
    assert (m2 = 4503599627370496%positive) as -> by lia.
    rewrite Z.add_0_r.
    destruct (Z.leb_spec a 1023), (Z.leb_spec (a - 52) 971); done || lia.
Qed.

Lemma of_int_exp2 a :
  0 <= a <= 1023 -> Float.of_int (2 ^ a) = Some (exp2 a).
Proof.
  intros [H0 H1]. unfold Float.of_int. rewrite of_Z_exp2 by done.
  by destruct (Z.leb_spec a 1023); [|lia].
Qed.

Lemma of_int_overflow a : 1024 <= a -> Float.of_int (2 ^ a) = None.
Proof.
  intros Ha. unfold Float.of_int. rewrite of_Z_exp2 by lia.
  by destruct (Z.leb_spec a 1023); [lia|].
Qed.


Lemma unit_interval_cases j :
  unit_interval j ->
  (exists s, j = S754_zero s)
  \/ exists m e, j = S754_finite false m e
       /\ -1074 <= e <= -52 /\ Zpos m <= 2 ^ (- e).
Proof.
  unfold unit_interval, Float.leb, Float.zero, Float.one, Float.prec,
    Float.emax.
  intros (Hvalid & H0 & H1).
  destruct j as [s|s| |s m e]; [by left; eexists|by destruct s|done|].
  right. destruct s; [done|]. exists m, e. split; [done|].
  unfold valid_binary, bounded, canonical_mantissa in Hvalid.
  apply andb_prop in Hvalid as [Hcan _]. apply Z.eqb_eq in Hcan.
  unfold fexp, emin in Hcan.
  pose proof (digits2_bounds m) as [_ Hhi].
  unfold SFleb, SFcompare in H1.
  destruct (Z.compare_spec e (-52)) as [He|He|He]; [| |done].
  - subst e. split; [lia|].
    assert (2 ^ (- (-52)) = Zpos 4503599627370496) as ->
      by (vm_compute; reflexivity).
    rewrite Pos.compare_cont_spec in H1.
    destruct (Pos.compare_spec m 4503599627370496) as [Hm|Hm|Hm].
    + rewrite Hm. apply Z.le_refl.
    + apply Z.lt_le_incl. exact Hm.
    + done.
  - split; [lia|].
    assert (2 ^ Zpos (digits2_pos m) <= 2 ^ (- e))
      by (apply Z.pow_le_mono_r; lia).
    lia.
Qed.

Lemma add_exp2 a j :
  0 <= a <= 1023 -> unit_interval j ->
  exists m2 e2,
    Float.add (exp2 a) j = S754_finite false m2 e2
    /\ 2 ^ 52 <= Zpos m2 < 2 ^ 53
    /\ ((e2 = a - 52 /\ (a <= 52 -> Zpos m2 <= 2 ^ 52 + 2 ^ (52 - a)))
        \/ (a = 0 /\ e2 = -51 /\ Zpos m2 = 2 ^ 52)).
Proof.
  intros Ha Hj.
  destruct (unit_interval_cases j Hj) as [[s ->]|(m & e & -> & He & Hm)].
  { exists 4503599627370496%positive, (a - 52). split; [done|].
    rewrite pow52. split; [lia|]. left. split; [done|]. intros _.
    assert (0 <= 2 ^ (52 - a)) by (apply Z.pow_nonneg; lia). lia. }
  unfold Float.add, Float.prec, Float.emax, SFadd, exp2. cbn [cond_Zopp].
  rewrite Z.min_r by lia.
  set (d := a - 52 - e).
  pose proof (shl_align_down 4503599627370496 (a - 52) e ltac:(lia)) as Hx.
  destruct (shl_align 4503599627370496 (a - 52) e) as [mx ex].
  destruct Hx as [-> Hmx].
  rewrite (shl_align_up m e e) by lia. cbn [fst].
  rewrite pow52 in Hmx. fold d in Hmx.
  change (Zpos mx + Zpos m) with (Zpos (mx + m)).
  cbn [binary_normalize]. unfold binary_round.
  set (M := (mx + m)%positive).
  set (Pd := 2 ^ d) in *.
  assert (0 < Pd) as HPd by (apply Z.pow_pos_nonneg; lia).
  assert (Zpos M = 2 ^ 52 * Pd + Zpos m) as HM by (subst M; lia).
  set (q := Zpos m / Pd).
  assert (Pd * q <= Zpos m < Pd * (q + 1)) as Hq.
  { split; [apply Z.mul_div_le; lia|].
    replace (q + 1) with (Z.succ q) by lia. apply Z.mul_succ_div_gt. lia. }
  assert (Zpos M / Pd = 2 ^ 52 + q) as Hdiv.
  { rewrite HM, Z.div_add_l by lia. done. }
  set (K := 2 ^ (52 - a)).
  assert (0 <= K) as HK0 by (apply Z.pow_nonneg; lia).
  assert (K <= 2 ^ 52) as HK52.
  { destruct (Z.le_gt_cases 0 (52 - a)).
    - apply Z.pow_le_mono_r; lia.
    - subst K. rewrite Z.pow_neg_r by lia. lia. }
  assert (1 <= a -> K <= 2 ^ 51) as HK51.
  { intros. destruct (Z.le_gt_cases 0 (52 - a)).
    - apply Z.pow_le_mono_r; lia.
    - subst K. rewrite Z.pow_neg_r by lia. lia. }
  assert (q <= K /\ (a <= 52 -> q = K -> Zpos m = K * Pd)) as [HqK Hexact].
  { destruct (Z.le_gt_cases a 52) as [Hsmall|Hbig].
    - assert (2 ^ (- e) = K * Pd) as Heq.
      { subst K Pd. rewrite <- Z.pow_add_r by lia. f_equal. lia. }
      rewrite Heq in Hm. split; [nia|]. intros _ ->. nia.
    - assert (2 ^ (- e) * 2 ^ (a - 52) = Pd) as Heq.
      { subst Pd. rewrite <- Z.pow_add_r by lia. f_equal. lia. }
      assert (2 ^ 1 <= 2 ^ (a - 52)) by (apply Z.pow_le_mono_r; lia).
      assert (q = 0); [|split; [lia|lia]].
      apply Z.div_small. split; [lia|]. nia. }
  assert (2 ^ (52 + d) = 2 ^ 52 * Pd) as Hp52
    by (subst Pd; apply Z.pow_add_r; lia).
  assert (2 ^ (53 + d) = 2 ^ 53 * Pd) as Hp53
    by (subst Pd; apply Z.pow_add_r; lia).
  destruct (Z.eq_dec (Zpos M) (2 ^ 53 * Pd)) as [Hfull|Hpart].
  - (* the sum is the next power of two *)
    assert (a = 0) as -> by (destruct (Z.eq_dec a 0); [done|]; specialize (HK51 ltac:(lia)); nia).
    assert (Zpos (digits2_pos M) = 54 + d) as HD.
    { apply digits2_unique. replace (54 + d - 1) with (53 + d) by lia.
      replace (54 + d) with (1 + (53 + d)) by lia.
      rewrite (Z.pow_add_r 2 1), Hp53 by lia. lia. }
    rewrite HD.
    assert (fexp 53 1024 (54 + d + e) = e + (d + 1)) as ->
      by (unfold fexp, emin; lia).
    rewrite shl_align_up by lia.
    destruct (binary_round_aux_finite M e) as (m2 & e2 & -> & Hm2 & _ & Hex);
      [lia..|].
    rewrite HD in Hex. replace (54 + d - 53) with (d + 1) in Hex by lia.
    assert (2 ^ (d + 1) = 2 * Pd) as Hp1
      by (subst Pd; rewrite Z.pow_add_r by lia; lia).
    rewrite Hp1 in Hex.
    destruct Hex as [-> Hm2'].
    { rewrite Hfull. apply Z.mod_divide; [lia|]. exists (2 ^ 52). lia. }
    rewrite Hfull in Hm2'.
    replace (2 ^ 53 * Pd) with (2 ^ 52 * (2 * Pd)) in Hm2' by lia.
    rewrite Z.div_mul in Hm2' by lia.
    exists m2, (e + (d + 1)).
    destruct (Z.leb_spec (e + (d + 1)) 971); [|lia].
    split; [done|]. split; [done|]. right. split; [done|]. split; [lia|done].
  - assert (Zpos (digits2_pos M) = 53 + d) as HD.
    { apply digits2_unique. replace (53 + d - 1) with (52 + d) by lia.
      rewrite Hp52, Hp53. nia. }
    rewrite HD.
    assert (fexp 53 1024 (53 + d + e) = e + d) as ->
      by (unfold fexp, emin; lia).
    rewrite shl_align_up by lia.
    destruct (binary_round_aux_finite M e)
      as (m2 & e2 & -> & Hm2 & Hround & Hex); [lia..|].
    rewrite HD in Hround, Hex.
    replace (53 + d - 53) with d in Hround, Hex by lia.
    fold Pd in Hround, Hex. rewrite Hdiv in Hround, Hex.
    exists m2, e2.
    destruct Hround as [[-> Hr]|(-> & Hm52 & Hr)].
    + destruct (Z.leb_spec (e + d) 971); [|lia].
      split; [done|]. split; [done|]. left. split; [lia|].
      intros Hsmall. destruct (Z.eq_dec q K) as [HqeqK|Hne]; [|lia].
      destruct Hex as [_ ->]; [|lia].
      rewrite HM, (Hexact Hsmall HqeqK).
      apply Z.mod_divide; [lia|]. exists (2 ^ 52 + K). lia.
    + assert (a = 0) as -> by (destruct (Z.eq_dec a 0); [done|]; specialize (HK51 ltac:(lia)); lia).
      destruct (Z.leb_spec (e + d + 1) 971); [|lia].
      split; [done|]. split; [done|]. right. split; [done|]. split; [lia|done].
Qed.


Lemma compare_finite m1 e1 m2 e2 :
  SFcompare (S754_finite false m1 e1) (S754_finite false m2 e2)
    = Some match e1 ?= e2 with
           | Lt => Lt
           | Gt => Gt
           | Eq => (m1 ?= m2)%positive
           end.
Proof.
  unfold SFcompare. rewrite Pos.compare_cont_spec.
  destruct (e1 ?= e2); [|done..]. by destruct (m1 ?= m2)%positive.
Qed.

Lemma leb_finite m1 e1 m2 e2 :
  e1 < e2 \/ (e1 = e2 /\ Zpos m1 <= Zpos m2) ->
  SFleb (S754_finite false m1 e1) (S754_finite false m2 e2) = true.
Proof.
  intros H. unfold SFleb. rewrite compare_finite.
  destruct (Z.compare_spec e1 e2); [|done|lia].
  destruct (Pos.compare_spec m1 m2); [done|done|lia].
Qed.

Lemma ltb_finite m1 e1 m2 e2 :
  e1 < e2 \/ (e1 = e2 /\ Zpos m1 < Zpos m2) ->
  SFltb (S754_finite false m1 e1) (S754_finite false m2 e2) = true.
Proof.
  intros H. unfold SFltb. rewrite compare_finite.
  destruct (Z.compare_spec e1 e2); [|done|lia].
  destruct (Pos.compare_spec m1 m2); [lia|done|lia].
Qed.

Lemma ltb_finite_false m1 e1 m2 e2 :
  e2 < e1 \/ (e1 = e2 /\ Zpos m2 <= Zpos m1) ->
  SFltb (S754_finite false m1 e1) (S754_finite false m2 e2) = false.
Proof.
  intros H. unfold SFltb. rewrite compare_finite.
  destruct (Z.compare_spec e1 e2); [|lia|done].
  destruct (Pos.compare_spec m1 m2); [done|lia|done].
Qed.

Lemma sixty_mantissa : Zpos 8444249301319680 = 60 * 2 ^ 47.
Proof. done. Qed.

(** The delay [min(2^a + j, 60)] of an attempt. *)
Lemma backoff_bounds a j :
  0 <= a <= 1023 -> unit_interval j ->
  let sum := Float.add (exp2 a) j in
  let delay := Float.min sum Float.sixty in
  valid_binary Float.prec Float.emax sum = true
  /\ Float.leb (exp2 a) sum = true
  /\ Float.leb delay Float.sixty = true
  /\ Float.leb (Float.min (exp2 a) Float.sixty) delay = true
  /\ (a <= 5 -> delay = sum).
Proof.
  intros Ha Hj sum delay. subst sum delay.
  destruct (add_exp2 a j Ha Hj) as (m2 & e2 & -> & Hm2 & He2).
  assert (valid_binary Float.prec Float.emax (S754_finite false m2 e2) = true)
    as Hvalid.
  { unfold Float.prec, Float.emax, valid_binary, bounded, canonical_mantissa.
    rewrite (digits2_unique m2 53) by lia.
    apply andb_true_intro. split.
    - apply Z.eqb_eq. unfold fexp, emin. lia.
    - apply Z.leb_le. lia. }
  assert (Float.leb (exp2 a) (S754_finite false m2 e2) = true) as Hlow.
  { unfold Float.leb, exp2. apply leb_finite. rewrite pow52. lia. }
  split; [done|]. split; [done|].
  unfold Float.min, Float.leb, Float.ltb, Float.sixty, exp2 in *.
  destruct (Z.le_gt_cases a 5) as [Hsmall|Hbig].
  - assert (2 ^ (52 - a) * 2 ^ a = 2 ^ 52) as Hsplit
      by (rewrite <- Z.pow_add_r by lia; f_equal; lia).
    assert (1 <= 2 ^ a <= 2 ^ 5) as Hpa.
    { split; [|apply Z.pow_le_mono_r; lia].
      change 1 with (2 ^ 0). apply Z.pow_le_mono_r; lia. }
    assert (a = 5 -> 2 ^ (52 - a) = 2 ^ 47) as H5
      by (intros ->; reflexivity).
    rewrite (ltb_finite_false _ _ m2 e2) by (rewrite sixty_mantissa; lia).
    rewrite (ltb_finite_false _ _ _ (a - 52))
      by (rewrite sixty_mantissa, pow52; lia).
    split; [|done]. apply leb_finite. rewrite sixty_mantissa. lia.
  - rewrite (ltb_finite _ _ m2 e2), (ltb_finite _ _ _ (a - 52)) by lia.
    split; [done|]. split; [done|lia].
Qed.

(** Below the cap the sum is at most the float [2^a + 1]. *)
Lemma backoff_upper a j :
  0 <= a <= 3 -> unit_interval j ->
  Float.leb (Float.add (exp2 a) j) (Float.of_Z (2 ^ a + 1)) = true.
Proof.
  intros Ha Hj.
  destruct (add_exp2 a j ltac:(lia) Hj) as (m2 & e2 & -> & Hm2 & He2).
  unfold Float.leb.
  assert (a = 0 \/ a = 1 \/ a = 2 \/ a = 3) as [->|[->|[->| ->]]] by lia.
  - assert (Float.of_Z (2 ^ 0 + 1) = S754_finite false 4503599627370496 (-51))
      as -> by (vm_compute; reflexivity).
    apply leb_finite. rewrite pow52.
    destruct He2 as [[-> _]|(_ & -> & ->)]; [by left|by right].
  - assert (Float.of_Z (2 ^ 1 + 1) = S754_finite false 6755399441055744 (-51))
      as -> by (vm_compute; reflexivity).
    apply leb_finite.
    assert (Zpos 6755399441055744 = 2 ^ 52 + 2 ^ (52 - 1)) as -> by done.
    destruct He2 as [[-> Hle]|(? & _)]; [|done].
    right. split; [done|]. by apply Hle.
  - assert (Float.of_Z (2 ^ 2 + 1) = S754_finite false 5629499534213120 (-50))
      as -> by (vm_compute; reflexivity).
    apply leb_finite.
    assert (Zpos 5629499534213120 = 2 ^ 52 + 2 ^ (52 - 2)) as -> by done.
    destruct He2 as [[-> Hle]|(? & _)]; [|done].
    right. split; [done|]. by apply Hle.
  - assert (Float.of_Z (2 ^ 3 + 1) = S754_finite false 5066549580791808 (-49))
      as -> by (vm_compute; reflexivity).
    apply leb_finite.
    assert (Zpos 5066549580791808 = 2 ^ 52 + 2 ^ (52 - 3)) as -> by done.
    destruct He2 as [[-> Hle]|(? & _)]; [|done].
    right. split; [done|]. by apply Hle.
Qed.

End FloatFacts.

(** * Properties *)

Open Scope nat_scope.
Open Scope list_scope.

Section Properties.

Context {svc : Type} (P : platform svc).

Implicit Types (w : world svc) (r : request) (evs : list event).

(** ** Logs *)

Lemma calls_app evs1 evs2 : calls (evs1 ++ evs2) = calls evs1 + calls evs2.
Proof. unfold calls. by rewrite List.filter_app, length_app. Qed.

Lemma sleeps_app evs1 evs2 : sleeps (evs1 ++ evs2) = sleeps evs1 ++ sleeps evs2.
Proof.
  induction evs1 as [|ev evs1 IH]; [done|].
  destruct ev; simpl; by rewrite ?IH.
Qed.

Lemma reads_app evs1 evs2 : reads (evs1 ++ evs2) = reads evs1 ++ reads evs2.
Proof.
  induction evs1 as [|ev evs1 IH]; [done|].
  destruct ev; simpl; by rewrite ?IH.
Qed.

Lemma printed_app evs1 evs2 :
  printed (evs1 ++ evs2) = printed evs1 ++ printed evs2.
Proof.
  induction evs1 as [|ev evs1 IH]; [done|].
  destruct ev; simpl; by rewrite ?IH.
Qed.

Lemma submitted_app evs1 evs2 :
  submitted (evs1 ++ evs2) = submitted evs1 ++ submitted evs2.
Proof.
  induction evs1 as [|ev evs1 IH]; [done|].
  destruct ev; simpl; by rewrite ?IH.
Qed.

(** ** Retry Policy *)

(** One round trip: the call is logged, the service moves on. *)
Lemma chat_completions_create_eq r w :
  chat_completions_create P r w =
    (answer P r (w_svc w),
     World (w_fs w) (create P (w_svc w) r).2 (w_draws w)
       (w_log w ++ [EvCreate r])).
Proof.
  unfold chat_completions_create, answer, bind, emit; simpl.
  by destruct (create P (w_svc w) r) as [[e|m] s'].
Qed.

(** The delay of an attempt within the range of a float, and the failure
    of one beyond it; the jitter is drawn either way. *)
Lemma exponential_backoff_eq attempt max_delay w :
  (0 <= attempt <= 1023)%Z →
  exponential_backoff P attempt max_delay w =
    (Ret (backoff_delay attempt (uniform P (w_draws w)) max_delay),
     World (w_fs w) (w_svc w) (S (w_draws w)) (w_log w)).
Proof.
  intros Ha. unfold exponential_backoff, bind, random_uniform.
  unfold Py.power_of_two. rewrite (proj2 (Z.leb_le 0 attempt)) by lia.
  cbn [Py.add_float]. by rewrite of_int_exp2.
Qed.

Lemma exponential_backoff_overflow attempt max_delay w :
  (1024 <= attempt)%Z →
  exponential_backoff P attempt max_delay w =
    (Raise (OverflowError "int too large to convert to float"),
     World (w_fs w) (w_svc w) (S (w_draws w)) (w_log w)).
Proof.
  intros Ha. unfold exponential_backoff, bind, random_uniform.
  unfold Py.power_of_two. rewrite (proj2 (Z.leb_le 0 attempt)) by lia.
  cbn [Py.add_float]. by rewrite of_int_overflow.
Qed.

(** One attempt of the policy around a call of the decision service. *)
Lemma retry_attempts_cons r attempt rest w :
  attempt ≤ 1023 →
  retry_attempts P (chat_completions_create P r) (attempt :: rest) w =
    let s' := (create P (w_svc w) r).2 in
    match (create P (w_svc w) r).1 with
    | inr m =>
        (Ret (Some m),
         World (w_fs w) s' (w_draws w) (w_log w ++ [EvCreate r]))
    | inl e =>
        if is_OpenAIError e && negb (attempt =? max_retries - 1)%nat then
          let d := backoff_delay (Z.of_nat attempt) (uniform P (w_draws w))
                     default_max_delay in
          retry_attempts P (chat_completions_create P r) rest
            (World (w_fs w) s' (S (w_draws w))
               (w_log w ++ [EvCreate r; EvPrint (retry_line P d); EvSleep d]))
        else
          (Raise e, World (w_fs w) s' (w_draws w) (w_log w ++ [EvCreate r]))
    end.
Proof.
  intros Hrange. cbn [retry_attempts].
  unfold try_except at 1. unfold bind at 1.
  rewrite chat_completions_create_eq. unfold answer.
  destruct (create P (w_svc w) r) as [[e|m] s']; simpl; [|done].
  destruct (is_OpenAIError e); simpl; [|done].
  change (max_retries - 1)%nat with 4%nat.
  destruct (attempt =? 4)%nat; simpl; [done|].
  unfold bind at 1. rewrite exponential_backoff_eq by lia.
  unfold bind, print, time_sleep, emit, ret; simpl.
  unfold retry_line. by rewrite <- !app_assoc.
Qed.

Lemma retry_attempts_nil {A} (func : M A) w :
  retry_attempts P func [] w = (Ret None, w).
Proof. done. Qed.

(** A service that fails every call with an [OpenAIError] exhausts the
    attempts that are left. *)
Lemma retry_exhausts r :
  (∀ s, ∃ e, (create P s r).1 = inl e ∧ is_OpenAIError e = true) →
  ∀ n a w, a + S n = max_retries →
  ∃ evs e,
    retry_attempts P (chat_completions_create P r) (seq a (S n)) w =
      (Raise e,
       World (w_fs w) (svc_after P r (S n) (w_svc w)) (w_draws w + n)
         (w_log w ++ evs))
    ∧ (create P (svc_after P r n (w_svc w)) r).1 = inl e
    ∧ calls evs = S n
    ∧ length (sleeps evs) = n
    ∧ last evs = Some (EvCreate r).
Proof.
  intros Hfail n. induction n as [|n IH]; intros a w Ha.
  - destruct (Hfail (w_svc w)) as (e & He & Hcls).
    exists [EvCreate r], e.
    change (seq a 1) with [a].
    rewrite retry_attempts_cons, He, Hcls by (unfold max_retries in Ha; lia).
    assert (a = 4) as -> by (unfold max_retries in Ha; lia).
    simpl. rewrite Nat.add_0_r. done.
  - destruct (Hfail (w_svc w)) as (e & He & Hcls).
    change (seq a (S (S n))) with (a :: seq (S a) (S n)).
    rewrite retry_attempts_cons, He, Hcls by (unfold max_retries in Ha; lia).
    assert ((a =? max_retries - 1)%nat = false) as ->
      by (apply Nat.eqb_neq; unfold max_retries in *; lia).
    cbn [andb negb].
    set (d := backoff_delay _ _ _).
    set (w1 := World _ _ _ _).
    destruct (IH (S a) w1) as (evs & e' & Hrun & He' & Hcalls & Hsleeps & Hlast);
      [unfold max_retries in *; lia|].
    exists ([EvCreate r; EvPrint (retry_line P d); EvSleep d] ++ evs), e'.
    cbv zeta. rewrite Hrun. cbn [w_fs w_svc w_draws w_log].
    split_and!.
    + subst w1. cbn [w_fs w_svc w_draws w_log].
      f_equal. f_equal; first [lia | by rewrite <- app_assoc].
    + done.
    + rewrite calls_app, Hcalls. done.
    + rewrite sleeps_app, length_app, Hsleeps. done.
    + rewrite last_app, Hlast. done.
Qed.

(** The delays of one policy run are the backoff delays of the attempts
    0, 1, 2, ... in this order, each with the next random draw. *)
Lemma retry_sleeps r n a w :
  a + n ≤ 1024 →
  ∃ evs,
    w_log (retry_attempts P (chat_completions_create P r) (seq a n) w).2
      = w_log w ++ evs
    ∧ sleeps evs =
        (λ i, backoff_delay (Z.of_nat (a + i)) (uniform P (w_draws w + i))
                default_max_delay)
        <$> seq 0 (length (sleeps evs)).
Proof.
  revert a w. induction n as [|n IH]; intros a w Hrange.
  - exists []. simpl. by rewrite app_nil_r.
  - change (seq a (S n)) with (a :: seq (S a) n).
    rewrite retry_attempts_cons by lia. cbv zeta.
    destruct ((create P (w_svc w) r).1) as [e|m].
    2: { by exists [EvCreate r]. }
    destruct (is_OpenAIError e && negb (a =? max_retries - 1)%nat).
    2: { by exists [EvCreate r]. }
    set (d := backoff_delay _ _ _).
    set (w1 := World _ _ _ _).
    destruct (IH (S a) w1) as (evs & Hlog & Hsl); [lia|].
    exists ([EvCreate r; EvPrint (retry_line P d); EvSleep d] ++ evs).
    split.
    + rewrite Hlog. subst w1. simpl. by rewrite <- app_assoc.
    + rewrite sleeps_app. cbn [sleeps app length seq fmap list_fmap].
      f_equal.
      * subst d. by rewrite !Nat.add_0_r.
      * rewrite Hsl at 1. rewrite <- seq_shift, <- list_fmap_compose.
        apply list_fmap_ext. intros _ i _. subst w1. simpl.
        do 2 f_equal; [f_equal|]; lia.
Qed.



(** One wrapped call: between one and five calls, one sleep less. *)
Lemma requests_app evs1 evs2 :
  requests (evs1 ++ evs2) = requests evs1 ++ requests evs2.
Proof.
  induction evs1 as [|ev evs1 IH]; [done|].
  destruct ev; simpl; by rewrite ?IH.
Qed.

Lemma retry_bounded r n :
  ∀ a w, a + S n = max_retries →
    let run := retry_attempts P (chat_completions_create P r) (seq a (S n)) w in
    ∃ evs,
      w_log run.2 = w_log w ++ evs
      ∧ 1 ≤ calls evs ∧ calls evs ≤ S n
      ∧ length (sleeps evs) = calls evs - 1
      ∧ w_draws run.2 = w_draws w + length (sleeps evs)
      ∧ requests evs = replicate (calls evs) r
      ∧ run.1 ≠ Ret None.
Proof.
  induction n as [|n IH]; intros a w Ha; cbv zeta.
  - change (seq a 1) with [a].
    assert (a = 4) as -> by (unfold max_retries in Ha; lia).
    rewrite retry_attempts_cons by lia. cbv zeta.
    exists [EvCreate r].
    destruct ((create P (w_svc w) r).1) as [e|m]; [rewrite andb_false_r|];
      cbn [fst snd w_log w_draws]; split_and!; try done; unfold calls;
      simpl; lia.
  - change (seq a (S (S n))) with (a :: seq (S a) (S n)).
    rewrite retry_attempts_cons by (unfold max_retries in Ha; lia). cbv zeta.
    destruct ((create P (w_svc w) r).1) as [e|m].
    2: { exists [EvCreate r]. cbn [fst snd w_log w_draws].
         split_and!; try done; unfold calls; simpl; lia. }
    destruct (is_OpenAIError e && negb (a =? max_retries - 1)).
    2: { exists [EvCreate r]. cbn [fst snd w_log w_draws].
         split_and!; try done; unfold calls; simpl; lia. }
    set (d := backoff_delay _ _ _). set (w1 := World _ _ _ _).
    destruct (IH (S a) w1) as (evs & Hlog & H1 & Hn & Hsl & Hdr & Hreq & Hnone);
      [unfold max_retries in *; lia|].
    exists ([EvCreate r; EvPrint (retry_line P d); EvSleep d] ++ evs).
    rewrite Hlog, Hdr. subst w1. cbn [w_log w_draws].
    rewrite calls_app, sleeps_app, requests_app, length_app, Hreq, Hsl.
    change (calls [EvCreate r; EvPrint (retry_line P d); EvSleep d]) with 1.
    cbn [sleeps requests length app].
    split_and!; try done; try lia. by rewrite <- app_assoc.
Qed.

End Properties.

(** ** Frame rules of the effect monad *)

Section Frame.

Context {svc : Type}.

Implicit Types (w : world svc) (T : relation (world svc)).

#[export] Instance quiet_preorder : PreOrder (@quiet svc).
Proof.
  split.
  - intros w. exists []. by rewrite app_nil_r.
  - intros w1 w2 w3 (evs1 & H1 & Q1) (evs2 & H2 & Q2).
    exists (evs1 ++ evs2). rewrite H2, H1, app_assoc.
    split; [done|]. by apply Forall_app.
Qed.

#[export] Instance offline_preorder : PreOrder (@offline svc).
Proof. split; [done|]. intros w1 w2 w3 H1 H2. unfold offline in *. congruence. Qed.

#[export] Instance readonly_preorder : PreOrder (@readonly svc).
Proof. split; [done|]. intros w1 w2 w3 H1 H2. unfold readonly in *. congruence. Qed.

Section Rules.

Context T `{!PreOrder T}.

Lemma respects_ret {A} (a : A) : respects T (ret a).
Proof. intros w. reflexivity. Qed.

Lemma respects_raise {A} e : respects T (@raise svc A e).
Proof. intros w. reflexivity. Qed.

Lemma respects_out_of_fuel {A} : respects T (@out_of_fuel svc A).
Proof. intros w. reflexivity. Qed.

Lemma respects_bind {A B} (m : @M svc A) (k : A → @M svc B) :
  respects T m → (∀ a, respects T (k a)) → respects T (bind m k).
Proof.
  intros Hm Hk w. unfold bind. specialize (Hm w).
  destruct (m w) as [[a|e|] w1]; simpl in *; [|done..].
  etransitivity; [done|]. apply Hk.
Qed.

Lemma respects_try_except {A} (m : @M svc A) catches handler :
  respects T m → (∀ e, respects T (handler e)) →
  respects T (try_except m catches handler).
Proof.
  intros Hm Hh w. unfold try_except. specialize (Hm w).
  destruct (m w) as [[a|e|] w1]; simpl in *; [done| |done].
  destruct (catches e); [|done].
  etransitivity; [done|]. apply Hh.
Qed.

End Rules.

Lemma total_ret {A} (a : A) : total (@ret svc A a).
Proof. by intros w. Qed.

Lemma total_raise {A} e : total (@raise svc A e).
Proof. by intros w. Qed.

Lemma total_bind {A B} (m : @M svc A) (k : A → @M svc B) :
  total m → (∀ a, total (k a)) → total (bind m k).
Proof.
  intros Hm Hk w. unfold bind. specialize (Hm w).
  destruct (m w) as [[a|e|] w1]; simpl in *; [apply Hk|done..].
Qed.

Lemma total_try_except {A} (m : @M svc A) catches handler :
  total m → (∀ e, total (handler e)) → total (try_except m catches handler).
Proof.
  intros Hm Hh w. unfold try_except. specialize (Hm w).
  destruct (m w) as [[a|e|] w1]; simpl in *; [done| |done].
  destruct (catches e); [apply Hh|done].
Qed.

(** The primitive effects. *)

Lemma quiet_emit ev : is_processing ev = false → respects (@quiet svc) (emit ev).
Proof. intros Hev w. exists [ev]. split; [done|]. by constructor. Qed.

Lemma offline_emit ev : respects (@offline svc) (emit ev).
Proof. by intros w. Qed.

Lemma total_emit ev : total (@emit svc ev).
Proof. by intros w. Qed.

Lemma quiet_get_fs : respects (@quiet svc) (@get_fs svc).
Proof. intros w. reflexivity. Qed.
Lemma offline_get_fs : respects (@offline svc) (@get_fs svc).
Proof. by intros w. Qed.
Lemma readonly_get_fs : respects (@readonly svc) (@get_fs svc).
Proof. by intros w. Qed.
Lemma total_get_fs : total (@get_fs svc).
Proof. by intros w. Qed.

Lemma quiet_put_fs t : respects (@quiet svc) (put_fs t).
Proof. intros w. exists []. simpl. by rewrite app_nil_r. Qed.
Lemma offline_put_fs t : respects (@offline svc) (put_fs t).
Proof. by intros w. Qed.
Lemma total_put_fs t : total (@put_fs svc t).
Proof. by intros w. Qed.

Lemma readonly_emit ev : respects (@readonly svc) (emit ev).
Proof. by intros w. Qed.

End Frame.

Create HintDb frame discriminated.

#[export] Hint Resolve respects_ret respects_raise respects_out_of_fuel
  total_ret total_raise quiet_emit offline_emit readonly_emit total_emit
  quiet_get_fs offline_get_fs readonly_get_fs total_get_fs
  quiet_put_fs offline_put_fs total_put_fs : frame.

(** Walk down a monadic term, one construct at a time. *)
Ltac frame_step :=
  match goal with
  | |- respects _ (bind _ _) => apply respects_bind; [tc_solve| |intros ?]
  | |- respects _ (try_except _ _ _) =>
      apply respects_try_except; [tc_solve| |intros ?]
  | |- total (bind _ _) => apply total_bind; [|intros ?]
  | |- total (try_except _ _ _) => apply total_try_except; [|intros ?]
  | |- respects _ (match ?x with _ => _ end) => destruct x
  | |- total (match ?x with _ => _ end) => destruct x
  | |- respects _ (let _ := _ in _) => cbv zeta
  | |- total (let _ := _ in _) => cbv zeta
  | |- respects _ (print _) => unfold print
  | |- total (print _) => unfold print
  | |- respects _ (time_sleep _) => unfold time_sleep
  | |- total (time_sleep _) => unfold time_sleep
  | |- respects _ (lift_os _ _) => unfold lift_os
  | |- total (lift_os _ _) => unfold lift_os
  end.

Ltac frame := repeat first [ solve [eauto with frame] | frame_step ].

#[export] Hint Extern 1 (is_processing _ = false) => reflexivity : frame.

(** ** Frame facts about the program *)

Section Facts.

Context {svc : Type} (P : platform svc).

Implicit Types (w : world svc) (r : request) (evs : list event).

Ltac program :=
  unfold read_file_content, open_read, write_file_content, open_write,
    file_write, os_makedirs, os_listdir, os_path_exists, loads, subscript,
    os_path_join, message_of, exponential_backoff.

Ltac solve_frame := intros; program; frame.

Lemma quiet_random_uniform : respects quiet (random_uniform P).
Proof. intros w. exists []. simpl. by rewrite app_nil_r. Qed.
Lemma readonly_random_uniform : respects readonly (random_uniform P).
Proof. by intros w. Qed.
Lemma total_random_uniform : total (random_uniform P).
Proof. by intros w. Qed.

Lemma quiet_create r : respects quiet (chat_completions_create P r).
Proof.
  intros w. rewrite chat_completions_create_eq. exists [EvCreate r].
  split; [done|]. by constructor.
Qed.
Lemma readonly_create r : respects readonly (chat_completions_create P r).
Proof. intros w. by rewrite chat_completions_create_eq. Qed.
Lemma total_create r : total (chat_completions_create P r).
Proof.
  intros w. rewrite chat_completions_create_eq. unfold answer. simpl.
  by destruct (create P (w_svc w) r).1.
Qed.

Hint Resolve quiet_random_uniform readonly_random_uniform
  total_random_uniform quiet_create readonly_create total_create : frame.

(** File Store. *)

Lemma quiet_read_file_content p : respects quiet (read_file_content P p).
Proof. solve_frame. Qed.
Lemma offline_read_file_content p : respects offline (read_file_content P p).
Proof. solve_frame. Qed.
Lemma readonly_read_file_content p :
  respects readonly (read_file_content P p).
Proof. solve_frame. Qed.
Lemma total_read_file_content p : total (read_file_content P p).
Proof. solve_frame. Qed.

Lemma quiet_write_file_content p c : respects quiet (write_file_content P p c).
Proof. solve_frame. Qed.
Lemma offline_write_file_content p c :
  respects offline (write_file_content P p c).
Proof. solve_frame. Qed.
Lemma total_write_file_content p c : total (write_file_content P p c).
Proof. solve_frame. Qed.

Lemma quiet_os_makedirs p : respects quiet (os_makedirs P p).
Proof. solve_frame. Qed.
Lemma offline_os_makedirs p : respects offline (os_makedirs P p).
Proof. solve_frame. Qed.
Lemma total_os_makedirs p : total (os_makedirs P p).
Proof. solve_frame. Qed.

Hint Resolve quiet_read_file_content offline_read_file_content
  readonly_read_file_content total_read_file_content
  quiet_write_file_content offline_write_file_content
  total_write_file_content quiet_os_makedirs offline_os_makedirs
  total_os_makedirs : frame.

(** The File Store absorbs its failures: both operations return a text. *)
Lemma read_file_content_returns p w :
  ∃ text, (read_file_content P p w).1 = Ret text.
Proof.
  unfold read_file_content, try_except, open_read, bind, emit, get_fs,
    lift_os; simpl.
  destruct (FS.read_text _ _ _); simpl; eauto.
Qed.

Lemma write_file_content_returns p c w :
  ∃ text, (write_file_content P p c w).1 = Ret text.
Proof.
  unfold write_file_content.
  match goal with
  | |- context [try_except ?m _ _] =>
      assert (total m) as Htot by solve_frame; specialize (Htot w);
      unfold try_except; destruct (m w) as [[a|e|] w']; simpl in *; eauto
  end.
  done.
Qed.

(** Agent Loop. *)

Lemma quiet_dispatch a c o tc ms : respects quiet (dispatch P a c o tc ms).
Proof. unfold dispatch. solve_frame. Qed.
Lemma offline_dispatch a c o tc ms : respects offline (dispatch P a c o tc ms).
Proof. unfold dispatch. solve_frame. Qed.
Lemma total_dispatch a c o tc ms : total (dispatch P a c o tc ms).
Proof. unfold dispatch. solve_frame. Qed.

Hint Resolve quiet_dispatch offline_dispatch total_dispatch : frame.

Lemma quiet_dispatch_all a c o tcs ms :
  respects quiet (dispatch_all P a c o tcs ms).
Proof. revert ms. induction tcs; intros ms; simpl; frame. Qed.
Lemma offline_dispatch_all a c o tcs ms :
  respects offline (dispatch_all P a c o tcs ms).
Proof. revert ms. induction tcs; intros ms; simpl; frame. Qed.
Lemma total_dispatch_all a c o tcs ms :
  total (dispatch_all P a c o tcs ms).
Proof. revert ms. induction tcs; intros ms; simpl; frame. Qed.

Lemma quiet_retry_attempts r attempts :
  respects quiet (retry_attempts P (chat_completions_create P r) attempts).
Proof. induction attempts; simpl; solve_frame. Qed.
Lemma total_retry_attempts r attempts :
  total (retry_attempts P (chat_completions_create P r) attempts).
Proof. induction attempts; simpl; solve_frame. Qed.
Lemma readonly_retry_attempts r attempts :
  respects readonly (retry_attempts P (chat_completions_create P r) attempts).
Proof. induction attempts; simpl; solve_frame. Qed.

Hint Resolve quiet_dispatch_all offline_dispatch_all total_dispatch_all
  quiet_retry_attempts total_retry_attempts readonly_retry_attempts : frame.

Lemma quiet_turn a c o model ms : respects quiet (turn P a c o model ms).
Proof. unfold turn, retry_openai_request. solve_frame. Qed.
Lemma total_turn a c o model ms : total (turn P a c o model ms).
Proof. unfold turn, retry_openai_request. solve_frame. Qed.

Hint Resolve quiet_turn total_turn : frame.

Lemma quiet_agent_loop fuel a c o model ms :
  respects quiet (agent_loop P fuel a c o model ms).
Proof. revert ms. induction fuel; intros ms; simpl; frame. Qed.

Hint Resolve quiet_agent_loop : frame.

Lemma quiet_process_artifact fuel a o model :
  respects quiet (process_artifact P fuel a o model).
Proof. unfold process_artifact. solve_frame. Qed.

(** Batch Driver. *)

Lemma quiet_run_process argv d : respects quiet (run_process P argv d).
Proof.
  unfold run_process. apply respects_bind; [tc_solve|frame|].
  intros _ w. exists []. rewrite app_nil_r.
  destruct (subprocess_run P argv d (w_fs w)) as [[e|done] t']; simpl;
    by split.
Qed.

Hint Resolve quiet_run_process quiet_process_artifact : frame.

Lemma quiet_create_git_commit d n c :
  respects quiet (create_git_commit P d n c).
Proof. unfold create_git_commit, run_checked. solve_frame. Qed.

End Facts.

(** ** Dispatch of operation requests *)

Section Returns.

Context {svc : Type}.

Lemma returns_ret {A} (Q : A → Prop) a : Q a → returns Q (@ret svc A a).
Proof. intros Ha w a' w' [= <- _]. done. Qed.

Lemma returns_raise {A} (Q : A → Prop) e : returns Q (@raise svc A e).
Proof. by intros w a w'. Qed.

Lemma returns_bind {A B} (Q : B → Prop) (m : @M svc A) (k : A → M B) :
  (∀ a, returns Q (k a)) → returns Q (bind m k).
Proof.
  intros Hk w b w'. unfold bind.
  destruct (m w) as [[a|e|] w1]; [|done..]. apply Hk.
Qed.

End Returns.

Section Dispatch.

Context {svc : Type} (P : platform svc).

Implicit Types (w : world svc) (tc : tool_call) (ms : list message).

(** A request for an operation outside the catalog is decoded and then
    dropped: nothing is appended and nothing happens. *)
Lemma dispatch_unknown_operation a c o tc ms w v :
  json_loads P (tc_arguments tc) = Some v →
  known_operation tc = false →
  dispatch P a c o tc ms w = (Ret ms, w).
Proof.
  intros Hv Hk. unfold known_operation in Hk.
  apply orb_false_iff in Hk as [Hr Hw].
  unfold dispatch, loads. rewrite Hv. unfold bind at 1, ret at 1.
  by rewrite Hr, Hw.
Qed.

(** When a dispatch returns, it has appended one result carrying the
    identifier of the request if the operation is in the catalog, and
    nothing otherwise. *)
Lemma dispatch_answers a c o tc ms :
  returns
    (λ ms', ∃ content,
       ms' = ms ++ (if known_operation tc
                    then [ToolMsg (tc_id tc) (tc_name tc) content]
                    else []))
    (dispatch P a c o tc ms).
Proof.
  unfold dispatch, known_operation.
  apply returns_bind. intros function_args.
  destruct (bool_decide (tc_name tc = "read_file_content")); simpl.
  - apply returns_bind. intros requested.
    destruct (equals_str _ _).
    + apply returns_ret. by eexists.
    + do 4 (apply returns_bind; intros ?). apply returns_ret. by eexists.
  - destruct (bool_decide (tc_name tc = "write_file_content")); simpl.
    + do 6 (apply returns_bind; intros ?). apply returns_ret. by eexists.
    + apply returns_ret. exists ""%string. by rewrite app_nil_r.
Qed.

Lemma answered_app ms1 ms2 : answered (ms1 ++ ms2) = answered ms1 ++ answered ms2.
Proof.
  induction ms1 as [|m ms1 IH]; [done|].
  destruct m; simpl; by rewrite ?IH.
Qed.

(** After the requests of a Turn are dispatched, the transcript has grown
    by one result per request for a catalog operation, in the order of the
    requests, and by nothing else. *)
Lemma dispatch_all_answers a c o tcs ms :
  returns
    (λ ms', ∃ results,
       ms' = ms ++ results
       ∧ answered results = tc_id <$> List.filter known_operation tcs
       ∧ Forall (λ m, ∃ id name content, m = ToolMsg id name content) results)
    (dispatch_all P a c o tcs ms).
Proof.
  revert ms. induction tcs as [|tc tcs IH]; intros ms; simpl.
  - apply returns_ret. exists []. by rewrite app_nil_r.
  - intros w ms' w'. unfold bind.
    destruct (dispatch P a c o tc ms w) as [[ms1|e|] w1] eqn:Hd; [|done..].
    apply dispatch_answers in Hd as [content ->].
    intros Hrest. apply IH in Hrest as (results & -> & Hids & Hall).
    destruct (known_operation tc).
    + exists (ToolMsg (tc_id tc) (tc_name tc) content :: results).
      rewrite <- app_assoc. split_and!; [done|simpl; by rewrite Hids|].
      constructor; [by eauto|done].
    + exists results. by rewrite app_nil_r.
Qed.

(** A read of the artifact's own name is answered from memory, any other read
    from the path joined to the output directory. *)
Lemma dispatch_read a c o tc ms w members file_path :
  tc_name tc = "read_file_content" →
  json_loads P (tc_arguments tc) = Some (JObject members) →
  assoc "file_path" members = Some (JString file_path) →
  dispatch P a c o tc ms w =
    if bool_decide (file_path = PosixPath.basename a) then
      (Ret (ms ++ [ToolMsg (tc_id tc) "read_file_content" c]), w)
    else
      let full_path := PosixPath.join o file_path in
      (Ret (ms ++ [ToolMsg (tc_id tc) "read_file_content"
                     match FS.read_text (w_fs w) (cwd P) full_path with
                     | inr text => text
                     | inl code =>
                         "Error reading file content: "
                         +:+ str_exc P (OSError code full_path)
                     end]),
       World (w_fs w) (w_svc w) (w_draws w)
         (w_log w ++ [EvPrint ("Reading the contents from " +:+ full_path);
                      EvOpenRead full_path])).
Proof.
  intros Hname Hdoc Hpath.
  unfold dispatch, loads, tool_message, append. rewrite Hdoc, Hname.
  unfold bind at 1, ret at 1. cbn [bool_decide decide_rel].
  rewrite bool_decide_eq_true_2 by done.
  unfold subscript. rewrite Hpath. unfold bind at 1, ret at 1.
  unfold equals_str. destruct (bool_decide (file_path = _)); [done|].
  unfold bind at 1, ret at 1. unfold os_path_join, bind at 1, ret at 1.
  unfold read_file_content, try_except, open_read, print, bind, emit,
    get_fs, lift_os, ret, raise; simpl.
  destruct (FS.read_text _ _ _); simpl; by rewrite <- app_assoc.
Qed.

End Dispatch.

(** ** The file system *)

Section FileSystem.

Implicit Types (t : FS.tree) (cur q : list string) (comps : list string).

Lemma node_at_insert_ne t q cur x :
  cur ≠ q → q ≠ [] → FS.node_at (<[q := x]> t) cur = FS.node_at t cur.
Proof.
  intros Hne Hq. destruct cur as [|c cur]; [done|].
  simpl. by rewrite lookup_insert_ne.
Qed.

Lemma node_at_insert_eq t q x :
  q ≠ [] → FS.node_at (<[q := x]> t) q = Some x.
Proof.
  intros Hq. destruct q as [|c q]; [done|]. simpl. by rewrite lookup_insert_eq.
Qed.

Lemma node_at_not_dir_ne_nil t q : FS.node_at t q ≠ Some Dir → q ≠ [].
Proof. by intros H ->. Qed.

(** A walk that succeeds only looks directories up; writing a file where no
    directory was does not disturb it. *)
Lemma walk_insert_file t q x comps cur q' :
  FS.node_at t q ≠ Some Dir →
  FS.walk t cur comps = inr q' →
  FS.walk (<[q := File x]> t) cur comps = inr q'.
Proof.
  intros Hq. revert cur. induction comps as [|c comps IH]; intros cur; [done|].
  simpl. destruct (FS.node_at t cur) as [[text|]|] eqn:Hcur; [done| |done].
  intros Hwalk. rewrite node_at_insert_ne, Hcur; [by apply IH| |].
  - intros ->. by rewrite Hcur in Hq.
  - by apply node_at_not_dir_ne_nil in Hq.
Qed.

Lemma walk_app t cur comps1 comps2 :
  FS.walk t cur (comps1 ++ comps2) =
    match FS.walk t cur comps1 with
    | inr mid => FS.walk t mid comps2
    | inl e => inl e
    end.
Proof.
  revert cur. induction comps1 as [|c comps1 IH]; intros cur; [done|].
  simpl. destruct (FS.node_at t cur) as [[text|]|]; [done| |done]. apply IH.
Qed.

(** Without a dot-dot component a walk only descends. *)
Lemma walk_descends t cur comps q :
  Forall (λ c, FS.is_dotdot c = false) comps →
  FS.walk t cur comps = inr q → cur `prefix_of` q.
Proof.
  intros Hcomps. revert cur.
  induction Hcomps as [|c comps Hc _ IH]; intros cur; simpl.
  - by intros [= ->].
  - destruct (FS.node_at t cur) as [[text|]|]; [done| |done].
    intros Hwalk%IH. etransitivity; [|done].
    unfold FS.enter. rewrite Hc. destruct (FS.is_dot c); [done|].
    by apply prefix_app_r.
Qed.

Lemma universal_newlines_id s :
  Str.contains Str.CR s = false → FS.universal_newlines s = s.
Proof.
  induction s as [|c s IH]; [done|]. simpl.
  intros [Hc Hs]%orb_false_iff. rewrite Hc. by rewrite IH.
Qed.

(** *** Strings and paths *)

Lemma split_cons c s : ∃ f fs, Str.split c s = f :: fs.
Proof.
  induction s as [|d s (f & fs & IH)]; simpl; [by eauto|].
  destruct (Str.is_char c d); [by eauto|]. rewrite IH. by eauto.
Qed.

Lemma split_app_sep c a b :
  Str.split c (a +:+ String c b) = Str.split c a ++ Str.split c b.
Proof.
  induction a as [|d a IH]; simpl.
  - unfold Str.is_char. by rewrite bool_decide_eq_true_2.
  - rewrite IH. destruct (Str.is_char c d); [done|].
    by destruct (split_cons c a) as (f & fs & ->).
Qed.

Lemma endswith_inv c s :
  Str.endswith c s = true → ∃ s', s = s' +:+ String c "".
Proof.
  induction s as [|d s IH]; [done|]. simpl. destruct s as [|d' s].
  - unfold Str.is_char. intros ->%bool_decide_eq_true. by exists ""%string.
  - intros [s' Hs']%IH. exists (String d s'). simpl. by rewrite Hs'.
Qed.

Lemma startswith_app c a b :
  a ≠ ""%string → Str.startswith c (a +:+ b) = Str.startswith c a.
Proof. by destruct a. Qed.

Lemma app_empty_inv (a b : string) : a +:+ b = ""%string → a = ""%string.
Proof. by destruct a. Qed.

Lemma string_app_assoc (a b c : string) : (a +:+ b) +:+ c = a +:+ (b +:+ c).
Proof.
  induction a as [|d a IH]; [done|].
  change (String d ((a +:+ b) +:+ c) = String d (a +:+ (b +:+ c))).
  by rewrite IH.
Qed.

Lemma rpartition_no_sep c x :
  Str.contains c x = false → Str.rpartition c x = (""%string, x).
Proof.
  induction x as [|d x IH]; [done|]. cbn [Str.contains Str.rpartition].
  intros [Hd Hx]%orb_false_iff. by rewrite (IH Hx), Hd.
Qed.

Lemma rpartition_app_sep c a x :
  Str.contains c x = false →
  Str.rpartition c (a +:+ String c x) = (a +:+ String c "", x).
Proof.
  intros Hx. induction a as [|d a IH].
  - change (Str.rpartition c (String c x)
            = (String c "", x)).
    cbn [Str.rpartition]. rewrite (rpartition_no_sep c x Hx).
    unfold Str.is_char. by rewrite bool_decide_eq_true_2.
  - change (Str.rpartition c (String d (a +:+ String c x))
            = (String d (a +:+ String c ""), x)).
    cbn [Str.rpartition]. rewrite IH. by destruct a.
Qed.

Lemma split_no_sep c s : Str.contains c s = false → Str.split c s = [s].
Proof.
  induction s as [|d s IH]; [done|]. cbn [Str.contains Str.split].
  intros [-> Hs]%orb_false_iff. by rewrite (IH Hs).
Qed.

Lemma split_single c s f : Str.split c s = [f] → Str.contains c s = false.
Proof.
  revert f. induction s as [|d s IH]; intros f; [done|].
  cbn [Str.contains Str.split]. destruct (Str.is_char c d).
  - destruct (split_cons c s) as (f' & fs & ->). done.
  - destruct (split_cons c s) as (f' & fs & Hs). rewrite Hs.
    intros [= _ ->]. by rewrite (IH f').
Qed.

Lemma rstrip_no_sep c s : Str.contains c s = false → Str.rstrip c s = s.
Proof.
  induction s as [|d s IH]; [done|]. cbn [Str.contains Str.rstrip].
  intros [-> Hs]%orb_false_iff. rewrite (IH Hs). by destruct s.
Qed.

Lemma rstrip_app_sep c s :
  Str.rstrip c (s +:+ String c "") = Str.rstrip c s.
Proof.
  induction s as [|d s IH].
  - change (Str.rstrip c (String c "") = ""%string).
    cbn [Str.rstrip]. unfold Str.is_char. by rewrite bool_decide_eq_true_2.
  - change (Str.rstrip c (String d (s +:+ String c "")) =
            Str.rstrip c (String d s)).
    cbn [Str.rstrip]. by rewrite IH.
Qed.

(** A string whose last field is not empty has no trailing separator. *)
Lemma rstrip_id c s f :
  last (Str.split c s) = Some f → f ≠ ""%string → Str.rstrip c s = s.
Proof.
  revert f. induction s as [|d s IH]; intros f; [done|].
  cbn [Str.split Str.rstrip].
  destruct (split_cons c s) as (f0 & fs0 & Hs). rewrite Hs.
  assert (fs0 ≠ [] → last (f0 :: fs0) = last fs0) as Hlast
    by (by destruct fs0).
  destruct (Str.is_char c d) eqn:Hd.
  - change (last ("" :: f0 :: fs0)) with (last (f0 :: fs0)).
    rewrite <- Hs. intros Hf Hne. rewrite (IH f Hf Hne).
    destruct s; [by simplify_eq/=|done].
  - destruct fs0 as [|f1 fs1].
    + intros _ _. rewrite rstrip_no_sep by (by eapply split_single).
      by destruct s.
    + change (last ((String d f0) :: f1 :: fs1)) with (last (f0 :: f1 :: fs1)).
      rewrite <- Hs. intros Hf Hne. rewrite (IH f Hf Hne).
      destruct s; [by simplify_eq/=|done].
Qed.

(** A string whose first field is not empty does not start with the
    separator. *)
Lemma split_head_nonempty c s f fs :
  Str.split c s = f :: fs → f ≠ ""%string →
  Str.startswith c s = false ∧ Str.all_char c s = false ∧ s ≠ ""%string.
Proof.
  destruct s as [|d s]; [by intros [= <- _]|].
  cbn [Str.split Str.startswith Str.all_char].
  destruct (Str.is_char c d); [by intros [= <- _]|done].
Qed.

(** The directory of [dir/name] is [dir], and its components are those of
    [dir] and then [name], when every component names an entry. *)
Lemma dirname_plain dir name :
  Forall (λ c, plain c = true) (PosixPath.components dir) →
  Str.contains Str.slash name = false →
  PosixPath.dirname (dir +:+ "/" +:+ name) = dir
  ∧ PosixPath.components (dir +:+ "/" +:+ name)
    = PosixPath.components dir ++ [name]
  ∧ PosixPath.isabs dir = false
  ∧ PosixPath.isabs (dir +:+ "/" +:+ name) = false
  ∧ dir ≠ ""%string.
Proof.
  unfold PosixPath.components. intros Hplain Hname.
  destruct (split_cons Str.slash dir) as (f & fs & Hs).
  assert (f ≠ ""%string) as Hf.
  { rewrite Hs in Hplain. apply Forall_cons in Hplain as [Hf _].
    by intros ->. }
  destruct (split_head_nonempty _ _ _ _ Hs Hf) as (Hstart & Hall & Hne).
  assert (Str.rstrip Str.slash dir = dir) as Hstrip.
  { destruct (last (Str.split Str.slash dir)) as [l|] eqn:Hl.
    - apply (rstrip_id _ _ l Hl). intros ->.
      apply last_Some in Hl as [front Hl]. rewrite Hl in Hplain.
      by apply Forall_app in Hplain as [_ [? _]%Forall_cons].
    - apply last_None in Hl. by rewrite Hs in Hl. }
  change (dir +:+ "/" +:+ name) with (dir +:+ String Str.slash name).
  split_and!; [| |done| |done].
  - unfold PosixPath.dirname, PosixPath.split.
    rewrite rpartition_app_sep by done. cbn [fst].
    assert (Str.all_char Str.slash (dir +:+ String Str.slash "") = false)
      as ->.
    { clear -Hstart Hne. destruct dir as [|d dir']; [done|].
      cbn [Str.startswith] in Hstart.
      change (Str.is_char Str.slash d
              && Str.all_char Str.slash (dir' +:+ String Str.slash "")
              = false).
      by rewrite Hstart. }
    rewrite bool_decide_eq_false_2 by (by destruct dir).
    cbn [negb andb]. by rewrite rstrip_app_sep.
  - by rewrite split_app_sep, (split_no_sep _ name).
  - unfold PosixPath.isabs. by destruct dir.
Qed.

(** An absolute second argument replaces the first. *)
Lemma join_absolute a b : PosixPath.isabs b = true → PosixPath.join a b = b.
Proof. unfold PosixPath.isabs, PosixPath.join. by intros ->. Qed.

(** A relative second argument goes after the first and one slash. *)
Lemma join_relative a b :
  PosixPath.isabs b = false → a ≠ ""%string →
  ∃ a', PosixPath.join a b = a' +:+ String Str.slash b
        ∧ (a = a' ∨ a = a' +:+ "/").
Proof.
  unfold PosixPath.isabs, PosixPath.join. intros -> Ha.
  rewrite bool_decide_eq_false_2 by done. simpl.
  destruct (Str.endswith Str.slash a) eqn:Hend.
  - apply endswith_inv in Hend as [a' ->]. exists a'.
    rewrite string_app_assoc. by split; [|right].
  - exists a. by split; [|left].
Qed.

(** The target of a relative argument without a dot-dot component lies
    under the directory it is joined to. *)
Lemma resolve_join_under t cwd a b root q :
  PosixPath.isabs b = false →
  Forall (λ c, FS.is_dotdot c = false) (PosixPath.components b) →
  FS.resolve t cwd a = inr root →
  FS.resolve t cwd (PosixPath.join a b) = inr q →
  root `prefix_of` q.
Proof.
  intros Hrel Hdots. unfold FS.resolve.
  case_bool_decide as Ha; [done|].
  destruct (join_relative a b Hrel Ha) as (a' & -> & Ha').
  case_bool_decide as Hj; [done|].
  unfold PosixPath.components, FS.start, PosixPath.isabs.
  rewrite split_app_sep, walk_app.
  assert (Str.startswith Str.slash (a' +:+ String Str.slash b)
          = Str.startswith Str.slash a) as ->.
  { destruct Ha' as [->| ->].
    - by apply startswith_app.
    - destruct a'; [done|]. done. }
  set (from := if Str.startswith Str.slash a then [] else cwd).
  intros Hroot.
  assert (FS.walk t from (Str.split Str.slash a') = inr root) as ->.
  { destruct Ha' as [->| ->]; [done|].
    change "/"%string with (String Str.slash "") in Hroot.
    rewrite split_app_sep, walk_app in Hroot.
    destruct (FS.walk t from (Str.split Str.slash a')) as [e|mid]; [done|].
    simpl in Hroot.
    destruct (FS.node_at t mid) as [[text|]|]; [done| |done].
    by injection Hroot as <-. }
  by apply walk_descends.
Qed.

(** *** Making directories *)

Lemma node_at_weaken t t' p n :
  t ⊆ t' → FS.node_at t p = Some n → FS.node_at t' p = Some n.
Proof.
  intros Hsub. destruct p as [|c p]; [done|]. simpl.
  intros Hin. by eapply lookup_weaken.
Qed.

Lemma node_at_None t p : FS.node_at t p = None → p ≠ [] ∧ t !! p = None.
Proof. by destruct p. Qed.

(** The walk only adds to the tree, whether it succeeds or fails, and what
    it adds are directories. *)
Lemma walk_creating_grows comps :
  ∀ t cur seen, t ⊆ (FS.walk_creating t cur seen comps).1.
Proof.
  induction comps as [|c comps IH]; intros t cur seen; cbn [FS.walk_creating].
  - by destruct (FS.node_at t cur) as [[text|]|].
  - cbv zeta. case_bool_decide; [apply IH|].
    destruct (FS.node_at t cur) as [[text|]|]; [done| |done].
    destruct (FS.node_at t (FS.enter cur c)) as [n|] eqn:Hnext; [apply IH|].
    apply node_at_None in Hnext as [_ Hnone].
    etransitivity; [|apply IH]. by apply insert_subseteq.
Qed.

Lemma walk_creating_adds_directories comps :
  ∀ t cur seen q n,
    (FS.walk_creating t cur seen comps).1 !! q = Some n →
    t !! q = Some n ∨ (t !! q = None ∧ n = Dir).
Proof.
  induction comps as [|c comps IH]; intros t cur seen q n;
    cbn [FS.walk_creating].
  - destruct (FS.node_at t cur) as [[text|]|]; by left.
  - cbv zeta. case_bool_decide; [apply IH|].
    destruct (FS.node_at t cur) as [[text|]|]; [by left| |by left].
    destruct (FS.node_at t (FS.enter cur c)) as [n'|] eqn:Hnext; [apply IH|].
    apply node_at_None in Hnext as [_ Hnone].
    intros [Hin|[Hin ->]]%IH.
    + destruct (decide (FS.enter cur c = q)) as [<-|Hne].
      * rewrite lookup_insert_eq in Hin. injection Hin as <-. by right.
      * rewrite lookup_insert_ne in Hin by done. by left.
    + right. split; [|done].
      destruct (decide (FS.enter cur c = q)) as [<-|Hne]; [done|].
      by rewrite lookup_insert_ne in Hin.
Qed.

(** After a walk that succeeded every component is in place: the plain walk
    follows it to a directory. *)
Lemma walk_creating_reaches comps :
  ∀ t cur seen t',
    FS.walk_creating t cur seen comps = (t', None) →
    FS.node_at t' cur = Some Dir
    ∧ ∃ q, FS.walk t' cur comps = inr q ∧ FS.node_at t' q = Some Dir.
Proof.
  induction comps as [|c comps IH]; intros t cur seen t';
    cbn [FS.walk_creating FS.walk].
  - destruct (FS.node_at t cur) as [[text|]|] eqn:Hcur; [done| |done].
    intros [= <-]. split; [done|]. by exists cur.
  - cbv zeta. case_bool_decide as Hc.
    + subst c. intros (Hcur & q & Hq)%IH. rewrite Hcur. split; [done|].
      by exists q.
    + destruct (FS.node_at t cur) as [[text|]|] eqn:Hcur; [done| |done].
      intros Hrun.
      assert (FS.node_at t' cur = Some Dir) as Hcur'.
      { eapply node_at_weaken; [|done].
        pose proof (walk_creating_grows (c :: comps) t cur seen) as Hsub.
        cbn [FS.walk_creating] in Hsub. cbv zeta in Hsub.
        rewrite bool_decide_eq_false_2, Hcur in Hsub by done.
        by rewrite Hrun in Hsub. }
      rewrite Hcur'. split; [done|].
      destruct (FS.node_at t (FS.enter cur c)) as [n|];
        apply IH in Hrun as (_ & q & Hq); by exists q.
Qed.

(** Directories once made need no making. *)
Lemma walk_creating_fixed comps :
  ∀ t cur seen t',
    FS.walk_creating t cur seen comps = (t', None) →
    FS.walk_creating t' cur seen comps = (t', None).
Proof.
  induction comps as [|c comps IH]; intros t cur seen t';
    cbn [FS.walk_creating].
  - destruct (FS.node_at t cur) as [[text|]|] eqn:Hcur; [done| |done].
    intros [= <-]. by rewrite Hcur.
  - cbv zeta. case_bool_decide as Hc; [apply IH|].
    intros Hrun.
    destruct (walk_creating_reaches (c :: comps) t cur seen t') as [Hcur' _].
    { cbn [FS.walk_creating]. cbv zeta. by rewrite bool_decide_eq_false_2. }
    rewrite Hcur'.
    destruct (FS.node_at t cur) as [[text|]|] eqn:Hcur; [done| |done].
    destruct (FS.node_at t (FS.enter cur c)) as [n|] eqn:Hnext.
    + destruct (walk_creating_reaches _ _ _ _ _ Hrun) as [-> _].
      by apply IH in Hrun.
    + destruct (walk_creating_reaches _ _ _ _ _ Hrun) as [-> _].
      by apply IH in Hrun.
Qed.

(** Nor does a file put where no directory is disturb them. *)
Lemma walk_creating_insert_file q x comps :
  ∀ t cur seen,
    FS.node_at t q ≠ Some Dir →
    FS.walk_creating t cur seen comps = (t, None) →
    FS.walk_creating (<[q := File x]> t) cur seen comps
      = (<[q := File x]> t, None).
Proof.
  induction comps as [|c comps IH]; intros t cur seen Hq;
    cbn [FS.walk_creating].
  - destruct (FS.node_at t cur) as [[text|]|] eqn:Hcur; [done| |done].
    intros _. rewrite node_at_insert_ne, Hcur; [done| |].
    + intros ->. by rewrite Hcur in Hq.
    + by apply node_at_not_dir_ne_nil in Hq.
  - cbv zeta. case_bool_decide as Hc; [by apply IH|].
    destruct (FS.node_at t cur) as [[text|]|] eqn:Hcur; [done| |done].
    assert (FS.node_at (<[q := File x]> t) cur = Some Dir) as ->.
    { rewrite node_at_insert_ne; [done| |].
      - intros ->. by rewrite Hcur in Hq.
      - by apply node_at_not_dir_ne_nil in Hq. }
    destruct (FS.node_at t (FS.enter cur c)) as [n|] eqn:Hnext; intros Hrun.
    + assert (is_Some (FS.node_at (<[q := File x]> t) (FS.enter cur c)))
        as [n' ->].
      { destruct (decide (FS.enter cur c = q)) as [->|Hne].
        - rewrite node_at_insert_eq; [by eexists|].
          by apply node_at_not_dir_ne_nil in Hq.
        - rewrite node_at_insert_ne, Hnext; [by eexists|done|].
          by apply node_at_not_dir_ne_nil in Hq. }
      by apply IH.
    + exfalso.
      pose proof (walk_creating_grows comps (<[FS.enter cur c := Dir]> t)
                    (FS.enter cur c) (Some (FS.upto seen c))) as Hsub.
      rewrite Hrun in Hsub. cbn [fst] in Hsub.
      apply node_at_None in Hnext as [Hne Hnone].
      pose proof (lookup_weaken _ _ (FS.enter cur c) Dir
                    (lookup_insert_eq t _ _) Hsub) as Hin.
      by rewrite Hnone in Hin.
Qed.

Lemma makedirs_inr t cwd name t' :
  FS.makedirs t cwd name = inr t' ↔ FS.makedirs_run t cwd name = (t', None).
Proof.
  unfold FS.makedirs.
  destruct (FS.makedirs_run t cwd name) as [t1 [[code filename]|]];
    split; intros; by simplify_eq.
Qed.

Lemma makedirs_inl t cwd name code :
  FS.makedirs t cwd name = inl code ↔
  ∃ t' filename, FS.makedirs_run t cwd name = (t', Some (code, filename)).
Proof.
  unfold FS.makedirs.
  destruct (FS.makedirs_run t cwd name) as [t1 [[code' filename]|]]; split.
  - intros [= ->]. by eexists _, _.
  - by intros (? & ? & [= _ -> _]).
  - done.
  - by intros (? & ? & [=]).
Qed.

Lemma makedirs_run_grows t cwd name : t ⊆ (FS.makedirs_run t cwd name).1.
Proof.
  unfold FS.makedirs_run. case_bool_decide; [done|].
  apply walk_creating_grows.
Qed.

Lemma makedirs_run_adds_directories t cwd name q n :
  (FS.makedirs_run t cwd name).1 !! q = Some n →
  t !! q = Some n ∨ (t !! q = None ∧ n = Dir).
Proof.
  unfold FS.makedirs_run. case_bool_decide; [by left|].
  apply walk_creating_adds_directories.
Qed.

Lemma makedirs_fixed t cwd name t' :
  FS.makedirs t cwd name = inr t' → FS.makedirs t' cwd name = inr t'.
Proof.
  rewrite !makedirs_inr. unfold FS.makedirs_run.
  case_bool_decide; [done|]. apply walk_creating_fixed.
Qed.

Lemma makedirs_insert_file t cwd name q x :
  FS.node_at t q ≠ Some Dir →
  FS.makedirs t cwd name = inr t →
  FS.makedirs (<[q := File x]> t) cwd name = inr (<[q := File x]> t).
Proof.
  rewrite !makedirs_inr. unfold FS.makedirs_run.
  case_bool_decide; [done|]. apply walk_creating_insert_file.
Qed.

(** After [os.makedirs] has succeeded the path is a directory. *)
Lemma makedirs_isdir t cwd name t' :
  FS.makedirs t cwd name = inr t' → FS.isdir t' cwd name = true.
Proof.
  rewrite makedirs_inr. unfold FS.makedirs_run, FS.isdir, FS.resolve.
  case_bool_decide; [done|].
  intros (_ & q & -> & ->)%walk_creating_reaches. done.
Qed.

Lemma makedirs_grows t cwd name t' :
  FS.makedirs t cwd name = inr t' → t ⊆ t'.
Proof.
  rewrite makedirs_inr. intros Hrun.
  pose proof (makedirs_run_grows t cwd name) as Hsub. by rewrite Hrun in Hsub.
Qed.

(** *** Paths of plain components *)

Lemma plain_enter cur c :
  plain c = true → FS.enter cur c = cur ++ [c] ∧ c ≠ ""%string.
Proof.
  unfold plain, FS.enter. intros [Hdot Hdd]%andb_prop.
  apply negb_true_iff in Hdot, Hdd. rewrite Hdot, Hdd. split; [done|].
  by intros ->.
Qed.

Lemma take_S_cons (cur : list string) c rest k :
  cur ++ take (S k) (c :: rest) = (cur ++ [c]) ++ take k rest.
Proof. by rewrite <- app_assoc. Qed.

(** Where no regular file is in the way, every directory of a plain path
    is there after the walk, and nothing else has changed. *)
Lemma walk_creating_plain dirs :
  ∀ t cur seen,
    Forall (λ c, plain c = true) dirs →
    FS.node_at t cur = Some Dir →
    (∀ k text, k ≤ length dirs →
       FS.node_at t (cur ++ take k dirs) ≠ Some (File text)) →
    ∃ t',
      FS.walk_creating t cur seen dirs = (t', None)
      ∧ (∀ k, k ≤ length dirs →
           FS.node_at t' (cur ++ take k dirs) = Some Dir)
      ∧ (∀ q, (∀ k, k ≤ length dirs → q ≠ cur ++ take k dirs) →
           t' !! q = t !! q).
Proof.
  induction dirs as [|c rest IH]; intros t cur seen Hplain Hcur Hfree.
  - exists t. cbn [FS.walk_creating]. rewrite Hcur. split; [done|].
    split; [|done]. intros k _. by rewrite take_nil, app_nil_r.
  - apply Forall_cons in Hplain as [Hc Hrest].
    destruct (plain_enter cur c Hc) as [Henter Hne].
    cbn [FS.walk_creating]. cbv zeta.
    rewrite bool_decide_eq_false_2, Hcur, Henter by done.
    assert (∀ t1,
              FS.node_at t1 (cur ++ [c]) = Some Dir →
              (∀ q, q ≠ cur ++ [c] → t1 !! q = t !! q) →
              t ⊆ t1 →
              ∃ t',
                FS.walk_creating t1 (cur ++ [c]) (Some (FS.upto seen c)) rest
                  = (t', None)
                ∧ (∀ k, k ≤ length (c :: rest) →
                     FS.node_at t' (cur ++ take k (c :: rest)) = Some Dir)
                ∧ (∀ q, (∀ k, k ≤ length (c :: rest) →
                          q ≠ cur ++ take k (c :: rest)) →
                     t' !! q = t !! q)) as Hstep.
    { intros t1 Hnext Hsame Hsub.
      destruct (IH t1 (cur ++ [c]) (Some (FS.upto seen c)) Hrest Hnext)
        as (t' & Hrun & Hdirs & Hkeep).
      { intros k text Hk. rewrite <- take_S_cons.
        destruct (decide (cur ++ take (S k) (c :: rest) = cur ++ [c]))
          as [->|Hother]; [by rewrite Hnext|].
        assert (cur ++ take (S k) (c :: rest) ≠ []) as Hnil
          by (by destruct cur).
        destruct (cur ++ take (S k) (c :: rest)) as [|x p] eqn:Hp; [done|].
        cbn [FS.node_at]. rewrite Hsame by done.
        specialize (Hfree (S k) text). rewrite Hp in Hfree.
        apply Hfree. cbn [length]. lia. }
      exists t'. split; [done|]. split.
      - intros [|k] Hk.
        + rewrite take_0, app_nil_r. eapply node_at_weaken; [|done].
          etransitivity; [done|].
          pose proof (walk_creating_grows rest t1 (cur ++ [c])
                        (Some (FS.upto seen c))) as Hgrow.
          by rewrite Hrun in Hgrow.
        + rewrite take_S_cons. apply Hdirs. cbn [length] in Hk. lia.
      - intros q Hq. rewrite Hkeep, Hsame; [done| |].
        + specialize (Hq 1 ltac:(cbn [length]; lia)). by rewrite take_S_cons, take_0, app_nil_r in Hq.
        + intros k Hk. rewrite <- take_S_cons. apply Hq. cbn [length]. lia. }
    destruct (FS.node_at t (cur ++ [c])) as [n|] eqn:Hnext.
    + apply Hstep; [|done|done].
      destruct n as [text|]; [|done].
      specialize (Hfree 1 text ltac:(cbn [length]; lia)).
      by rewrite take_S_cons, take_0, app_nil_r in Hfree.
    + apply node_at_None in Hnext as [Hnil Hnone]. apply Hstep.
      * by apply node_at_insert_eq.
      * intros q Hq. by rewrite lookup_insert_ne.
      * by apply insert_subseteq.
Qed.

(** The plain walk goes down a path of plain components whose directories
    are all there. *)
Lemma walk_plain dirs :
  ∀ t cur,
    Forall (λ c, plain c = true) dirs →
    (∀ k, k < length dirs → FS.node_at t (cur ++ take k dirs) = Some Dir) →
    FS.walk t cur dirs = inr (cur ++ dirs).
Proof.
  induction dirs as [|c rest IH]; intros t cur Hplain Hdirs.
  - by rewrite app_nil_r.
  - apply Forall_cons in Hplain as [Hc Hrest].
    destruct (plain_enter cur c Hc) as [Henter _].
    cbn [FS.walk].
    specialize (Hdirs 0 ltac:(cbn [length]; lia)) as Hcur.
    rewrite take_0, app_nil_r in Hcur. rewrite Hcur, Henter.
    rewrite IH; [by rewrite <- app_assoc|done|].
    intros k Hk. rewrite <- take_S_cons. apply Hdirs. cbn [length]. lia.
Qed.

End FileSystem.

(** ** File Store *)

Section FileStore.

Context {svc : Type} (P : platform svc).

Implicit Types (w : world svc) (t : FS.tree).

Lemma read_file_content_eq path w :
  read_file_content P path w =
    (Ret match FS.read_text (w_fs w) (cwd P) path with
         | inr text => text
         | inl code =>
             "Error reading file content: "
             +:+ str_exc P (OSError code path)
         end,
     World (w_fs w) (w_svc w) (w_draws w) (w_log w ++ [EvOpenRead path])).
Proof.
  unfold read_file_content, try_except, open_read, bind, emit, get_fs,
    lift_os, ret, raise; simpl.
  by destruct (FS.read_text _ _ _).
Qed.

Lemma write_file_content_eq path content w :
  write_file_content P path (JString content) w =
    let after t message :=
      (Ret message,
       World t (w_svc w) (w_draws w) (w_log w ++ [EvOpenWrite path])) in
    match FS.open_w (w_fs w) (cwd P) path with
    | inl code =>
        after (w_fs w)
          ("Error writing file content: " +:+ str_exc P (OSError code path))
    | inr (q, t') =>
        if encodable P content
        then after (<[q := File content]> t') "File written successfully."%string
        else after t'
               ("Error writing file content: "
                +:+ str_exc P (UnicodeEncodeError content))
    end.
Proof.
  unfold write_file_content, try_except, open_write, file_write, bind, emit,
    get_fs, put_fs, lift_os, ret, raise; simpl.
  destruct (FS.open_w _ _ _) as [code|[q t']]; simpl; [done|].
  by destruct (encodable P content).
Qed.

(** [os.makedirs] by the run of its walk: the directories made stay,
    whether the call succeeds or fails. *)
Lemma os_makedirs_run_eq name w :
  os_makedirs P name w =
    let log' := w_log w ++ [EvMakedirs name] in
    match FS.makedirs_run (w_fs w) (cwd P) name with
    | (t', None) => (Ret (), World t' (w_svc w) (w_draws w) log')
    | (t', Some (code, filename)) =>
        (Raise (OSError code filename),
         World t' (w_svc w) (w_draws w) log')
    end.
Proof.
  unfold os_makedirs, bind, emit, get_fs, put_fs, ret, raise; simpl.
  by destruct (FS.makedirs_run _ _ _) as [t' [[code filename]|]].
Qed.

(** [os.makedirs] by its outcome. *)
Lemma os_makedirs_eq name w :
  os_makedirs P name w =
    let log' := w_log w ++ [EvMakedirs name] in
    let run := FS.makedirs_run (w_fs w) (cwd P) name in
    match FS.makedirs (w_fs w) (cwd P) name with
    | inr t' => (Ret (), World t' (w_svc w) (w_draws w) log')
    | inl code =>
        (Raise (OSError code (default name (snd <$> run.2))),
         World run.1 (w_svc w) (w_draws w) log')
    end.
Proof.
  rewrite os_makedirs_run_eq. unfold FS.makedirs. cbv zeta.
  by destruct (FS.makedirs_run _ _ _) as [t' [[code filename]|]].
Qed.

Lemma open_w_inv t cwd path q t' :
  FS.open_w t cwd path = inr (q, t') →
  q ≠ [] ∧ t' = <[q := File ""%string]> t ∧ FS.node_at t q ≠ Some Dir.
Proof.
  unfold FS.open_w. destruct (FS.resolve t cwd path) as [e|q0]; [done|].
  destruct (FS.node_at t q0) as [[text|]|] eqn:Hq0; [|done|].
  - intros [= <- <-]. split_and!; [|done|by rewrite Hq0].
    intros ->. done.
  - destruct (FS.node_at t (removelast q0)) as [[text|]|]; [done| |done].
    intros [= <- <-]. split_and!; [|done|by rewrite Hq0].
    intros ->. done.
Qed.

(** [write_file_content] on any decoded content. *)
Lemma write_file_content_cases path content w :
  write_file_content P path content w =
    let after t message :=
      (Ret message,
       World t (w_svc w) (w_draws w) (w_log w ++ [EvOpenWrite path])) in
    match FS.open_w (w_fs w) (cwd P) path with
    | inl code =>
        after (w_fs w)
          ("Error writing file content: " +:+ str_exc P (OSError code path))
    | inr (q, t') =>
        match content with
        | JString text =>
            if encodable P text
            then after (<[q := File text]> t')
                   "File written successfully."%string
            else after t'
                   ("Error writing file content: "
                    +:+ str_exc P (UnicodeEncodeError text))
        | _ =>
            after t'
              ("Error writing file content: "
               +:+ str_exc P (TypeError "write() argument must be str"))
        end
    end.
Proof.
  unfold write_file_content, try_except, open_write, file_write, bind, emit,
    get_fs, put_fs, lift_os, ret, raise; simpl.
  destruct (FS.open_w _ _ _) as [code|[q t']]; simpl; [done|].
  destruct content; try done. by destruct (encodable P _).
Qed.

(** [write_file_content] makes no directory: a directory that is there
    after the call was there before it. *)
Lemma write_makes_no_directory path content w q :
  w_fs (write_file_content P path content w).2 !! q = Some Dir →
  w_fs w !! q = Some Dir.
Proof.
  rewrite write_file_content_cases. cbv zeta.
  destruct (FS.open_w _ _ _) as [code|[q0 t']] eqn:Hopen; [done|].
  destruct (open_w_inv _ _ _ _ _ Hopen) as (Hq & -> & _).
  destruct (decide (q = q0)) as [->|Hne];
    destruct content as [| | |text| |]; try destruct (encodable P text);
    cbn [snd w_fs]; rewrite ?lookup_insert_eq;
    rewrite ?lookup_insert_ne by done; done.
Qed.

(** A file put where no directory is leaves every directory a directory. *)
Lemma isdir_insert_file t cwd dir q x :
  FS.node_at t q ≠ Some Dir →
  FS.isdir t cwd dir = true →
  FS.isdir (<[q := File x]> t) cwd dir = true.
Proof.
  intros Hq. unfold FS.isdir, FS.resolve. case_bool_decide; [done|].
  destruct (FS.walk t _ _) as [e|qd] eqn:Hwalk; [done|].
  rewrite (walk_insert_file _ _ _ _ _ _ Hq Hwalk).
  destruct (FS.node_at t qd) as [[text|]|] eqn:Hqd; [done| |done].
  intros _. rewrite node_at_insert_ne, Hqd; [done| |].
  - intros ->. by rewrite Hqd in Hq.
  - by apply node_at_not_dir_ne_nil in Hq.
Qed.

(** What was written through an open file is what a read finds, up to the
    newline translation of the read. *)
Lemma read_after_write t cwd path q t' content :
  FS.open_w t cwd path = inr (q, t') →
  FS.read_text (<[q := File content]> t') cwd path
    = inr (FS.universal_newlines content).
Proof.
  unfold FS.open_w, FS.read_text, FS.resolve.
  case_bool_decide; [done|].
  destruct (FS.walk t _ _) as [e|q0] eqn:Hwalk; [done|].
  intros Hopen.
  assert (FS.node_at t q0 ≠ Some Dir ∧ q = q0 ∧ t' = <[q0 := File ""%string]> t)
    as (Hnode & -> & ->).
  { destruct (FS.node_at t q0) as [[text|]|]; [by simplify_eq|done|].
    destruct (FS.node_at t (removelast q0)) as [[text|]|]; by simplify_eq. }
  rewrite insert_insert_eq.
  rewrite (walk_insert_file _ _ _ _ _ _ Hnode Hwalk).
  rewrite node_at_insert_eq; [done|].
  by apply node_at_not_dir_ne_nil in Hnode.
Qed.

(** The File Store write by its steps: it reports success exactly when the
    directories could be made, the file could be opened and the text could
    be encoded. *)
Lemma file_store_write_success path content w w' :
  file_store_write P path content w
    = (Ret "File written successfully."%string, w') ↔
  ∃ t1 q t2,
    FS.makedirs (w_fs w) (cwd P) (PosixPath.dirname path) = inr t1
    ∧ FS.open_w t1 (cwd P) path = inr (q, t2)
    ∧ encodable P content = true
    ∧ w' = World (<[q := File content]> t2) (w_svc w) (w_draws w)
             (w_log w ++ [EvMakedirs (PosixPath.dirname path);
                          EvOpenWrite path]).
Proof.
  unfold file_store_write. unfold bind at 1. rewrite os_makedirs_eq.
  cbv zeta.
  destruct (FS.makedirs _ _ _) as [code|t1] eqn:Hmk.
  { split; [done|]. by intros (? & ? & ? & [=] & _). }
  rewrite write_file_content_eq. cbv zeta. cbn [w_fs w_svc w_draws w_log].
  destruct (FS.open_w t1 (cwd P) path) as [code|[q t2]] eqn:Hopen.
  { split; [by intros [=]|]. intros (? & ? & ? & [= <-] & Ho & _).
    by rewrite Hopen in Ho. }
  destruct (encodable P content) eqn:Henc.
  - rewrite <- app_assoc. split.
    + intros [= <-]. by eexists _, _, _.
    + intros (? & ? & ? & [= <-] & Ho & _ & ->).
      rewrite Hopen in Ho. by injection Ho as <- <-.
  - split; [by intros [=]|]. by intros (? & ? & ? & _ & _ & [=] & _).
Qed.

(** After a write that reported success the text is read back, and the
    directory of the path is a directory. *)
Lemma file_store_write_reads_back path content w w' :
  file_store_write P path content w
    = (Ret "File written successfully."%string, w') →
  (read_file_content P path w').1 = Ret (FS.universal_newlines content)
  ∧ FS.isdir (w_fs w') (cwd P) (PosixPath.dirname path) = true.
Proof.
  intros (t1 & q & t2 & Hmk & Hopen & _ & ->)%file_store_write_success.
  rewrite read_file_content_eq. cbn [fst w_fs].
  rewrite (read_after_write _ _ _ _ _ _ Hopen). split; [done|].
  destruct (open_w_inv _ _ _ _ _ Hopen) as (_ & -> & Hq).
  rewrite insert_insert_eq.
  apply isdir_insert_file; [done|]. by apply (makedirs_isdir (w_fs w)).
Qed.

(** A relative path of plain components, none of whose directories is a
    regular file and which is not a directory itself, is written with its
    directories made on the way. *)
Lemma file_store_write_plain dir name content w :
  let dirs := PosixPath.components dir in
  let here := cwd P in
  let path := dir +:+ "/" +:+ name in
  Forall (λ c, plain c = true) dirs →
  plain name = true →
  Str.contains Str.slash name = false →
  FS.node_at (w_fs w) here = Some Dir →
  (∀ k text, k ≤ length dirs →
     FS.node_at (w_fs w) (here ++ take k dirs) ≠ Some (File text)) →
  w_fs w !! (here ++ dirs ++ [name]) ≠ Some Dir →
  encodable P content = true →
  ∃ w',
    file_store_write P path content w
      = (Ret "File written successfully."%string, w')
    ∧ (∀ k, k ≤ length dirs →
         FS.node_at (w_fs w') (here ++ take k dirs) = Some Dir)
    ∧ w_fs w' !! (here ++ dirs ++ [name]) = Some (File content)
    ∧ (∀ q, q ≠ here ++ dirs ++ [name] →
         (∀ k, k ≤ length dirs → q ≠ here ++ take k dirs) →
         w_fs w' !! q = w_fs w !! q).
Proof.
  intros dirs here path Hplain Hname Hslash Hhere Hfree Hfile Henc.
  destruct (dirname_plain dir name Hplain Hslash)
    as (Hdir & Hcomps & Hrel & Hrelp & Hne).
  fold path in Hdir, Hcomps, Hrelp. fold dirs in Hcomps.
  destruct (walk_creating_plain dirs (w_fs w) here None Hplain Hhere Hfree)
    as (t1 & Hrun & Hdirs & Hkeep).
  set (q := here ++ dirs ++ [name]).
  assert (q ≠ []) as Hq by (subst q; by destruct here, dirs).
  assert (∀ k, k ≤ length dirs → q ≠ here ++ take k dirs) as Hfresh.
  { intros k Hk Heq. apply (f_equal length) in Heq. subst q.
    rewrite !length_app, length_take in Heq. cbn [length] in Heq. lia. }
  assert (FS.makedirs (w_fs w) here dir = inr t1) as Hmk.
  { apply makedirs_inr. unfold FS.makedirs_run, FS.start.
    by rewrite bool_decide_eq_false_2, Hrel by done. }
  assert (FS.resolve t1 here path = inr q) as Hres.
  { unfold FS.resolve, FS.start. rewrite Hrelp, Hcomps.
    rewrite bool_decide_eq_false_2 by (subst path; by destruct dir).
    rewrite walk_plain; [done| |].
    - apply Forall_app. split; [done|]. by constructor.
    - intros k Hk. rewrite length_app in Hk. cbn [length] in Hk.
      rewrite take_app_le by lia. apply Hdirs. lia. }
  assert (FS.open_w t1 here path = inr (q, <[q := File ""%string]> t1))
    as Hopen.
  { unfold FS.open_w. rewrite Hres.
    assert (∀ t, FS.node_at t q = t !! q) as Hat.
    { intros t. by destruct q. }
    rewrite Hat, (Hkeep q Hfresh).
    destruct (w_fs w !! q) as [[text|]|] eqn:Hnode; [done|done|].
    - assert (removelast q = here ++ dirs) as ->.
      { subst q. by rewrite app_assoc, removelast_last. }
      specialize (Hdirs (length dirs) ltac:(lia)).
      rewrite firstn_all in Hdirs. by rewrite Hdirs. }
  eexists. split.
  { apply file_store_write_success.
    exists t1, q, (<[q := File ""%string]> t1).
    rewrite Hdir. by split_and!. }
  cbn [w_fs]. rewrite insert_insert_eq. split_and!.
  - intros k Hk. rewrite node_at_insert_ne; [by apply Hdirs| |done].
    intros Heq. by apply (Hfresh k Hk).
  - apply lookup_insert_eq.
  - intros q' Hq' Hother. rewrite lookup_insert_ne by done. by apply Hkeep.
Qed.

Lemma error_is_not_success (detail : string) :
  "Error writing file content: " +:+ detail
  ≠ "File written successfully."%string.
Proof. done. Qed.

(** The write branch of the dispatch is the File Store write with one line
    printed in between. *)
Lemma dispatch_write a c o tc ms w members file_path content :
  tc_name tc = "write_file_content" →
  json_loads P (tc_arguments tc) = Some (JObject members) →
  assoc "file_path" members = Some (JString file_path) →
  assoc "content" members = Some content →
  dispatch P a c o tc ms w =
    let full_path := PosixPath.join o file_path in
    bind (os_makedirs P (PosixPath.dirname full_path))
      (λ _, bind (print ("Writing / Updating the contents to " +:+ full_path))
      (λ _, bind (write_file_content P full_path content)
      (λ response_msg,
         ret (ms ++ [ToolMsg (tc_id tc) "write_file_content" response_msg]))))
      w.
Proof.
  intros Hname Hdoc Hpath Hcontent.
  unfold dispatch, loads, tool_message, append. rewrite Hdoc, Hname.
  unfold bind at 1, ret at 1. cbn [bool_decide decide_rel].
  rewrite bool_decide_eq_false_2 by done.
  rewrite bool_decide_eq_true_2 by done.
  unfold subscript. rewrite Hpath, Hcontent.
  unfold bind at 1, ret at 1. unfold os_path_join, bind at 1, ret at 1.
  cbv zeta. unfold bind. destruct (os_makedirs _ _ _) as [[[]|e|] w1]; try done.
Qed.

End FileStore.

(** ** Batch Driver *)

Section Sorting.

Context {A : Type}.

Implicit Types (x : Z * A) (l : list (Z * A)).

Lemma insert_by_key_perm x l : Py.insert_by_key x l ≡ₚ x :: l.
Proof.
  induction l as [|y l IH]; [done|]. simpl.
  destruct (x.1 <=? y.1)%Z; [done|].
  rewrite IH. apply perm_swap.
Qed.

Lemma sorted_by_key_perm l : Py.sorted_by_key l ≡ₚ l.
Proof.
  induction l as [|x l IH]; [done|].
  unfold Py.sorted_by_key in *. simpl.
  by rewrite insert_by_key_perm, IH.
Qed.

Lemma insert_by_key_sorted x l :
  StronglySorted key_le l → StronglySorted key_le (Py.insert_by_key x l).
Proof.
  induction 1 as [|y l Hl IH Hy]; simpl.
  - by repeat constructor.
  - destruct (x.1 <=? y.1)%Z eqn:Hxy.
    + apply Z.leb_le in Hxy. constructor; [by constructor|].
      constructor; [done|].
      eapply Forall_impl; [done|]. unfold key_le. intros z Hz. simpl in *. lia.
    + apply Z.leb_gt in Hxy. constructor; [done|].
      rewrite insert_by_key_perm. constructor; [|done].
      unfold key_le. lia.
Qed.

Lemma sorted_by_key_sorted l : StronglySorted key_le (Py.sorted_by_key l).
Proof.
  induction l as [|x l IH]; [constructor|].
  by apply insert_by_key_sorted.
Qed.

End Sorting.

Section Ordinals.

Lemma digit_plain c :
  is_Some (Py.digit c) →
  Py.is_int_space c = false ∧ c ≠ "+"%char ∧ c ≠ "-"%char.
Proof.
  intros [d Hd]. revert Hd.
  destruct c as [[] [] [] [] [] [] [] []]; by vm_compute.
Qed.

Lemma all_digits_cons c s :
  all_digits (String c s) = true → is_Some (Py.digit c) ∧ all_digits s = true.
Proof.
  simpl. intros [Hc Hs]%andb_true_iff. by apply bool_decide_eq_true in Hc.
Qed.

Lemma rstrip_digits s :
  all_digits s = true → Py.rstrip Py.is_int_space s = s.
Proof.
  induction s as [|c s IH]; [done|].
  intros [Hc Hs]%all_digits_cons. cbn [Py.rstrip]. rewrite (IH Hs).
  destruct s; [|done].
  by destruct (digit_plain c Hc) as (-> & _).
Qed.

Lemma digits_is_Some s acc :
  all_digits s = true → is_Some (Py.digits acc s).
Proof.
  revert acc. induction s as [|c s IH]; intros acc; [by eexists|].
  intros [[d Hd] Hs]%all_digits_cons. cbn [Py.digits]. rewrite Hd. by apply IH.
Qed.

(** [int] reads a string of decimal digits as its value. *)
Lemma int_digits s :
  s ≠ ""%string → all_digits s = true → Py.int s = Some (decimal_value s).
Proof.
  intros Hne Hs. unfold Py.int. rewrite (rstrip_digits _ Hs).
  destruct s as [|c s]; [done|].
  destruct (all_digits_cons _ _ Hs) as [Hc Hs'].
  destruct (digit_plain c Hc) as (Hsp & Hplus & Hminus).
  cbn [Py.lstrip]. rewrite Hsp.
  unfold decimal_value.
  destruct (digits_is_Some (String c s) 0 Hs) as [v Hv]. rewrite Hv. simpl.
  assert (Py.unsigned (String c s) = Some v) as Hu.
  { unfold Py.unsigned. by destruct Hc as [d ->]. }
  destruct c as [[] [] [] [] [] [] [] []]; done.
Qed.

Lemma has_ordinal_int x :
  has_ordinal x = true →
  Py.int (Str.first_field Str.underscore x) = Some (ordinal x).
Proof.
  unfold has_ordinal, ordinal.
  intros [[Hne Hd]%andb_true_iff _]%andb_true_iff.
  apply int_digits; [|done].
  by apply negb_true_iff, bool_decide_eq_false in Hne.
Qed.

End Ordinals.

Section Driver.

Context {svc : Type} (P : platform svc).

Implicit Types (w : world svc) (files : list string).

Lemma keyed_ordinals files w :
  Forall (λ x, has_ordinal x = true) files →
  keyed files w = (Ret (with_ordinal <$> files), w).
Proof.
  induction 1 as [|x files Hx _ IH]; [done|].
  cbn [keyed]. unfold bind at 1, ordinal_key.
  rewrite (has_ordinal_int _ Hx). unfold ret at 1.
  unfold bind at 1. by rewrite IH.
Qed.

Lemma sorted_names_perm files :
  (Py.sorted_by_key (with_ordinal <$> files)).*2 ≡ₚ files.
Proof.
  rewrite sorted_by_key_perm, <- list_fmap_compose.
  by rewrite <- (list_fmap_id files) at 2.
Qed.

Lemma sorted_names_sorted files :
  StronglySorted ordinal_le
    (Py.sorted_by_key (with_ordinal <$> files)).*2.
Proof.
  assert (Forall (λ p, p.1 = ordinal p.2)
            (Py.sorted_by_key (with_ordinal <$> files))) as Hkeys.
  { rewrite sorted_by_key_perm. by apply Forall_fmap, Forall_true. }
  pose proof (sorted_by_key_sorted (with_ordinal <$> files)) as Hsorted.
  induction Hsorted as [|p l _ IH Hp]; [constructor|].
  apply Forall_cons in Hkeys as [Hk Hkeys].
  cbn [fmap list_fmap]. constructor; [by apply IH|].
  apply Forall_fmap.
  assert (Forall (λ q, key_le p q ∧ q.1 = ordinal q.2) l) as Hboth
    by (by apply Forall_and).
  eapply Forall_impl; [exact Hboth|].
  unfold key_le, ordinal_le. intros q [Hpq Hq]. simpl. rewrite <- Hk, <- Hq.
  done.
Qed.

(** The listing comes back as it is, sorted by ordinal. *)
Lemma list_artifact_files_sorted directory files w :
  FS.listdir (w_fs w) (cwd P) directory = inr files →
  Forall (λ x, has_ordinal x = true) files →
  list_artifact_files P directory w =
    (Ret (Py.sorted_by_key (with_ordinal <$> files)).*2, w).
Proof.
  intros Hls Hord.
  cbv beta iota zeta delta
    [list_artifact_files try_except os_listdir get_fs lift_os bind ret].
  rewrite Hls. cbv beta iota. by rewrite keyed_ordinals.
Qed.

Lemma filter_quiet evs :
  Forall (λ ev, is_processing ev = false) evs →
  List.filter is_processing evs = [].
Proof.
  induction 1 as [|ev evs Hev _ IH]; [done|]. simpl. by rewrite Hev.
Qed.

Lemma is_processing_line x :
  is_processing (EvPrint (processing_line x)) = true.
Proof. done. Qed.

(** One artifact: the announcement, then nothing that looks like one; the
    body never lets an exception through. *)
Lemma process_one_log fuel args x w :
  ∃ evs,
    w_log (process_one P fuel args x w).2
      = w_log w ++ EvPrint (processing_line x) :: evs
    ∧ Forall (λ ev, is_processing ev = false) evs
    ∧ (∀ e, (process_one P fuel args x w).1 ≠ Raise e)
    ∧ (arg_ignore_failed args = true →
       (process_one P fuel args x w).1 ≠ Ret false).
Proof.
  unfold process_one.
  set (w1 := World (w_fs w) (w_svc w) (w_draws w)
               (w_log w ++ [EvPrint (processing_line x)])).
  match goal with
  | |- context [try_except ?m ?c ?h] =>
      set (body := m); set (handler := h)
  end.
  change (bind _ _ w) with (try_except body any_Exception handler w1).
  assert (respects quiet (try_except body any_Exception handler)) as Hq.
  { pose proof (quiet_process_artifact P). pose proof (quiet_create_git_commit P).
    pose proof (quiet_read_file_content P).
    subst body handler.
    frame; destruct (arg_ignore_failed args); simpl; frame. }
  assert (returns (λ b, b = true) body) as Hr.
  { subst body. do 3 (apply returns_bind; intros ?). by apply returns_ret. }
  destruct (Hq w1) as (evs & Hlog & Hevs).
  exists evs. split_and!.
  - rewrite Hlog. subst w1. simpl. by rewrite <- app_assoc.
  - done.
  - intros e. unfold try_except.
    destruct (body w1) as [[b|e'|] w2]; simpl; [done| |done].
    subst handler. unfold bind, print, emit.
    destruct (arg_ignore_failed args); done.
  - intros Hig. unfold try_except.
    destruct (body w1) as [[b|e'|] w2] eqn:Hbody; simpl; [| |done].
    + apply Hr in Hbody as ->. done.
    + subst handler. unfold bind, print, emit. rewrite Hig. done.
Qed.

(** The loop announces the files of its list in order, and stops at most
    early. *)
Lemma for_artifacts_order fuel args files w :
  ∃ evs processed,
    w_log (for_artifacts P fuel args files w).2 = w_log w ++ evs
    ∧ List.filter is_processing evs
        = (λ x, EvPrint (processing_line x)) <$> processed
    ∧ processed `prefix_of` files
    ∧ (arg_ignore_failed args = true →
       (for_artifacts P fuel args files w).1 ≠ OutOfFuel →
       processed = files).
Proof.
  revert w. induction files as [|x files IH]; intros w.
  - exists [], []. simpl. by rewrite app_nil_r.
  - cbn [for_artifacts]. unfold bind.
    destruct (process_one_log fuel args x w) as (evs1 & Hlog & Hq & Hnr & Hig).
    destruct (process_one P fuel args x w) as [[go_on|e|] w1]; simpl in *.
    + destruct go_on.
      * destruct (IH w1) as (evs & processed & Hlog' & Hf & Hpre & Hall).
        exists ((EvPrint (processing_line x) :: evs1) ++ evs), (x :: processed).
        rewrite Hlog', Hlog, <- app_assoc. split_and!; [done| | |].
        -- rewrite List.filter_app. cbn [List.filter].
           rewrite is_processing_line, (filter_quiet _ Hq), Hf. done.
        -- by apply prefix_cons.
        -- intros ??. f_equal. by apply Hall.
      * exists (EvPrint (processing_line x) :: evs1), [x].
        split_and!; [done| | |].
        -- cbn [List.filter]. by rewrite is_processing_line, (filter_quiet _ Hq).
        -- apply prefix_cons, prefix_nil.
        -- intros Hi _. by destruct (Hig Hi).
    + by destruct (Hnr e).
    + exists (EvPrint (processing_line x) :: evs1), [x].
      split_and!; [done| | |done].
      * cbn [List.filter]. by rewrite is_processing_line, (filter_quiet _ Hq).
      * apply prefix_cons, prefix_nil.
Qed.

Lemma main_eq fuel args w :
  main P fuel args w = bind (prelude P args) (λ _, batch P fuel args) w.
Proof.
  unfold main, prelude, batch, bind.
  destruct (ensure_empty_directory _ _ w) as [[[]|e|] w1]; [|done..].
  destruct (os_makedirs _ _ w1) as [[[]|e|] w2]; [|done..].
  by destruct (initialize_git_repo _ _ w2) as [[[]|e|] w3].
Qed.

Lemma quiet_prelude args : respects quiet (prelude P args).
Proof.
  pose proof (quiet_os_makedirs P). pose proof (quiet_run_process P).
  unfold prelude, ensure_empty_directory, initialize_git_repo, run_checked,
    os_path_exists, os_listdir.
  frame.
Qed.

(** A non-empty output directory stops [main] at once, the world as it
    was. *)
Lemma main_refuses_nonempty fuel args x rest w :
  FS.listdir (w_fs w) (cwd P) (arg_output args) = inr (x :: rest) →
  main P fuel args w =
    (Raise (Exception_
              ("Output directory '" +:+ arg_output args
               +:+ "' is not empty. Please provide an empty directory.")),
     w).
Proof.
  intros Hls.
  assert (FS.exists_ (w_fs w) (cwd P) (arg_output args) = true) as Hex.
  { unfold FS.exists_. unfold FS.listdir in Hls.
    destruct (FS.resolve _ _ _) as [e|q]; [done|].
    destruct (FS.node_at _ q); [|done]. by apply bool_decide_eq_true. }
  cbv beta iota zeta delta
    [main ensure_empty_directory os_path_exists os_listdir get_fs lift_os
     bind ret raise].
  rewrite Hex. cbv beta iota. by rewrite Hls.
Qed.

End Driver.

(** ** Agent Loop *)

Section Loop.

Context {svc : Type} (P : platform svc).

Implicit Types (w : world svc) (ms : list message) (μ : svc → nat).

(** The policy hands over an answer or a failure, never nothing; under a
    winding-down service the measure follows. *)
Lemma retry_measure μ r :
  winds_down P μ →
  ∀ n a w, a + S n = max_retries →
    let run := retry_attempts P (chat_completions_create P r) (seq a (S n)) w in
    μ (w_svc run.2) ≤ μ (w_svc w)
    ∧ match run.1 with
      | Ret (Some m) =>
          requested_calls m ≠ [] → μ (w_svc run.2) < μ (w_svc w)
      | Ret None | OutOfFuel => False
      | Raise _ => True
      end.
Proof.
  intros Hμ n. induction n as [|n IH]; intros a w Ha; cbv zeta.
  - change (seq a 1) with [a].
    rewrite retry_attempts_cons by (unfold max_retries in Ha; lia).
    cbv zeta.
    destruct (Hμ (w_svc w) r) as [Hle Hlt].
    destruct ((create P (w_svc w) r).1) as [e|m].
    + assert (a = 4) as -> by (unfold max_retries in Ha; lia).
      rewrite andb_false_r. done.
    + cbn [fst snd w_svc]. split; [done|]. by apply Hlt.
  - change (seq a (S (S n))) with (a :: seq (S a) (S n)).
    rewrite retry_attempts_cons by (unfold max_retries in Ha; lia).
    cbv zeta.
    destruct (Hμ (w_svc w) r) as [Hle Hlt].
    destruct ((create P (w_svc w) r).1) as [e|m].
    2: { cbn [fst snd w_svc]. split; [done|]. by apply Hlt. }
    destruct (is_OpenAIError e && negb (a =? max_retries - 1)%nat); [|done].
    set (w1 := World _ _ _ _).
    destruct (IH (S a) w1) as [Hle' Hres]; [unfold max_retries in *; lia|].
    change (w_svc w1) with (create P (w_svc w) r).2 in *.
    split; [lia|].
    destruct (retry_attempts _ _ _ w1).1 as [[m|]|e'|]; try done.
    intros Hm. specialize (Hres Hm). lia.
Qed.

(** One pass, spelled out on the outcome of the policy. *)
Lemma turn_eq a c o model ms w :
  turn P a c o model ms w =
    match retry_openai_request P
            (chat_completions_create P (Request model ms tools)) w with
    | (Ret (Some m), w1) =>
        match requested_calls m with
        | [] =>
            (Ret (false, ms ++ [AssistantMsg m]),
             World (w_fs w1) (w_svc w1) (w_draws w1)
               (w_log w1 ++ [EvPrint no_call_line]))
        | tcs =>
            match dispatch_all P a c o tcs (ms ++ [AssistantMsg m]) w1 with
            | (Ret ms1, w2) => (Ret (true, ms1), w2)
            | (Raise e, w2) => (Raise e, w2)
            | (OutOfFuel, w2) => (OutOfFuel, w2)
            end
        end
    | (Ret None, w1) =>
        (Raise (AttributeError
                  "'NoneType' object has no attribute 'choices'"), w1)
    | (Raise e, w1) => (Raise e, w1)
    | (OutOfFuel, w1) => (OutOfFuel, w1)
    end.
Proof.
  unfold turn. unfold bind at 1.
  destruct (retry_openai_request _ _ w) as [[[m|]|e|] w1]; try done.
  unfold message_of, bind at 1, ret at 1. cbv zeta.
  destruct (requested_calls m) as [|tc tcs]; [done|].
  unfold bind, append.
  by destruct (dispatch_all _ _ _ _ _ _ w1) as [[ms1|e|] w2].
Qed.

Lemma turn_measure μ a c o model ms w :
  winds_down P μ →
  let run := turn P a c o model ms w in
  run.1 ≠ OutOfFuel
  ∧ ∀ ms', run.1 = Ret (true, ms') → μ (w_svc run.2) < μ (w_svc w).
Proof.
  intros Hμ. cbv zeta. split; [apply total_turn|].
  rewrite turn_eq. unfold retry_openai_request.
  destruct (retry_measure μ (Request model ms tools) Hμ 4 0 w eq_refl)
    as [_ Hres].
  cbv zeta in Hres. change (seq 0 5) with (seq 0 max_retries) in Hres.
  destruct (retry_attempts _ _ _ w) as [[[m|]|e|] w1]; cbn [fst snd] in *;
    try done.
  destruct (requested_calls m) as [|tc tcs] eqn:Hcalls; [done|].
  pose proof (offline_dispatch_all P a c o (tc :: tcs)
                (ms ++ [AssistantMsg m]) w1) as Hoff.
  unfold offline in Hoff.
  destruct (dispatch_all _ _ _ _ _ _ w1) as [[ms1|e|] w2]; cbn [fst snd] in *;
    try done.
  intros _ _. rewrite Hoff. by apply Hres.
Qed.

(** Under a winding-down service the loop stops within as many passes as
    the measure of the service allows, plus one. *)
Lemma agent_loop_terminates μ a c o model :
  winds_down P μ →
  ∀ fuel ms w, μ (w_svc w) < fuel →
    (agent_loop P fuel a c o model ms w).1 ≠ OutOfFuel.
Proof.
  intros Hμ fuel. induction fuel as [|fuel IH]; intros ms w Hfuel; [lia|].
  cbn [agent_loop]. unfold bind.
  destruct (turn_measure μ a c o model ms w Hμ) as [Htot Hlt].
  destruct (turn P a c o model ms w) as [[[go_on ms1]|e|] w1]; simpl in *;
    try done.
  destruct go_on; [|done].
  apply IH. specialize (Hlt ms1 eq_refl). lia.
Qed.

(** A pass that bids the loop stop has just appended an assistant response
    without requests. *)
Lemma turn_stops a c o model ms :
  returns
    (λ step, step.1 = false →
             ∃ m, step.2 = ms ++ [AssistantMsg m] ∧ requested_calls m = [])
    (turn P a c o model ms).
Proof.
  unfold turn. apply returns_bind. intros response.
  apply returns_bind. intros m. cbv zeta.
  destruct (requested_calls m) eqn:Hcalls.
  - apply returns_bind. intros _. apply returns_ret. by exists m.
  - apply returns_bind. intros ms1. by apply returns_ret.
Qed.

(** The loop returns only on an assistant response without requests: the
    transcript it returns ends with one. *)
Lemma agent_loop_done fuel a c o model ms :
  returns
    (λ ms', ∃ m, last ms' = Some (AssistantMsg m) ∧ requested_calls m = [])
    (agent_loop P fuel a c o model ms).
Proof.
  revert ms. induction fuel as [|fuel IH]; intros ms; [done|].
  cbn [agent_loop]. intros w ms' w'. unfold bind.
  destruct (turn P a c o model ms w) as [[[go_on ms1]|e|] w1] eqn:Hturn;
    [|done..].
  destruct go_on; simpl; [by apply IH|].
  intros [= <- _]. apply turn_stops in Hturn. simpl in Hturn.
  destruct Hturn as (m & -> & Hm); [done|].
  exists m. by rewrite last_snoc.
Qed.

(** A response without requests ends the loop in the pass that receives
    it. *)
Lemma agent_loop_stops_at_once fuel a c o model ms w m :
  (create P (w_svc w) (Request model ms tools)).1 = inr m →
  requested_calls m = [] →
  agent_loop P (S fuel) a c o model ms w =
    (Ret (ms ++ [AssistantMsg m]),
     World (w_fs w) (create P (w_svc w) (Request model ms tools)).2
       (w_draws w)
       (w_log w ++ [EvCreate (Request model ms tools); EvPrint no_call_line])).
Proof.
  intros Hm Hcalls. cbn [agent_loop]. unfold bind at 1.
  rewrite turn_eq. unfold retry_openai_request.
  change (seq 0 max_retries) with (0 :: seq 1 4).
  rewrite retry_attempts_cons, Hm by lia. cbv beta iota zeta.
  rewrite Hcalls. cbn [fst snd].
  unfold ret. cbn [w_fs w_svc w_draws w_log]. by rewrite <- app_assoc.
Qed.

(** A benign request is dispatched without a failure and without a call of
    the decision service. *)
(** The passes that went on are passes of the loop. *)
Lemma agent_loop_passes a c o model n :
  ∀ fuel ms w ms_n w_n,
    passes P n a c o model ms w = Some (ms_n, w_n) →
    agent_loop P (n + fuel) a c o model ms w
      = agent_loop P fuel a c o model ms_n w_n.
Proof.
  induction n as [|n IH]; intros fuel ms w ms_n w_n Hn.
  - by injection Hn as <- <-.
  - cbn [passes] in Hn. cbn [Nat.add agent_loop]. unfold bind at 1.
    destruct (turn P a c o model ms w) as [[[[|] ms1]|e|] w1]; try done.
    by apply IH.
Qed.

(** The loop uses its fuel up exactly when every pass went on. *)
Lemma agent_loop_out_of_fuel a c o model fuel :
  ∀ ms w,
    (agent_loop P fuel a c o model ms w).1 = OutOfFuel
    ↔ is_Some (passes P fuel a c o model ms w).
Proof.
  induction fuel as [|fuel IH]; intros ms w.
  - cbn [agent_loop passes]. by split.
  - cbn [agent_loop passes]. unfold bind at 1.
    pose proof (total_turn P a c o model ms w) as Htot.
    destruct (turn P a c o model ms w) as [[[[|] ms1]|e|] w1];
      cbn [fst snd] in *.
    + apply IH.
    + split; [done|]. by intros [? [=]].
    + split; [done|]. by intros [? [=]].
    + done.
Qed.

(** A pass ends the loop when the policy brings back a response without
    requests or raises; it goes on only on a response with requests. *)
Lemma turn_by_policy a c o model ms w :
  let policy := retry_openai_request P
                  (chat_completions_create P (Request model ms tools)) in
  (∀ m, (policy w).1 = Ret (Some m) → requested_calls m = [] →
     turn P a c o model ms w =
       (Ret (false, ms ++ [AssistantMsg m]),
        World (w_fs (policy w).2) (w_svc (policy w).2) (w_draws (policy w).2)
          (w_log (policy w).2 ++ [EvPrint no_call_line])))
  ∧ (∀ e, (policy w).1 = Raise e →
       turn P a c o model ms w = (Raise e, (policy w).2))
  ∧ (∀ ms', (turn P a c o model ms w).1 = Ret (true, ms') →
       ∃ m, (policy w).1 = Ret (Some m) ∧ requested_calls m ≠ []).
Proof.
  cbv zeta. rewrite turn_eq.
  destruct (retry_openai_request _ _ w) as [[[m|]|e|] w1]; cbn [fst snd].
  - split_and!.
    + intros ? [= <-] ->. done.
    + done.
    + intros ms' Hgo. exists m. split; [done|]. intros Hm.
      by rewrite Hm in Hgo.
  - by split_and!; [done|intros ? [= <-]|].
  - by split_and!; [done|intros ? [= <-]|].
  - by split_and!.
Qed.

(** A failure that is no [OpenAIError] leaves the policy at once. *)
Lemma retry_other_failure r w e :
  (create P (w_svc w) r).1 = inl e →
  is_OpenAIError e = false →
  retry_openai_request P (chat_completions_create P r) w =
    (Raise e,
     World (w_fs w) (create P (w_svc w) r).2 (w_draws w)
       (w_log w ++ [EvCreate r])).
Proof.
  intros He Hother. unfold retry_openai_request.
  change (seq 0 max_retries) with (0 :: seq 1 4).
  rewrite retry_attempts_cons, He by lia. cbv beta iota zeta.
  by rewrite Hother.
Qed.

(** Whatever the decision service is: when, after [n] passes that went
    on, the policy brings back a response without requests, the loop
    returns the transcript with that response; when the policy raises, the
    loop raises the same. *)
Lemma agent_loop_ends a c o model n ms w ms_n w_n :
  passes P n a c o model ms w = Some (ms_n, w_n) →
  let policy := retry_openai_request P
                  (chat_completions_create P (Request model ms_n tools)) in
  (∀ m, (policy w_n).1 = Ret (Some m) → requested_calls m = [] →
     ∀ fuel, n < fuel →
       agent_loop P fuel a c o model ms w =
         (Ret (ms_n ++ [AssistantMsg m]),
          World (w_fs (policy w_n).2) (w_svc (policy w_n).2)
            (w_draws (policy w_n).2)
            (w_log (policy w_n).2 ++ [EvPrint no_call_line])))
  ∧ (∀ e, (policy w_n).1 = Raise e →
       ∀ fuel, n < fuel →
         agent_loop P fuel a c o model ms w = (Raise e, (policy w_n).2)).
Proof.
  intros Hn policy.
  destruct (turn_by_policy a c o model ms_n w_n) as (Hdone & Hraise & _).
  split.
  - intros m Hm Hcalls fuel Hfuel.
    replace fuel with (n + S (fuel - S n)) by lia.
    rewrite (agent_loop_passes _ _ _ _ _ _ _ _ _ _ Hn).
    cbn [agent_loop]. unfold bind at 1.
    by rewrite (Hdone m Hm Hcalls).
  - intros e He fuel Hfuel.
    replace fuel with (n + S (fuel - S n)) by lia.
    rewrite (agent_loop_passes _ _ _ _ _ _ _ _ _ _ Hn).
    cbn [agent_loop]. unfold bind at 1.
    by rewrite (Hraise e He).
Qed.

Lemma dispatch_benign a c o tc ms w :
  benign P tc →
  ∃ ms' w' evs,
    dispatch P a c o tc ms w = (Ret ms', w')
    ∧ w_svc w' = w_svc w
    ∧ w_log w' = w_log w ++ evs ∧ calls evs = 0.
Proof.
  intros (v & Hv & Hnw & Hread).
  destruct (decide (tc_name tc = "read_file_content"%string)) as [Hr|Hr].
  - destruct (Hread Hr) as (members & file_path & -> & Hpath).
    rewrite (dispatch_read P a c o tc ms w members file_path Hr Hv Hpath).
    case_bool_decide.
    + eexists _, _, []. by rewrite app_nil_r.
    + by eexists _, _, [_; _].
  - rewrite (dispatch_unknown_operation P a c o tc ms w v Hv).
    + eexists _, _, []. by rewrite app_nil_r.
    + unfold known_operation. by rewrite !bool_decide_eq_false_2.
Qed.

Lemma dispatch_all_benign a c o tcs ms w :
  Forall (benign P) tcs →
  ∃ ms' w' evs,
    dispatch_all P a c o tcs ms w = (Ret ms', w')
    ∧ w_svc w' = w_svc w
    ∧ w_log w' = w_log w ++ evs ∧ calls evs = 0.
Proof.
  intros Hall. revert ms w.
  induction Hall as [|tc tcs Htc _ IH]; intros ms w.
  - eexists _, _, []. by rewrite app_nil_r.
  - cbn [dispatch_all]. unfold bind.
    destruct (dispatch_benign a c o tc ms w Htc)
      as (ms1 & w1 & evs1 & -> & Hs1 & Hl1 & Hc1).
    destruct (IH ms1 w1) as (ms2 & w2 & evs2 & -> & Hs2 & Hl2 & Hc2).
    exists ms2, w2, (evs1 ++ evs2).
    rewrite Hl2, Hl1, app_assoc, calls_app, Hc1, Hc2, Hs2, Hs1. done.
Qed.

(** Against a service that insists, every pass costs one call and bids the
    loop go on: whatever the fuel, the loop uses it up. *)
Lemma agent_loop_unbounded a c o model :
  insists P →
  ∀ fuel ms w, ∃ w' evs,
    agent_loop P fuel a c o model ms w = (OutOfFuel, w')
    ∧ w_log w' = w_log w ++ evs ∧ calls evs = fuel.
Proof.
  intros Hins fuel. induction fuel as [|fuel IH]; intros ms w.
  - exists w, []. by rewrite app_nil_r.
  - cbn [agent_loop]. unfold bind at 1.
    rewrite turn_eq. unfold retry_openai_request.
    change (seq 0 max_retries) with (0 :: seq 1 4).
    rewrite retry_attempts_cons by lia. cbv zeta.
    destruct (Hins (w_svc w) (Request model ms tools)) as (m & -> & Hne & Hb).
    cbv beta iota zeta.
    destruct (requested_calls m) as [|tc tcs] eqn:Hcalls; [done|].
    set (w1 := World _ _ _ _).
    destruct (dispatch_all_benign a c o (tc :: tcs)
                (ms ++ [AssistantMsg m]) w1 Hb)
      as (ms1 & w2 & evs1 & -> & Hs & Hl & Hc).
    cbn [fst snd].
    destruct (IH ms1 w2) as (w3 & evs2 & -> & Hl3 & Hc3).
    exists w3, ([EvCreate (Request model ms tools)] ++ evs1 ++ evs2).
    split; [done|]. rewrite Hl3, Hl. subst w1. cbn [w_log].
    rewrite <- !app_assoc. split; [done|].
    rewrite !calls_app, Hc, Hc3. done.
Qed.

End Loop.

(** * The claims *)

Section Claims.

Context {svc : Type} (P : platform svc).

Implicit Types (w : world svc) (r : request) (ms : list message).

(** C3. Against a decision service that fails every call transiently, the
    wrapped call fails after exactly five attempts; the failure raised is
    the one of the fifth attempt, unchanged; four delays are slept, and
    the last thing that happens is the fifth call, not a delay. *)
Theorem C3_always_failing_exhausts_budget r w :
  (∀ s, ∃ k detail,
      (create P s r).1 = inl (OpenAIError k detail) ∧ transient k = true) →
  ∃ evs e,
    retry_openai_request P (chat_completions_create P r) w =
      (Raise e,
       World (w_fs w) (svc_after P r 5 (w_svc w)) (w_draws w + 4)
         (w_log w ++ evs))
    ∧ (create P (svc_after P r 4 (w_svc w)) r).1 = inl e
    ∧ transient_failure e = true
    ∧ calls evs = 5
    ∧ length (sleeps evs) = 4
    ∧ last evs = Some (EvCreate r).
Proof.
  intros Hfail.
  destruct (retry_exhausts P r) with (n := 4) (a := 0) (w := w)
    as (evs & e & Hrun & He & Hcalls & Hsleeps & Hlast); [|done|].
  { intros s. destruct (Hfail s) as (k & detail & -> & _). by eexists. }
  exists evs, e. split_and!; try done.
  destruct (Hfail (svc_after P r 4 (w_svc w))) as (k & detail & Hk & Htr).
  rewrite Hk in He. by injection He as <-.
Qed.

(** C2, as amended. A failure of the decision service is passed on at once,
    after one call and no sleep, exactly when it is not an [OpenAIError];
    an [OpenAIError] of any kind, permanent ones included, is followed by
    a backoff sleep and another call. *)
Theorem C2_only_other_failures_surface_at_once r w e :
  (create P (w_svc w) r).1 = inl e →
  (is_OpenAIError e = false →
     retry_openai_request P (chat_completions_create P r) w =
       (Raise e,
        World (w_fs w) (create P (w_svc w) r).2 (w_draws w)
          (w_log w ++ [EvCreate r])))
  ∧ (is_OpenAIError e = true →
     ∃ d evs,
       w_log (retry_openai_request P (chat_completions_create P r) w).2 =
         w_log w ++ [EvCreate r; EvPrint (retry_line P d); EvSleep d;
                     EvCreate r] ++ evs).
Proof.
  intros He. unfold retry_openai_request.
  change (seq 0 max_retries) with (0 :: 1 :: seq 2 3).
  rewrite retry_attempts_cons, He by lia. cbv zeta.
  split; intros ->; [done|].
  cbn [andb negb Nat.eqb max_retries Nat.sub].
  set (d := backoff_delay _ _ _). set (w1 := World _ _ _ _).
  exists d. rewrite retry_attempts_cons by lia. cbv zeta.
  destruct ((create P (w_svc w1) r).1) as [e'|m].
  2: { exists []. subst w1. cbn [snd w_log]. by rewrite <- app_assoc. }
  destruct (is_OpenAIError e' && _).
  2: { exists []. subst w1. cbn [snd w_log]. by rewrite <- app_assoc. }
  set (w2 := World _ _ _ _).
  destruct (quiet_retry_attempts P r (seq 2 3) w2) as (evs & -> & _).
  eexists. subst w2 w1. cbn [w_log]. rewrite <- !app_assoc. done.
Qed.

(** C4. Delays are binary64 floats, computed as the program computes
    them: the integer [2^i] is converted to a float, which is exact for
    [0 <= i <= 1023], and the jitter [j], drawn from the unit interval,
    is added by float addition, rounding to nearest.  With that reading
    of the sum, [exponential_backoff] returns [min(2^i + j, 60)], which is
    at most the cap [60.0] and at least [min(2^i, 60)]; from attempt 1024
    on the conversion of [2^i] overflows and the function raises.  The
    Retry Policy sleeps once less than it calls, and the delay it sleeps
    before retry [i + 1] is that [min(2^i + j, 60)] for the jitter drawn
    then, within the same bounds. *)
Theorem C4_backoff_delays r w :
  (∀ n, unit_interval (uniform P n)) →
  (∀ attempt, (0 <= attempt <= 1023)%Z →
     let j := uniform P (w_draws w) in
     let d := Float.min (Float.add (exp2 attempt) j) Float.sixty in
     Float.of_int (2 ^ attempt) = Some (exp2 attempt)
     ∧ exponential_backoff P attempt Float.sixty w =
         (Ret d, World (w_fs w) (w_svc w) (S (w_draws w)) (w_log w))
     ∧ Float.leb d Float.sixty = true
     ∧ Float.leb (Float.min (exp2 attempt) Float.sixty) d = true)
  ∧ (∀ attempt cap, (1024 <= attempt)%Z →
       exponential_backoff P attempt cap w =
         (Raise (OverflowError "int too large to convert to float"),
          World (w_fs w) (w_svc w) (S (w_draws w)) (w_log w)))
  ∧ ∃ evs,
      w_log (retry_openai_request P (chat_completions_create P r) w).2
        = w_log w ++ evs
      ∧ length (sleeps evs) = calls evs - 1
      ∧ ∀ i d, sleeps evs !! i = Some d →
          let j := uniform P (w_draws w + i) in
          d = Float.min (Float.add (exp2 (Z.of_nat i)) j) Float.sixty
          ∧ Float.leb d Float.sixty = true
          ∧ Float.leb (Float.min (exp2 (Z.of_nat i)) Float.sixty) d = true.
Proof.
  intros Hj. split_and!.
  - intros attempt Ha. cbv zeta.
    destruct (backoff_bounds attempt _ Ha (Hj (w_draws w)))
      as (_ & _ & Hcap & Hlow & _).
    split_and!; [by apply of_int_exp2| |done|done].
    by rewrite exponential_backoff_eq.
  - intros attempt cap Ha. by apply exponential_backoff_overflow.
  - unfold retry_openai_request.
    destruct (retry_sleeps P r max_retries 0 w) as (evs & Hlog & Hsl);
      [unfold max_retries; lia|].
    destruct (retry_bounded P r 4 0 w eq_refl)
      as (evs' & Hlog' & _ & Hn & Hlen & _). cbv zeta in Hlog'.
    change (seq 0 5) with (seq 0 max_retries) in Hlog'.
    rewrite Hlog in Hlog'. apply app_inv_head in Hlog' as <-.
    exists evs. split; [done|]. split; [done|]. intros i d Hd.
    assert (i < length (sleeps evs)) as Hi by by eapply lookup_lt_Some.
    rewrite Hsl, list_lookup_fmap in Hd.
    rewrite lookup_seq_lt in Hd by done. simpl in Hd. injection Hd as <-.
    cbv zeta.
    destruct (backoff_bounds (Z.of_nat i) _ ltac:(lia) (Hj (w_draws w + i)))
      as (_ & _ & Hcap & Hlow & _).
    done.
Qed.

(** C5. A read request whose [file_path] is the artifact's own base name is
    answered with the artifact content held in memory, and nothing is
    opened or logged; for any other [file_path] the content is read from
    [os.path.join(output_directory, file_path)].  The content held in
    memory is the one [process_artifact] read before the loop. *)
Theorem C5_own_artifact_read_from_memory
    a c o tc ms w members file_path :
  tc_name tc = "read_file_content"%string →
  json_loads P (tc_arguments tc) = Some (JObject members) →
  assoc "file_path" members = Some (JString file_path) →
  (file_path = PosixPath.basename a →
     dispatch P a c o tc ms w =
       (Ret (ms ++ [ToolMsg (tc_id tc) "read_file_content" c]), w))
  ∧ (file_path ≠ PosixPath.basename a →
     let full_path := PosixPath.join o file_path in
     dispatch P a c o tc ms w =
       (Ret (ms ++ [ToolMsg (tc_id tc) "read_file_content"
                      match FS.read_text (w_fs w) (cwd P) full_path with
                      | inr text => text
                      | inl code =>
                          "Error reading file content: "
                          +:+ str_exc P (OSError code full_path)
                      end]),
        World (w_fs w) (w_svc w) (w_draws w)
          (w_log w ++ [EvPrint ("Reading the contents from " +:+ full_path);
                       EvOpenRead full_path])))
  ∧ (∀ fuel model,
       process_artifact P fuel a o model w =
         bind (read_file_content P a)
           (λ content,
              bind (agent_loop P fuel a content o model
                      (initial_messages P a content))
                (λ _, print ("Processed " +:+ PosixPath.basename a)))
           w).
Proof.
  intros Hname Hdoc Hpath.
  rewrite (dispatch_read P a c o tc ms w members file_path Hname Hdoc Hpath).
  split_and!; [| |done].
  - intros Heq. by rewrite bool_decide_eq_true_2.
  - intros Hne. by rewrite bool_decide_eq_false_2.
Qed.


(** C7. When the output directory exists and has an entry, [main] raises
    the non-empty-directory error and leaves the world as it was: nothing
    is logged, so there is no call of the Agent Loop or the decision
    service, and the file system is untouched. *)
Theorem C7_nonempty_output_stops_batch fuel args x rest w :
  FS.exists_ (w_fs w) (cwd P) (arg_output args) = true →
  FS.listdir (w_fs w) (cwd P) (arg_output args) = inr (x :: rest) →
  main P fuel args w =
    (Raise (Exception_
              ("Output directory '" +:+ arg_output args
               +:+ "' is not empty. Please provide an empty directory.")),
     w).
Proof. intros _. apply main_refuses_nonempty. Qed.


(** C9. Whatever the decision service is, and whatever it remembers:
    when, after [n] passes in which it asked for operations, the Retry
    Policy brings back a response without requests, the Agent Loop returns
    in pass [n + 1] with that response last in the transcript; when the
    policy raises, as it does at once on a failure that is no
    [OpenAIError], the loop raises the same failure.  A pass goes on only
    on a response that carries requests, and the loop returns only on a
    response without requests; such a response ends it in the very pass
    that receives it.  The loop has no bound of its own: it uses up any
    number of passes exactly when each of them went on, as it does against
    a service that always asks, one call of the service per pass.  A
    service whose answers with requests lower a measure of its state is
    one case of a service that stops asking. *)
Theorem C9_agent_loop_termination a c o model :
  (∀ n ms w ms_n w_n,
     passes P n a c o model ms w = Some (ms_n, w_n) →
     let policy := retry_openai_request P
                     (chat_completions_create P (Request model ms_n tools)) in
     (∀ m, (policy w_n).1 = Ret (Some m) → requested_calls m = [] →
        ∀ fuel, n < fuel →
          agent_loop P fuel a c o model ms w =
            (Ret (ms_n ++ [AssistantMsg m]),
             World (w_fs (policy w_n).2) (w_svc (policy w_n).2)
               (w_draws (policy w_n).2)
               (w_log (policy w_n).2 ++ [EvPrint no_call_line])))
     ∧ (∀ e, (policy w_n).1 = Raise e →
          ∀ fuel, n < fuel →
            agent_loop P fuel a c o model ms w = (Raise e, (policy w_n).2))
     ∧ (∀ e,
          (create P (w_svc w_n) (Request model ms_n tools)).1 = inl e →
          is_OpenAIError e = false →
          (policy w_n).1 = Raise e))
  ∧ (∀ ms w ms',
       (turn P a c o model ms w).1 = Ret (true, ms') →
       ∃ m,
         (retry_openai_request P
            (chat_completions_create P (Request model ms tools)) w).1
           = Ret (Some m)
         ∧ requested_calls m ≠ [])
  ∧ (∀ fuel ms w,
       (agent_loop P fuel a c o model ms w).1 = OutOfFuel
       ↔ is_Some (passes P fuel a c o model ms w))
  ∧ (∀ μ, winds_down P μ →
     ∀ fuel ms w, μ (w_svc w) < fuel →
       (agent_loop P fuel a c o model ms w).1 ≠ OutOfFuel)
  ∧ (∀ fuel ms w ms' w',
       agent_loop P fuel a c o model ms w = (Ret ms', w') →
       ∃ m, last ms' = Some (AssistantMsg m) ∧ requested_calls m = [])
  ∧ (∀ fuel ms w m,
       (create P (w_svc w) (Request model ms tools)).1 = inr m →
       requested_calls m = [] →
       agent_loop P (S fuel) a c o model ms w =
         (Ret (ms ++ [AssistantMsg m]),
          World (w_fs w) (create P (w_svc w) (Request model ms tools)).2
            (w_draws w)
            (w_log w ++ [EvCreate (Request model ms tools);
                         EvPrint no_call_line])))
  ∧ (insists P →
     ∀ fuel ms w, ∃ w' evs,
       agent_loop P fuel a c o model ms w = (OutOfFuel, w')
       ∧ w_log w' = w_log w ++ evs ∧ calls evs = fuel).
Proof.
  split_and!.
  - intros n ms w ms_n w_n Hn policy.
    destruct (agent_loop_ends P a c o model n ms w ms_n w_n Hn)
      as [Hdone Hraise].
    split_and!; [done|done|].
    intros e He Hother. subst policy.
    by rewrite (retry_other_failure P _ _ e He Hother).
  - intros ms w ms'. apply (turn_by_policy P a c o model ms w).
  - intros fuel ms w. apply agent_loop_out_of_fuel.
  - intros μ Hμ. by apply agent_loop_terminates.
  - intros fuel ms w ms' w'. apply agent_loop_done.
  - intros fuel ms w m. apply agent_loop_stops_at_once.
  - intros Hins. by apply agent_loop_unbounded.
Qed.

(** C10, as amended. The path dispatched to the File Store is
    [os.path.join(output_directory, file_path)].  For an absolute
    [file_path] the join is that path itself, wherever it points.  For a
    relative [file_path] without a dot-dot component the target lies under
    the output directory. *)
Theorem C10_join_confines_plain_relative_paths
    a c o tc ms w members file_path :
  json_loads P (tc_arguments tc) = Some (JObject members) →
  assoc "file_path" members = Some (JString file_path) →
  (tc_name tc = "read_file_content"%string →
   file_path ≠ PosixPath.basename a →
   reads (w_log (dispatch P a c o tc ms w).2)
     = reads (w_log w) ++ [PosixPath.join o file_path])
  ∧ (tc_name tc = "write_file_content"%string →
     ∀ content, assoc "content" members = Some content →
     dispatch P a c o tc ms w =
       let full_path := PosixPath.join o file_path in
       bind (os_makedirs P (PosixPath.dirname full_path))
         (λ _, bind (print ("Writing / Updating the contents to "
                            +:+ full_path))
         (λ _, bind (write_file_content P full_path content)
         (λ response_msg,
            ret (ms ++ [ToolMsg (tc_id tc) "write_file_content"
                          response_msg]))))
         w)
  ∧ (PosixPath.isabs file_path = true →
     PosixPath.join o file_path = file_path)
  ∧ (PosixPath.isabs file_path = false →
     Forall (λ name, FS.is_dotdot name = false)
       (PosixPath.components file_path) →
     ∀ t root q,
       FS.resolve t (cwd P) o = inr root →
       FS.resolve t (cwd P) (PosixPath.join o file_path) = inr q →
       root `prefix_of` q).
Proof.
  intros Hdoc Hpath. split_and!.
  - intros Hname Hne.
    rewrite (dispatch_read P a c o tc ms w members file_path Hname Hdoc Hpath).
    rewrite bool_decide_eq_false_2 by done. cbn [snd w_log].
    by rewrite reads_app.
  - intros Hname content Hcontent. by apply dispatch_write with members.
  - apply join_absolute.
  - intros Hrel Hdots t root q. by apply resolve_join_under.
Qed.

End Claims.

(** * Concrete runs *)

Import Fixture.

(** C1. A request for an operation outside the catalog gets no result: the
    service asks for [delete_file] under the identifier [call_1], the loop
    appends nothing for it, and the next transcript submitted to the
    service answers no identifier at all. *)
Theorem C1_unknown_operation_unanswered :
  let P := platform_of (scripted [asks [delete_call]]) in
  let run := agent_loop P 3 "in/2_demo.js" "// a.js" "out" "gpt" [] world0 in
  known_operation delete_call = false
  ∧ run.1 = Ret [AssistantMsg (AssistantMessage None (Some [delete_call]));
                 AssistantMsg (AssistantMessage (Some "done"%string) None)]
  ∧ submitted (w_log run.2)
      = [[]; [AssistantMsg (AssistantMessage None (Some [delete_call]))]]
  ∧ answered <$> submitted (w_log run.2) = [[]; []].
Proof. by vm_compute. Qed.

(** C2, as stated, fails: a bad request is a permanent failure, and the
    policy still calls five times and sleeps four times before it passes
    the failure on. *)
Lemma C2_permanent_failure_is_retried :
  let e := OpenAIError BadRequestError "invalid request" in
  let P := platform_of (failing e) in
  let run := retry_openai_request P (chat_completions_create P ask) world0 in
  permanent_failure e = true
  ∧ run.1 = Raise e
  ∧ calls (w_log run.2) = 5
  ∧ length (sleeps (w_log run.2)) = 4
  ∧ ¬ (calls (w_log run.2) = 1 ∧ sleeps (w_log run.2) = []).
Proof. split_and!; try by vm_compute. vm_compute. by intros [[=] _]. Qed.

Lemma C2_witness :
  let e := TypeError "unexpected keyword argument" in
  let P := platform_of (failing e) in
  (create P (w_svc world0) ask).1 = inl e
  ∧ is_OpenAIError e = false
  ∧ retry_openai_request P (chat_completions_create P ask) world0 =
      (Raise e,
       World (w_fs world0) (create P (w_svc world0) ask).2 (w_draws world0)
         (w_log world0 ++ [EvCreate ask])).
Proof.
  intros e P. split; [reflexivity|]. split; [reflexivity|].
  apply (C2_only_other_failures_surface_at_once P ask world0 e);
    reflexivity.
Defined.

Lemma C3_witness :
  let P := platform_of (failing (OpenAIError APITimeoutError "timed out")) in
  (∀ s, ∃ k detail,
      (create P s ask).1 = inl (OpenAIError k detail) ∧ transient k = true)
  ∧ ∃ evs e,
      retry_openai_request P (chat_completions_create P ask) world0 =
        (Raise e,
         World (w_fs world0) (svc_after P ask 5 (w_svc world0))
           (w_draws world0 + 4) (w_log world0 ++ evs))
      ∧ (create P (svc_after P ask 4 (w_svc world0)) ask).1 = inl e
      ∧ transient_failure e = true
      ∧ calls evs = 5
      ∧ length (sleeps evs) = 4
      ∧ last evs = Some (EvCreate ask).
Proof.
  intros P.
  assert (∀ s, ∃ k detail,
             (create P s ask).1 = inl (OpenAIError k detail)
             ∧ transient k = true) as Hfail.
  { intros s. exists APITimeoutError, "timed out"%string. split; reflexivity. }
  split; [exact Hfail|].
  exact (C3_always_failing_exhausts_budget P ask world0 Hfail).
Defined.

(** The floats of the policy: sixty, one, a power of two; and a sum that
    rounds, [8 + 2^-53] being [8]. *)
Example float_constants :
  Float.of_Z 60 = Float.sixty ∧ Float.of_Z 1 = Float.one
  ∧ Float.of_Z 8 = exp2 3 ∧ Float.of_Z 0 = Float.zero
  ∧ Float.add (exp2 3) (Float.exp2_neg (-53)) = exp2 3.
Proof. by vm_compute. Qed.

Lemma C4_witness :
  let P := platform_of (failing (OpenAIError RateLimitError "slow down")) in
  let run := retry_openai_request P (chat_completions_create P ask) world0 in
  (∀ n, unit_interval (uniform P n))
  ∧ length (sleeps (w_log run.2)) = 4
  ∧ ∃ evs,
      w_log run.2 = w_log world0 ++ evs
      ∧ length (sleeps evs) = calls evs - 1
      ∧ ∀ i d, sleeps evs !! i = Some d →
          let j := uniform P (w_draws world0 + i) in
          d = Float.min (Float.add (exp2 (Z.of_nat i)) j) Float.sixty
          ∧ Float.leb d Float.sixty = true
          ∧ Float.leb (Float.min (exp2 (Z.of_nat i)) Float.sixty) d = true.
Proof.
  intros P run.
  assert (∀ n, unit_interval (uniform P n)) as Hj.
  { intros n. split_and!; reflexivity. }
  split; [exact Hj|]. split; [vm_compute; reflexivity|].
  exact (proj2 (proj2 (C4_backoff_delays P ask world0 Hj))).
Defined.

Lemma C5_witness :
  let tc := ToolCall "call_1" "read_file_content" (doc_read "2_demo.js") in
  let members := [("file_path"%string, JString "2_demo.js")] in
  tc_name tc = "read_file_content"%string
  ∧ json_loads done_service (tc_arguments tc) = Some (JObject members)
  ∧ assoc "file_path" members = Some (JString "2_demo.js")
  ∧ "2_demo.js"%string = PosixPath.basename "in/2_demo.js"
  ∧ dispatch done_service "in/2_demo.js" "// a.js" "out" tc [] world0 =
      (Ret [ToolMsg "call_1" "read_file_content" "// a.js"], world0).
Proof.
  intros tc members.
  assert (tc_name tc = "read_file_content"%string) as Hname by reflexivity.
  assert (json_loads done_service (tc_arguments tc) = Some (JObject members))
    as Hdoc by reflexivity.
  assert (assoc "file_path" members = Some (JString "2_demo.js")) as Hpath
    by reflexivity.
  split; [exact Hname|]. split; [exact Hdoc|]. split; [exact Hpath|].
  split; [reflexivity|].
  exact (proj1 (C5_own_artifact_read_from_memory done_service "in/2_demo.js"
                  "// a.js" "out" tc [] world0 members "2_demo.js"
                  Hname Hdoc Hpath) eq_refl).
Defined.


(** [write_file_content] alone makes no directory. *)
Example write_file_content_needs_parent :
  (write_file_content done_service "out/src/a.js" (JString "x") world0).1 =
    Ret "Error writing file content: [Errno 2] No such file or directory: 'out/src/a.js'"%string.
Proof. by vm_compute. Qed.


Lemma C7_witness :
  let w := World (<[ ["work"; "out"; "old.txt"]%string := File "x" ]> tree0)
             0 0 [] in
  let args := Args "in" "out" "gpt" false in
  FS.exists_ (w_fs w) (cwd done_service) "out" = true
  ∧ FS.listdir (w_fs w) (cwd done_service) "out" = inr ["old.txt"%string]
  ∧ main done_service 3 args w =
      (Raise (Exception_ "Output directory 'out' is not empty. Please provide an empty directory."),
       w).
Proof.
  intros w args.
  assert (FS.exists_ (w_fs w) (cwd done_service) "out" = true) as Hex
    by (vm_compute; reflexivity).
  assert (FS.listdir (w_fs w) (cwd done_service) "out"
          = inr ["old.txt"%string]) as Hls
    by (vm_compute; reflexivity).
  split; [exact Hex|]. split; [exact Hls|].
  exact (C7_nonempty_output_stops_batch done_service 3 args "old.txt" []
           w Hex Hls).
Defined.

(** The listing is sorted by the value of the ordinal, not as text: [10]
    comes after [2]. *)
Example list_artifact_files_numeric :
  (list_artifact_files done_service "in" (World tree_three 0 0 [])).1
    = Ret ["1_a.js"; "2_b.js"; "10_c.js"]%string.
Proof. by vm_compute. Qed.


(** No measure of its state winds [by_transcript] down: its state never
    changes, and to an empty transcript it answers with a request. *)
Example by_transcript_has_no_measure μ :
  ¬ winds_down (platform_of by_transcript) μ.
Proof.
  intros Hμ. destruct (Hμ 0 ask) as [_ Hlt].
  specialize (Hlt _ eq_refl). simpl in Hlt.
  specialize (Hlt ltac:(discriminate)). lia.
Qed.

Lemma C9_witness :
  let P := platform_of by_transcript in
  let Q := platform_of insistent in
  let read_call := ToolCall "call_1" "read_file_content"
                     (doc_read "2_demo.js") in
  let ms1 := [AssistantMsg (AssistantMessage None (Some [read_call]));
              ToolMsg "call_1" "read_file_content" "// a.js"] in
  let w1 := World tree0 0 0 [EvCreate (Request "gpt" [] tools)] in
  let done := AssistantMessage (Some "done"%string) None in
  let policy := retry_openai_request P
                  (chat_completions_create P (Request "gpt" ms1 tools)) in
  passes P 1 "in/2_demo.js" "// a.js" "out" "gpt" [] world0 = Some (ms1, w1)
  ∧ (policy w1).1 = Ret (Some done)
  ∧ requested_calls done = []
  ∧ agent_loop P 7 "in/2_demo.js" "// a.js" "out" "gpt" [] world0 =
      (Ret (ms1 ++ [AssistantMsg done]),
       World (w_fs (policy w1).2) (w_svc (policy w1).2)
         (w_draws (policy w1).2)
         (w_log (policy w1).2 ++ [EvPrint no_call_line]))
  ∧ insists Q
  ∧ ∃ w' evs,
      agent_loop Q 7 "in/2_demo.js" "// a.js" "out" "gpt" [] world0
        = (OutOfFuel, w')
      ∧ w_log w' = w_log world0 ++ evs ∧ calls evs = 7.
Proof.
  intros P Q read_call ms1 w1 done policy.
  assert (passes P 1 "in/2_demo.js" "// a.js" "out" "gpt" [] world0
          = Some (ms1, w1)) as Hn by (vm_compute; reflexivity).
  assert ((policy w1).1 = Ret (Some done)) as Hm by (vm_compute; reflexivity).
  assert (requested_calls done = []) as Hcalls by reflexivity.
  assert (insists Q) as Hins.
  { intros s r. eexists. split; [reflexivity|]. split; [discriminate|].
    constructor; [|constructor].
    eexists. split; [reflexivity|]. split; discriminate. }
  destruct (C9_agent_loop_termination P "in/2_demo.js" "// a.js" "out" "gpt")
    as (Hstop & _).
  destruct (C9_agent_loop_termination Q "in/2_demo.js" "// a.js" "out" "gpt")
    as (_ & _ & _ & _ & _ & _ & Hgo).
  split; [exact Hn|]. split; [exact Hm|]. split; [exact Hcalls|].
  split.
  { apply (proj1 (Hstop 1 [] world0 ms1 w1 Hn) done Hm Hcalls 7). lia. }
  split; [exact Hins|]. exact (Hgo Hins 7 [] world0).
Defined.

(** C10, as stated, fails: a relative path with a dot-dot component leaves
    the output directory. *)
Lemma C10_relative_path_escapes :
  let tc := ToolCall "call_1" "write_file_content"
              (doc_write "../escape.txt" "x") in
  let run := dispatch done_service "in/2_demo.js" "// a.js" "out" tc []
               world0 in
  PosixPath.isabs "../escape.txt" = false
  ∧ run.1 = Ret [ToolMsg "call_1" "write_file_content"
                   "File written successfully."]
  ∧ FS.resolve (w_fs run.2) (cwd done_service) "out"
      = inr ["work"; "out"]%string
  ∧ w_fs run.2 !! ["work"; "escape.txt"]%string = Some (File "x")
  ∧ ¬ (["work"; "out"] `prefix_of` ["work"; "escape.txt"])%string.
Proof.
  split_and!; try by vm_compute. by intros [k [=]].
Qed.

Lemma C10_witness :
  let tc := ToolCall "call_1" "write_file_content"
              (doc_write "src/a.js" "hi") in
  let members := [("file_path"%string, JString "src/a.js");
                  ("content"%string, JString "hi")] in
  json_loads done_service (tc_arguments tc) = Some (JObject members)
  ∧ assoc "file_path" members = Some (JString "src/a.js")
  ∧ PosixPath.isabs "src/a.js" = false
  ∧ ∀ t root q,
      FS.resolve t (cwd done_service) "out" = inr root →
      FS.resolve t (cwd done_service) (PosixPath.join "out" "src/a.js")
        = inr q →
      root `prefix_of` q.
Proof.
  intros tc members. split; [reflexivity|]. split; [reflexivity|].
  split; [reflexivity|].
  destruct (C10_join_confines_plain_relative_paths done_service
              "in/2_demo.js" "// a.js" "out" tc [] world0 members "src/a.js")
    as (_ & _ & _ & Hunder); [reflexivity..|].
  apply Hunder; [reflexivity|]. repeat constructor.
Defined.


Example join_relative_ex : PosixPath.join "out" "src/a.js" = "out/src/a.js"%string.
Proof. reflexivity. Qed.
Example join_trailing_ex : PosixPath.join "out/" "a.js" = "out/a.js"%string.
Proof. reflexivity. Qed.
Example join_absolute_ex :
PosixPath.join "out" "/etc/passwd" = "/etc/passwd"%string.
Proof. reflexivity. Qed.
Example basename_ex : PosixPath.basename "in/2_demo.js" = "2_demo.js"%string.
Proof. reflexivity. Qed.
Example dirname_ex : PosixPath.dirname "out/src/a.js" = "out/src"%string.
Proof. reflexivity. Qed.
Example dirname_root_ex : PosixPath.dirname "/a" = "/"%string.
Proof. reflexivity. Qed.
Example dirname_none_ex : PosixPath.dirname "a.js" = ""%string.
Proof. reflexivity. Qed.
Example first_field_ex :
Str.first_field Str.underscore "10_a_b.js" = "10"%string.
Proof. reflexivity. Qed.
Example int_ex : Py.int " 042 " = Some 42%Z ∧ Py.int "-7" = Some (-7)%Z
               ∧ Py.int "" = None ∧ Py.int "readme" = None
               ∧ Py.int "1_000" = Some 1000%Z ∧ Py.int "1__0" = None
               ∧ Py.int (String "028" "5") = None
               ∧ Py.strip (String "028" "5") = "5"%string.
Proof. by vm_compute. Qed.

(** [os.makedirs] goes component by component: the directories made before
    the one that fails stay, and the failure names the path up to there. *)
Example makedirs_keeps_what_it_made :
  FS.makedirs_run tree0 ["work"]%string "out/new/../../in/2_demo.js/x/y"
    = (<[ ["work"; "out"; "new"]%string := Dir ]> tree0,
       Some (ENOTDIR, "out/new/../../in/2_demo.js/x"%string)).
Proof. reflexivity. Qed.


(** * Further properties of the program *)

(** ** File Store and dispatch: failures *)

Section StoreFailures.

Context {svc : Type} (P : platform svc).

Implicit Types (w : world svc) (t : FS.tree) (ms : list message).

(** The write branch up to the point where the content is looked up. *)
Lemma dispatch_write_steps a c o tc ms w members file_path :
  tc_name tc = "write_file_content"%string →
  json_loads P (tc_arguments tc) = Some (JObject members) →
  assoc "file_path" members = Some (JString file_path) →
  dispatch P a c o tc ms w =
    let full_path := PosixPath.join o file_path in
    bind (os_makedirs P (PosixPath.dirname full_path))
      (λ _, bind (print ("Writing / Updating the contents to " +:+ full_path))
      (λ _, bind (subscript (JObject members) "content")
      (λ content, bind (write_file_content P full_path content)
      (λ response_msg,
         ret (ms ++ [ToolMsg (tc_id tc) "write_file_content" response_msg])))))
      w.
Proof.
  intros Hname Hdoc Hpath.
  unfold dispatch, loads, tool_message, append. rewrite Hdoc, Hname.
  unfold bind at 1, ret at 1. cbn [bool_decide decide_rel].
  rewrite bool_decide_eq_false_2 by done.
  rewrite bool_decide_eq_true_2 by done.
  unfold subscript at 1. rewrite Hpath.
  unfold bind at 1, ret at 1. unfold os_path_join, bind at 1, ret at 1.
  done.
Qed.

(** X1. The File Store absorbs its failures.  A read always returns a text,
    the content or an error message, and changes nothing but the log; a
    write always returns the success message or an error message, whatever
    the path and whatever JSON value it is given as content. *)
Theorem file_store_absorbs_failures path content w :
  (∃ text,
     read_file_content P path w =
       (Ret text,
        World (w_fs w) (w_svc w) (w_draws w) (w_log w ++ [EvOpenRead path]))
     ∧ (FS.read_text (w_fs w) (cwd P) path = inr text
        ∨ has_prefix "Error reading file content: " text = true))
  ∧ (∃ text w',
       write_file_content P path content w = (Ret text, w')
       ∧ (text = "File written successfully."%string
          ∨ has_prefix "Error writing file content: " text = true)
       ∧ w_svc w' = w_svc w
       ∧ w_log w' = w_log w ++ [EvOpenWrite path]).
Proof.
  split.
  - rewrite read_file_content_eq.
    destruct (FS.read_text _ _ _) as [code|text]; eexists; (split; [done|]);
      [by right|by left].
  - rewrite write_file_content_cases. cbv zeta.
    destruct (FS.open_w _ _ _) as [code|[q t']].
    { eexists _, _. split; [done|]. split_and!; [by right|done..]. }
    destruct content as [| | |text| |];
      try (eexists _, _; split; [done|]; split_and!; [by right|done..]).
    destruct (encodable P text); eexists _, _; (split; [done|]);
      split_and!; try done; [by left|by right].
Qed.

(** X2. A write that fails after the file was opened leaves the file empty:
    when the content is not a string, or is a text the codec cannot encode,
    [write_file_content] reports an error and what the file held before is
    gone. *)
Theorem failed_write_leaves_file_empty path content w q t' :
  FS.open_w (w_fs w) (cwd P) path = inr (q, t') →
  match content with
  | JString text => encodable P text = false
  | _ => True
  end →
  ∃ detail w',
    write_file_content P path content w =
      (Ret ("Error writing file content: " +:+ detail), w')
    ∧ w_fs w' = <[q := File ""%string]> (w_fs w)
    ∧ w_fs w' !! q = Some (File ""%string).
Proof.
  intros Hopen Hbad. rewrite write_file_content_cases, Hopen. cbv zeta.
  destruct (open_w_inv _ _ _ _ _ Hopen) as (Hq & -> & _).
  destruct content as [| | |text| |]; try rewrite Hbad;
    eexists _, _; (split; [done|]); cbn [w_fs];
    (split; [done|apply lookup_insert_eq]).
Qed.

(** X3. A write changes at most one node of the file system, the file it
    opens; every other path keeps what it held. *)
Theorem write_touches_one_node path content w :
  ∃ q, ∀ q', q' ≠ q →
    w_fs (write_file_content P path content w).2 !! q' = w_fs w !! q'.
Proof.
  rewrite write_file_content_cases. cbv zeta.
  destruct (FS.open_w _ _ _) as [code|[q t']] eqn:Hopen; [by exists []|].
  destruct (open_w_inv _ _ _ _ _ Hopen) as (Hq & -> & _).
  exists q. intros q' Hne.
  destruct content as [| | |text| |]; try destruct (encodable P text);
    cbn [snd w_fs]; by rewrite ?lookup_insert_ne by done.
Qed.


(** X5. Arguments that do not decode are fatal to the dispatch whatever the
    operation asked for, an unknown one included: [json.loads] raises before
    the name is looked at, nothing is logged or appended, and the requests
    after it are not dispatched. *)
Theorem undecodable_arguments_abort_dispatch a c o tc rest ms w :
  json_loads P (tc_arguments tc) = None →
  dispatch_all P a c o (tc :: rest) ms w =
    (Raise (JSONDecodeError (tc_arguments tc)), w).
Proof.
  intros Hdoc. cbn [dispatch_all]. unfold bind at 1, dispatch, loads.
  rewrite Hdoc. done.
Qed.

(** X6. A request for a catalog operation whose arguments lack [file_path]
    raises [KeyError] with nothing done. *)
Theorem missing_path_aborts_dispatch a c o tc rest ms w members :
  known_operation tc = true →
  json_loads P (tc_arguments tc) = Some (JObject members) →
  assoc "file_path" members = None →
  dispatch_all P a c o (tc :: rest) ms w = (Raise (KeyError "file_path"), w).
Proof.
  intros Hknown Hdoc Hpath. cbn [dispatch_all]. unfold bind at 1.
  unfold dispatch, loads. rewrite Hdoc. unfold bind at 1, ret at 1.
  unfold known_operation in Hknown. cbv zeta.
  destruct (bool_decide (tc_name tc = "read_file_content"%string)).
  - unfold subscript, bind at 1. by rewrite Hpath.
  - simpl in Hknown. rewrite Hknown. unfold subscript, bind at 1.
    by rewrite Hpath.
Qed.

(** X7. A write request without [content] fails only after its directories
    were made: [KeyError] is raised, no file is opened and no result is
    appended, but the directories [os.makedirs] created stay. *)
Theorem write_without_content_keeps_directories
    a c o tc ms w members file_path t1 :
  tc_name tc = "write_file_content"%string →
  json_loads P (tc_arguments tc) = Some (JObject members) →
  assoc "file_path" members = Some (JString file_path) →
  assoc "content" members = None →
  FS.makedirs (w_fs w) (cwd P)
    (PosixPath.dirname (PosixPath.join o file_path)) = inr t1 →
  dispatch P a c o tc ms w =
    (Raise (KeyError "content"),
     World t1 (w_svc w) (w_draws w)
       (w_log w
        ++ [EvMakedirs (PosixPath.dirname (PosixPath.join o file_path));
            EvPrint ("Writing / Updating the contents to "
                     +:+ PosixPath.join o file_path)])).
Proof.
  intros Hname Hdoc Hpath Hcontent Hmk.
  rewrite (dispatch_write_steps a c o tc ms w members file_path Hname Hdoc
             Hpath).
  cbv zeta. unfold bind at 1. rewrite os_makedirs_eq, Hmk. cbv zeta.
  unfold bind at 1, print, emit. cbn [w_fs w_svc w_draws w_log].
  unfold bind at 1, subscript. rewrite Hcontent. unfold raise.
  by rewrite <- app_assoc.
Qed.

End StoreFailures.

(** ** Retry Policy *)

Section RetryMore.

Context {svc : Type} (P : platform svc).

Implicit Types (w : world svc) (r : request) (evs : list event).


Lemma retry_succeeds r m k :
  ∀ n a w, a + n = max_retries → k < n →
    (∀ i, i < k →
       ∃ e, (create P (svc_after P r i (w_svc w)) r).1 = inl e
            ∧ is_OpenAIError e = true) →
    (create P (svc_after P r k (w_svc w)) r).1 = inr m →
    ∃ evs,
      retry_attempts P (chat_completions_create P r) (seq a n) w =
        (Ret (Some m),
         World (w_fs w) (svc_after P r (S k) (w_svc w)) (w_draws w + k)
           (w_log w ++ evs))
      ∧ calls evs = S k
      ∧ length (sleeps evs) = k
      ∧ last evs = Some (EvCreate r).
Proof.
  induction k as [|k IH]; intros n a w Ha Hk Hfail Hm.
  - destruct n as [|n]; [lia|]. change (seq a (S n)) with (a :: seq (S a) n).
    rewrite retry_attempts_cons by (unfold max_retries in Ha; lia).
    simpl in Hm. rewrite Hm. cbv zeta.
    exists [EvCreate r]. by rewrite Nat.add_0_r.
  - destruct n as [|n]; [lia|]. change (seq a (S n)) with (a :: seq (S a) n).
    rewrite retry_attempts_cons by (unfold max_retries in Ha; lia).
    destruct (Hfail 0) as (e & He & Hcls); [lia|]. simpl in He.
    rewrite He, Hcls.
    assert ((a =? max_retries - 1) = false) as ->
      by (apply Nat.eqb_neq; unfold max_retries in *; lia).
    cbn [andb negb]. cbv zeta.
    set (d := backoff_delay _ _ _). set (w1 := World _ _ _ _).
    destruct (IH n (S a) w1) as (evs & Hrun & Hcalls & Hsleeps & Hlast).
    + lia.
    + lia.
    + intros i Hi. apply (Hfail (S i)). lia.
    + exact Hm.
    + exists ([EvCreate r; EvPrint (retry_line P d); EvSleep d] ++ evs).
      rewrite Hrun. subst w1. cbn [w_fs w_svc w_draws w_log]. split_and!.
      * f_equal. f_equal; first [lia | by rewrite <- app_assoc].
      * rewrite calls_app, Hcalls. done.
      * rewrite sleeps_app, length_app, Hsleeps. done.
      * rewrite last_app, Hlast. done.
Qed.

(** X8. A call that fails [k] times with an [OpenAIError], [k] at most four,
    and then succeeds is answered: the policy returns that answer after
    [k + 1] calls and [k] sleeps, the last thing done being the call that
    succeeded. *)
Theorem retry_succeeds_after_failures r w k m :
  k < 5 →
  (∀ i, i < k →
     ∃ e, (create P (svc_after P r i (w_svc w)) r).1 = inl e
          ∧ is_OpenAIError e = true) →
  (create P (svc_after P r k (w_svc w)) r).1 = inr m →
  ∃ evs,
    retry_openai_request P (chat_completions_create P r) w =
      (Ret (Some m),
       World (w_fs w) (svc_after P r (S k) (w_svc w)) (w_draws w + k)
         (w_log w ++ evs))
    ∧ calls evs = S k
    ∧ length (sleeps evs) = k
    ∧ last evs = Some (EvCreate r).
Proof.
  intros Hk Hfail Hm. by apply (retry_succeeds r m k 5 0 w).
Qed.

(** X9. One wrapped call costs between one and five calls of the decision
    service, each with the very same request, and one sleep and one random
    draw less than calls; it leaves the file system alone, and it never
    falls off its loop: the result is an answer or a failure, never
    [None]. *)
Theorem retry_is_bounded r w :
  let run := retry_openai_request P (chat_completions_create P r) w in
  ∃ evs,
    w_log run.2 = w_log w ++ evs
    ∧ 1 ≤ calls evs ∧ calls evs ≤ 5
    ∧ length (sleeps evs) = calls evs - 1
    ∧ w_draws run.2 = w_draws w + length (sleeps evs)
    ∧ requests evs = replicate (calls evs) r
    ∧ w_fs run.2 = w_fs w
    ∧ run.1 ≠ Ret None
    ∧ run.1 ≠ OutOfFuel.
Proof.
  cbv zeta. unfold retry_openai_request.
  destruct (retry_bounded P r 4 0 w eq_refl)
    as (evs & Hlog & H1 & Hn & Hsl & Hdr & Hreq & Hnone).
  exists evs. split_and!; try done.
  - apply (readonly_retry_attempts P r (seq 0 max_retries) w).
  - apply (total_retry_attempts P r (seq 0 max_retries) w).
Qed.

End RetryMore.

Section Backoff.

Context {svc : Type} (P : platform svc).

Implicit Types (w : world svc) (r : request).

(** X10. With five attempts the cap of sixty seconds never comes into
    play: a wrapped call sleeps four times at most, and with the jitter
    drawn from the unit interval the delay slept before retry [i + 1] is
    the float sum [2^i + j] itself, no less than [2^i] and no more than
    [2^i + 1], so none is longer than nine seconds. *)
Theorem backoff_stays_below_cap r w :
  (∀ n, unit_interval (uniform P n)) →
  ∃ evs,
    w_log (retry_openai_request P (chat_completions_create P r) w).2
      = w_log w ++ evs
    ∧ length (sleeps evs) ≤ 4
    ∧ ∀ i d, sleeps evs !! i = Some d →
        d = Float.add (exp2 (Z.of_nat i)) (uniform P (w_draws w + i))
        ∧ Float.leb (exp2 (Z.of_nat i)) d = true
        ∧ Float.leb d (Float.of_Z (2 ^ Z.of_nat i + 1)) = true
        ∧ Float.leb d (Float.of_Z 9) = true.
Proof.
  intros Hj. unfold retry_openai_request.
  destruct (retry_sleeps P r max_retries 0 w) as (evs & Hlog & Hsl);
    [unfold max_retries; lia|].
  destruct (retry_bounded P r 4 0 w eq_refl)
    as (evs' & Hlog' & _ & Hn & Hlen & _). cbv zeta in Hlog'.
  change (seq 0 5) with (seq 0 max_retries) in Hlog'.
  rewrite Hlog in Hlog'. apply app_inv_head in Hlog' as <-.
  assert (length (sleeps evs) ≤ 4) as Hfour by lia.
  exists evs. split; [done|]. split; [done|]. intros i d Hd.
  assert (i < length (sleeps evs)) as Hi by by eapply lookup_lt_Some.
  rewrite Hsl, list_lookup_fmap in Hd.
  rewrite lookup_seq_lt in Hd by done. simpl in Hd. injection Hd as <-.
  pose proof (Hj (w_draws w + i)) as Hji.
  destruct (backoff_bounds (Z.of_nat i) _ ltac:(lia) Hji)
    as (_ & Hlow & _ & _ & Hsum).
  pose proof (backoff_upper (Z.of_nat i) _ ltac:(lia) Hji) as Hup.
  cbv zeta in Hsum. unfold backoff_delay, default_max_delay.
  rewrite Hsum by lia. split_and!; [done..|].
  destruct (add_exp2 (Z.of_nat i) _ ltac:(lia) Hji)
    as (m2 & e2 & Hadd & Hm2 & He2).
  rewrite Hadd in *.
  assert (Float.of_Z 9 = S754_finite false 5066549580791808 (-49)) as ->
    by (vm_compute; reflexivity).
  apply leb_finite.
  assert (Zpos 5066549580791808 = 2 ^ 52 + 2 ^ (52 - 3))%Z as -> by done.
  destruct He2 as [[-> Hle]|(_ & -> & _)]; [|left; lia].
  destruct (decide (i = 3)) as [->|Hne].
  - right. split; [done|]. apply Hle. lia.
  - left. lia.
Qed.

End Backoff.

(** ** Batch Driver *)

Section DriverMore.

Context {svc : Type} (P : platform svc).

Implicit Types (w : world svc) (files : list string).

(** X11. An output directory that does not exist, or exists and is empty,
    passes the check: nothing is raised and nothing changes. *)
Theorem empty_or_missing_output_is_accepted directory w :
  FS.exists_ (w_fs w) (cwd P) directory = false
  ∨ FS.listdir (w_fs w) (cwd P) directory = inr [] →
  ensure_empty_directory P directory w = (Ret (), w).
Proof.
  intros Hcase.
  cbv beta iota zeta delta
    [ensure_empty_directory os_path_exists os_listdir get_fs lift_os bind ret].
  destruct (FS.exists_ (w_fs w) (cwd P) directory) eqn:Hex; [|done].
  destruct Hcase as [?|Hls]; [done|]. by rewrite Hls.
Qed.

(** X12. An output path that names a regular file is refused with the
    failure of [os.listdir], not with the message about a directory that is
    not empty; [main] stops there with the world as it was. *)
Theorem output_path_that_is_a_file_is_refused fuel args w q text :
  FS.resolve (w_fs w) (cwd P) (arg_output args) = inr q →
  FS.node_at (w_fs w) q = Some (File text) →
  main P fuel args w = (Raise (OSError ENOTDIR (arg_output args)), w).
Proof.
  intros Hq Hnode.
  cbv beta iota zeta delta
    [main ensure_empty_directory os_path_exists os_listdir get_fs lift_os
     bind ret raise FS.exists_ FS.listdir].
  rewrite Hq. cbv beta iota. rewrite Hnode.
  rewrite bool_decide_eq_true_2 by eauto. cbv beta iota. by rewrite Hq, Hnode.
Qed.

Lemma keyed_cases files w :
  (∃ pairs,
     keyed files w = (Ret pairs, w) ∧ pairs.*2 = files
     ∧ Forall (λ x, is_Some (Py.int (Str.first_field Str.underscore x)))
         files)
  ∨ (∃ bad,
       bad ∈ files
       ∧ Py.int (Str.first_field Str.underscore bad) = None
       ∧ keyed files w =
           (Raise (ValueError ("invalid literal for int() with base 10: "
                               +:+ Str.first_field Str.underscore bad)), w)).
Proof.
  induction files as [|x files IH].
  - left. by exists [].
  - cbn [keyed]. unfold ordinal_key.
    destruct (Py.int (Str.first_field Str.underscore x)) as [k|] eqn:Hk;
      cbv beta iota zeta delta [bind ret raise].
    + destruct IH as [(pairs & Hrun & Hp & Hall)|(bad & Hin & Hbad & Hrun)];
        rewrite Hrun.
      * left. exists ((k, x) :: pairs). split_and!; [done| |].
        -- by rewrite fmap_cons, Hp.
        -- constructor; [by rewrite Hk|done].
      * right. exists bad. split_and!; [by right|done..].
    + right. exists x. split_and!; [by left|done..].
Qed.

(** [list_artifact_files] always returns, in the world it was called in;
    when the directory cannot be listed it returns the message alone. *)
Lemma list_artifact_files_returns directory w :
  ∃ files,
    list_artifact_files P directory w = (Ret files, w)
    ∧ ∀ code,
        FS.listdir (w_fs w) (cwd P) directory = inl code →
        files = ["Error listing artifact files: "
                 +:+ str_exc P (OSError code directory)].
Proof.
  cbv beta iota zeta delta
    [list_artifact_files try_except os_listdir get_fs lift_os bind ret raise
     any_Exception].
  destruct (FS.listdir _ _ _) as [code|names].
  { eexists. split; [done|]. by intros ? [= ->]. }
  destruct (keyed_cases names w)
    as [(pairs & Hrun & Hp & _)|(bad & Hin & Hbad & Hrun)]; rewrite Hrun;
    by eexists.
Qed.

(** X13. The listing never raises and changes nothing.  When the directory
    cannot be listed what comes back is a list holding one text, the error
    message with the failure of [os.listdir]; when some name has no integer
    before its first underscore it is a list holding one text, the error
    message with a [ValueError]; and when every name has one it is a
    rearrangement of the names listed. *)
Theorem listing_absorbs_failures directory w :
  ∃ files,
    list_artifact_files P directory w = (Ret files, w)
    ∧ match FS.listdir (w_fs w) (cwd P) directory with
      | inl code =>
          files = ["Error listing artifact files: "
                   +:+ str_exc P (OSError code directory)]
      | inr names =>
          (Forall (λ x, is_Some (Py.int (Str.first_field Str.underscore x)))
             names →
           files ≡ₚ names)
          ∧ (∀ bad,
               bad ∈ names →
               Py.int (Str.first_field Str.underscore bad) = None →
               ∃ detail,
                 files = ["Error listing artifact files: "
                          +:+ str_exc P (ValueError detail)])
      end.
Proof.
  cbv beta iota zeta delta
    [list_artifact_files try_except os_listdir get_fs lift_os bind ret raise
     any_Exception].
  destruct (FS.listdir _ _ _) as [code|names]; [by eexists|].
  destruct (keyed_cases names w)
    as [(pairs & Hrun & Hp & Hall)|(bad & Hin & Hbad & Hrun)]; rewrite Hrun.
  - eexists. split; [done|]. split.
    + intros _. rewrite <- Hp.
      apply (fmap_Permutation snd), sorted_by_key_perm.
    + intros bad Hin Hbad. rewrite Forall_forall in Hall.
      destruct (Hall bad Hin) as [k Hk]. by rewrite Hbad in Hk.
  - eexists. split; [done|]. split.
    + intros Hall. rewrite Forall_forall in Hall.
      destruct (Hall bad Hin) as [k Hk]. by rewrite Hbad in Hk.
    + intros _ _ _. by eexists.
Qed.

Lemma process_artifact_opens_first fuel a o model w :
  ∃ evs,
    w_log (process_artifact P fuel a o model w).2
      = w_log w ++ EvOpenRead a :: evs.
Proof.
  unfold process_artifact. unfold bind at 1. rewrite read_file_content_eq.
  set (w1 := World _ _ _ _).
  match goal with
  | |- context [bind ?m ?k w1] =>
      assert (respects quiet (bind m k)) as Hq
  end.
  { apply respects_bind; [tc_solve|apply quiet_agent_loop|].
    intros _. unfold print. by apply quiet_emit. }
  destruct (Hq w1) as (evs & -> & _). exists evs. subst w1. cbn [w_log].
  by rewrite <- app_assoc.
Qed.

Lemma starts_bind {A B} ev (m : @M svc A) (k : A → @M svc B) :
  (∀ w, ∃ evs, w_log (m w).2 = w_log w ++ ev :: evs) →
  (∀ a, respects quiet (k a)) →
  ∀ w, ∃ evs, w_log (bind m k w).2 = w_log w ++ ev :: evs.
Proof.
  intros Hm Hk w. unfold bind. destruct (Hm w) as (evs & Hlog).
  destruct (m w) as [[a|e|] w1]; cbn [snd] in *; [|by exists evs..].
  destruct (Hk a w1) as (evs' & -> & _). exists (evs ++ evs').
  by rewrite Hlog, <- app_assoc.
Qed.

Lemma starts_try_except {A} ev (m : @M svc A) catches handler :
  (∀ w, ∃ evs, w_log (m w).2 = w_log w ++ ev :: evs) →
  (∀ e, respects quiet (handler e)) →
  ∀ w, ∃ evs,
    w_log (try_except m catches handler w).2 = w_log w ++ ev :: evs.
Proof.
  intros Hm Hh w. unfold try_except. destruct (Hm w) as (evs & Hlog).
  destruct (m w) as [[a|e|] w1]; cbn [snd] in *; [by exists evs| |by exists evs].
  destruct (catches e); [|by exists evs].
  destruct (Hh e w1) as (evs' & -> & _). exists (evs ++ evs').
  by rewrite Hlog, <- app_assoc.
Qed.

(** After its announcement, the first thing done for an artifact is to open
    its file. *)
Lemma process_one_opens_first fuel args x w :
  ∃ evs,
    w_log (process_one P fuel args x w).2 =
      w_log w ++ EvPrint (processing_line x)
              :: EvOpenRead (PosixPath.join (arg_input args) x) :: evs.
Proof.
  unfold process_one.
  set (w1 := World (w_fs w) (w_svc w) (w_draws w)
               (w_log w ++ [EvPrint (processing_line x)])).
  match goal with
  | |- context [try_except ?m ?c ?h] => set (body := m); set (handler := h)
  end.
  change (bind _ _ w) with (try_except body any_Exception handler w1).
  destruct (starts_try_except
              (EvOpenRead (PosixPath.join (arg_input args) x))
              body any_Exception handler) with (w := w1) as (evs & Hlog).
  - subst body. apply starts_bind.
    + intros w0. apply process_artifact_opens_first.
    + intros _.
      apply respects_bind; [tc_solve|apply quiet_read_file_content|].
      intros content.
      apply respects_bind; [tc_solve|apply quiet_create_git_commit|].
      intros _. apply respects_ret. tc_solve.
  - intros e. subst handler. cbv beta.
    apply respects_bind; [tc_solve|unfold print; by apply quiet_emit|].
    intros _. destruct (negb (arg_ignore_failed args));
      (apply respects_bind; [tc_solve|unfold print; by apply quiet_emit|]);
      intros _; apply respects_ret; tc_solve.
  - exists evs. rewrite Hlog. subst w1. cbn [w_log]. by rewrite <- app_assoc.
Qed.

(** X14. A listing that failed is processed like an artifact: the loop of
    [main] takes the error message for a file name, announces it, and the
    first thing done for it is to open the file of that name in the input
    directory. *)
Theorem listing_error_is_processed_as_artifact fuel args w code :
  FS.listdir (w_fs w) (cwd P) (arg_input args) = inl code →
  let message :=
    "Error listing artifact files: "
    +:+ str_exc P (OSError code (arg_input args)) in
  ∃ evs,
    w_log (batch P fuel args w).2 =
      w_log w ++ EvPrint (processing_line message)
              :: EvOpenRead (PosixPath.join (arg_input args) message) :: evs.
Proof.
  intros Hls message. unfold batch. unfold bind at 1.
  destruct (list_artifact_files_returns (arg_input args) w)
    as (files & -> & Hf).
  rewrite (Hf code Hls). fold message.
  cbn [for_artifacts]. unfold bind at 1.
  destruct (process_one_opens_first fuel args message w) as (evs & Hlog).
  exists evs.
  destruct (process_one P fuel args message w) as [[[]|e|] w1];
    cbn [snd ret] in *; done.
Qed.

Lemma filter_insert_by_key {A} (k : Z) (x : Z * A) l :
  List.filter (λ p, (p.1 =? k)%Z) (Py.insert_by_key x l)
  = List.filter (λ p, (p.1 =? k)%Z) (x :: l).
Proof.
  induction l as [|y l IH]; [done|]. cbn [Py.insert_by_key].
  destruct (x.1 <=? y.1)%Z eqn:Hxy; [done|]. apply Z.leb_gt in Hxy.
  cbn [List.filter] in *. rewrite IH.
  destruct (y.1 =? k)%Z eqn:Hy, (x.1 =? k)%Z eqn:Hx; try done.
  apply Z.eqb_eq in Hy, Hx. lia.
Qed.

Lemma filter_sorted_by_key {A} (k : Z) (l : list (Z * A)) :
  List.filter (λ p, (p.1 =? k)%Z) (Py.sorted_by_key l)
  = List.filter (λ p, (p.1 =? k)%Z) l.
Proof.
  induction l as [|x l IH]; [done|].
  unfold Py.sorted_by_key in *. cbn [foldr].
  rewrite filter_insert_by_key. cbn [List.filter]. by rewrite IH.
Qed.

Lemma filter_names (k : Z) (pairs : list (Z * string)) :
  Forall (λ p, p.1 = ordinal p.2) pairs →
  List.filter (λ x, (ordinal x =? k)%Z) pairs.*2
  = (List.filter (λ p, (p.1 =? k)%Z) pairs).*2.
Proof.
  induction 1 as [|p pairs Hp _ IH]; [done|].
  cbn [fmap list_fmap List.filter] in *. rewrite IH, Hp.
  by destruct (ordinal p.2 =? k)%Z.
Qed.

(** X15. Names whose ordinals have the same value, such as [1_a] and
    [01_b], stay in the order in which the directory listed them: among the
    names of any one ordinal the sorted listing and the listing agree. *)
Theorem listing_keeps_ties_in_order directory files w :
  FS.listdir (w_fs w) (cwd P) directory = inr files →
  Forall (λ x, has_ordinal x = true) files →
  ∃ sorted,
    list_artifact_files P directory w = (Ret sorted, w)
    ∧ ∀ k, List.filter (λ x, (ordinal x =? k)%Z) sorted
           = List.filter (λ x, (ordinal x =? k)%Z) files.
Proof.
  intros Hls Hord. eexists. split.
  { by apply list_artifact_files_sorted. }
  intros k.
  assert (∀ names, Forall (λ p, p.1 = ordinal p.2) (with_ordinal <$> names))
    as Hkeys by (intros names; by apply Forall_fmap, Forall_true).
  rewrite filter_names.
  2: { rewrite sorted_by_key_perm. apply Hkeys. }
  rewrite filter_sorted_by_key, <- filter_names by apply Hkeys.
  rewrite <- list_fmap_compose. by rewrite <- (list_fmap_id files) at 2.
Qed.

Lemma run_process_eq argv directory w :
  run_process P argv directory w =
    (match (subprocess_run P argv directory (w_fs w)).1 with
     | inr done => Ret done
     | inl e => Raise e
     end,
     World (subprocess_run P argv directory (w_fs w)).2 (w_svc w) (w_draws w)
       (w_log w ++ [EvSubprocess argv directory])).
Proof.
  unfold run_process, bind, emit; simpl.
  by destruct (subprocess_run P argv directory (w_fs w)) as [[e|done] t'].
Qed.

(** X16. When [git status --porcelain] prints nothing but white space, no
    checkpoint is made: nothing else is run, one line says so, and the call
    returns.  The exit status of [git status] plays no part. *)
Theorem commit_skipped_when_tree_is_clean directory name content w done t' :
  subprocess_run P ["git"; "status"; "--porcelain"]%string directory (w_fs w)
    = (inr done, t') →
  Py.strip (stdout done) = ""%string →
  create_git_commit P directory name content w =
    (Ret (),
     World t' (w_svc w) (w_draws w)
       (w_log w
        ++ [EvSubprocess ["git"; "status"; "--porcelain"]%string directory;
            EvPrint ("No changes to commit for " +:+ name)])).
Proof.
  intros Hrun Hclean. unfold create_git_commit. unfold bind at 1.
  rewrite run_process_eq, Hrun. cbn [fst snd].
  rewrite bool_decide_eq_true_2 by done.
  unfold print, emit. cbn [w_fs w_svc w_draws w_log]. by rewrite <- app_assoc.
Qed.

Lemma commit_trace directory name content w :
  let status := ["git"; "status"; "--porcelain"]%string in
  let add := ["git"; "add"; "."]%string in
  let commit := ["git"; "commit"; "-m"; "Processed artifact: " +:+ name;
                 "-m"; content]%string in
  ∃ res w' evs,
    create_git_commit P directory name content w = (res, w')
    ∧ w_log w' = w_log w ++ evs
    ∧ subprocesses evs `prefix_of` [status; add; commit]
    ∧ (res = Ret () →
       subprocesses evs = [status] ∨ subprocesses evs = [status; add; commit]).
Proof.
  cbv zeta. unfold create_git_commit. unfold bind at 1.
  rewrite run_process_eq. set (w1 := World _ _ _ _).
  destruct (subprocess_run P _ directory (w_fs w)).1 as [e|done].
  { eexists _, _, [_]. split; [done|]. subst w1. cbn [w_log].
    split_and!; [done|by eexists|done]. }
  case_bool_decide.
  { eexists _, _, [_; _]. split; [done|]. subst w1. cbn [w_log].
    rewrite <- app_assoc. split_and!; [done|by eexists|by left]. }
  unfold run_checked. unfold bind at 1. unfold bind at 1.
  rewrite run_process_eq. set (w2 := World _ _ _ _).
  destruct (subprocess_run P _ directory (w_fs w1)).1 as [e|done2].
  { eexists _, _, [_; _]. split; [done|]. subst w1 w2. cbn [w_log].
    rewrite <- app_assoc. split_and!; [done|by eexists|done]. }
  destruct (returncode done2 =? 0)%Z.
  2: { eexists _, _, [_; _]. split; [done|]. subst w1 w2. cbn [w_log].
       rewrite <- app_assoc. split_and!; [done|by eexists|done]. }
  unfold ret at 1. unfold bind at 1. unfold bind at 1.
  rewrite run_process_eq. set (w3 := World _ _ _ _).
  destruct (subprocess_run P _ directory (w_fs w2)).1 as [e|done3].
  { eexists _, _, [_; _; _]. split; [done|]. subst w1 w2 w3. cbn [w_log].
    rewrite <- !app_assoc. split_and!; [done|by eexists|done]. }
  destruct (returncode done3 =? 0)%Z.
  2: { eexists _, _, [_; _; _]. split; [done|]. subst w1 w2 w3. cbn [w_log].
       rewrite <- !app_assoc. split_and!; [done|by eexists|done]. }
  eexists _, _, [_; _; _; _]. split; [done|]. subst w1 w2 w3. cbn [w_log].
  rewrite <- !app_assoc. split_and!; [done|by eexists|by right].
Qed.

(** X17. A checkpoint runs [git status], then [git add .], then [git commit]
    with the message [Processed artifact: <name>] and the artifact content
    as second message, in this order and nothing else; it returns only after
    the first alone or after all three. *)
Theorem commit_runs_status_add_commit directory name content w :
  let status := ["git"; "status"; "--porcelain"]%string in
  let add := ["git"; "add"; "."]%string in
  let commit := ["git"; "commit"; "-m"; "Processed artifact: " +:+ name;
                 "-m"; content]%string in
  let run := create_git_commit P directory name content w in
  ∃ evs,
    w_log run.2 = w_log w ++ evs
    ∧ subprocesses evs `prefix_of` [status; add; commit]
    ∧ (run.1 = Ret () →
       subprocesses evs = [status] ∨ subprocesses evs = [status; add; commit]).
Proof.
  cbv zeta.
  destruct (commit_trace directory name content w)
    as (res & w' & evs & -> & Hlog & Hpre & Hret).
  by exists evs.
Qed.

(** X18. An artifact whose processing raises is reported and not
    checkpointed: the failure is printed with its text, no command is run
    for the artifact, and the loop goes on under [--ignore-failed] and stops
    otherwise, in which case the artifacts after it are not touched and
    [main] still returns normally. *)
Theorem failed_artifact_is_reported fuel args x rest w e w2 :
  process_artifact P fuel (PosixPath.join (arg_input args) x)
    (arg_output args) (arg_model args)
    (World (w_fs w) (w_svc w) (w_draws w)
       (w_log w ++ [EvPrint (processing_line x)]))
    = (Raise e, w2) →
  let reported :=
    World (w_fs w2) (w_svc w2) (w_draws w2)
      (w_log w2
       ++ [EvPrint ("Error processing " +:+ x +:+ ": " +:+ str_exc P e);
           EvPrint (if arg_ignore_failed args
                    then "Continuing to next file due to --ignore-failed flag."
                    else "Stopping processing due to failure.")%string]) in
  process_one P fuel args x w = (Ret (arg_ignore_failed args), reported)
  ∧ (arg_ignore_failed args = false →
     for_artifacts P fuel args (x :: rest) w = (Ret (), reported)).
Proof.
  intros Hpa reported.
  assert (process_one P fuel args x w
          = (Ret (arg_ignore_failed args), reported)) as Hone.
  { unfold process_one.
    set (w1 := World (w_fs w) (w_svc w) (w_draws w)
                 (w_log w ++ [EvPrint (processing_line x)])) in *.
    match goal with
    | |- context [try_except ?m ?c ?h] => set (body := m); set (handler := h)
    end.
    change (bind _ _ w) with (try_except body any_Exception handler w1).
    unfold try_except, body. unfold bind at 1. rewrite Hpa.
    cbn [any_Exception]. subst handler reported. cbv beta.
    unfold bind, print, emit, ret.
    destruct (arg_ignore_failed args); cbn [negb w_fs w_svc w_draws w_log];
      by rewrite <- app_assoc. }
  split; [done|]. intros Hstop. cbn [for_artifacts]. unfold bind.
  rewrite Hone, Hstop. done.
Qed.

Lemma for_artifacts_never_raises fuel args files w e :
  (for_artifacts P fuel args files w).1 ≠ Raise e.
Proof.
  revert w. induction files as [|x files IH]; intros w; [done|].
  cbn [for_artifacts]. unfold bind.
  destruct (process_one_log P fuel args x w) as (_ & _ & _ & Hnr & _).
  destruct (process_one P fuel args x w) as [[[]|e'|] w1]; cbn [fst snd] in *;
    [apply IH|done|by destruct (Hnr e')|done].
Qed.

(** X19. Once the output directory is prepared nothing makes [main] raise:
    the listing and the loop over the artifacts absorb every failure, so
    [main] raises exactly what the preparation (the emptiness check,
    [os.makedirs], [git init]) raises. *)
Theorem main_raises_only_from_preparation fuel args w e :
  ((batch P fuel args w).1 ≠ Raise e)
  ∧ ((main P fuel args w).1 = Raise e ↔ (prelude P args w).1 = Raise e).
Proof.
  assert (∀ w0, (batch P fuel args w0).1 ≠ Raise e) as Hbatch.
  { intros w0. unfold batch, bind.
    destruct (list_artifact_files_returns (arg_input args) w0)
      as (files & -> & _).
    apply for_artifacts_never_raises. }
  split; [apply Hbatch|].
  rewrite main_eq. unfold bind.
  destruct (prelude P args w) as [[[]|e'|] w1]; cbn [fst]; [|done..].
  split; [|done]. intros Hraise. by destruct (Hbatch w1).
Qed.

(** X20. A [git init] that exits with a status other than zero is fatal
    before any artifact is looked at: [main] raises [CalledProcessError]
    without listing the input, and the output directory it has just made
    stays. *)
Theorem failed_git_init_stops_main fuel args w t1 done t2 :
  ensure_empty_directory P (arg_output args) w = (Ret (), w) →
  FS.makedirs (w_fs w) (cwd P) (arg_output args) = inr t1 →
  subprocess_run P ["git"; "init"]%string (arg_output args) t1
    = (inr done, t2) →
  returncode done ≠ 0%Z →
  main P fuel args w =
    (Raise (CalledProcessError ["git"; "init"]%string (returncode done)),
     World t2 (w_svc w) (w_draws w)
       (w_log w ++ [EvMakedirs (arg_output args);
                    EvSubprocess ["git"; "init"]%string (arg_output args)])).
Proof.
  intros Hcheck Hmk Hgit Hcode. unfold main. cbv zeta.
  unfold bind at 1. rewrite Hcheck. unfold bind at 1.
  rewrite os_makedirs_eq, Hmk. cbv zeta.
  unfold bind at 1, initialize_git_repo. unfold bind at 1, run_checked.
  unfold bind at 1. rewrite run_process_eq. cbn [w_fs w_svc w_draws w_log].
  rewrite Hgit. cbn [fst snd].
  apply Z.eqb_neq in Hcode. rewrite Hcode. unfold raise.
  by rewrite <- app_assoc.
Qed.

End DriverMore.

(** ** Agent Loop *)

#[export] Instance backstage_preorder {svc} : PreOrder (@backstage svc).
Proof.
  split.
  - intros w. exists []. by rewrite app_nil_r.
  - intros w1 w2 w3 (evs1 & H1 & Q1) (evs2 & H2 & Q2).
    exists (evs1 ++ evs2). rewrite H2, H1, app_assoc.
    split; [done|]. by apply Forall_app.
Qed.

Section LoopMore.

Context {svc : Type} (P : platform svc).

Implicit Types (w : world svc) (ms : list message) (tc : tool_call).

Lemma backstage_emit ev :
  is_create ev = false → respects (@backstage svc) (emit ev).
Proof. intros Hev w. exists [ev]. split; [done|]. by constructor. Qed.

Lemma backstage_get_fs : respects (@backstage svc) get_fs.
Proof. intros w. reflexivity. Qed.

Lemma backstage_put_fs t : respects (@backstage svc) (put_fs t).
Proof. intros w. exists []. simpl. by rewrite app_nil_r. Qed.

Hint Resolve backstage_emit backstage_get_fs backstage_put_fs : frame.
Hint Extern 1 (is_create _ = false) => reflexivity : frame.

Lemma backstage_dispatch a c o tc ms : respects backstage (dispatch P a c o tc ms).
Proof.
  unfold dispatch, read_file_content, open_read, write_file_content,
    open_write, file_write, os_makedirs, loads, subscript, os_path_join.
  frame.
Qed.

Lemma backstage_dispatch_all a c o tcs ms :
  respects backstage (dispatch_all P a c o tcs ms).
Proof.
  revert ms. induction tcs as [|tc tcs IH]; intros ms; simpl.
  - apply respects_ret. tc_solve.
  - apply respects_bind; [tc_solve|apply backstage_dispatch|done].
Qed.

Lemma requests_backstage evs :
  Forall (λ ev, is_create ev = false) evs → requests evs = [].
Proof.
  induction 1 as [|ev evs Hev _ IH]; [done|]. by destruct ev.
Qed.

(** X21. When the requests of a Turn are dispatched, the results appended
    follow the requests: one result per request for a catalog operation, in
    the order of the requests, each carrying the identifier and the name of
    its request. *)
Theorem results_follow_requests a c o tcs ms :
  returns
    (λ ms', ∃ results,
       ms' = ms ++ results
       ∧ label <$> results
         = (λ tc, Some (tc_id tc, tc_name tc))
           <$> List.filter known_operation tcs)
    (dispatch_all P a c o tcs ms).
Proof.
  revert ms. induction tcs as [|tc tcs IH]; intros ms; simpl.
  - apply returns_ret. exists []. by rewrite app_nil_r.
  - intros w ms' w'. unfold bind.
    destruct (dispatch P a c o tc ms w) as [[ms1|e|] w1] eqn:Hd; [|done..].
    apply dispatch_answers in Hd as [content ->].
    intros Hrest. apply IH in Hrest as (results & -> & Hlabels).
    cbn [List.filter]. destruct (known_operation tc).
    + exists (ToolMsg (tc_id tc) (tc_name tc) content :: results).
      rewrite <- app_assoc. split; [done|]. by rewrite !fmap_cons, Hlabels.
    + exists results. by rewrite app_nil_r.
Qed.

Lemma turn_extends a c o model ms :
  returns (λ step, ∃ m rest, step.2 = ms ++ AssistantMsg m :: rest)
    (turn P a c o model ms).
Proof.
  intros w step w'. rewrite turn_eq.
  destruct (retry_openai_request _ _ w) as [[[m|]|e|] w1]; try done.
  destruct (requested_calls m) as [|tc tcs].
  { intros [= <- _]. by exists m, []. }
  destruct (dispatch_all _ _ _ _ _ _ w1) as [[ms1|e|] w2] eqn:Hd; try done.
  intros [= <- _].
  apply dispatch_all_answers in Hd as (results & -> & _).
  exists m, results. by rewrite <- app_assoc.
Qed.

(** X22. The transcript only grows: when the loop returns, what it returns
    is the transcript it was given followed by the first assistant response
    and whatever came after it; nothing already said is dropped or
    changed. *)
Theorem transcript_only_grows fuel a c o model ms :
  returns (λ ms', ∃ m rest, ms' = ms ++ AssistantMsg m :: rest)
    (agent_loop P fuel a c o model ms).
Proof.
  revert ms. induction fuel as [|fuel IH]; intros ms; [done|].
  cbn [agent_loop]. intros w ms' w'. unfold bind.
  destruct (turn P a c o model ms w) as [[[go_on ms1]|e|] w1] eqn:Hturn;
    [|done..].
  apply turn_extends in Hturn as (m & rest & Hms1). simpl in Hms1. subst ms1.
  destruct go_on; cbn [fst snd].
  - intros (m' & rest' & ->)%IH. exists m, (rest ++ AssistantMsg m' :: rest').
    by rewrite <- app_assoc.
  - intros [= <- _]. by exists m, rest.
Qed.

Lemma turn_requests a c o model ms w :
  ∃ evs n,
    w_log (turn P a c o model ms w).2 = w_log w ++ evs
    ∧ requests evs = replicate (S n) (Request model ms tools).
Proof.
  rewrite turn_eq.
  unfold retry_openai_request.
  destruct (retry_bounded P (Request model ms tools) 4 0 w eq_refl)
    as (evs & Hlog & H1 & _ & _ & _ & Hreq & _). cbv zeta in Hlog.
  change (seq 0 5) with (seq 0 max_retries) in Hlog.
  destruct (calls evs) as [|n]; [lia|].
  destruct (retry_attempts _ _ _ w) as [[[m|]|e|] w1]; cbn [snd] in *;
    try by exists evs, n.
  destruct (requested_calls m) as [|tc tcs].
  { exists (evs ++ [EvPrint no_call_line]), n. cbn [snd w_log].
    rewrite Hlog, requests_app, Hreq, <- app_assoc. cbn [requests].
    by rewrite app_nil_r. }
  destruct (backstage_dispatch_all a c o (tc :: tcs) (ms ++ [AssistantMsg m])
              w1) as (evs2 & Hlog2 & Hq2).
  exists (evs ++ evs2), n.
  rewrite requests_app, Hreq, (requests_backstage _ Hq2), app_nil_r.
  split; [|done].
  destruct (dispatch_all _ _ _ _ _ _ w1) as [[ms1|e|] w2]; cbn [snd] in *;
    by rewrite Hlog2, Hlog, <- app_assoc.
Qed.

(** X23. Every request the loop submits to the decision service names the
    model it was given, attaches the whole catalog, and carries a transcript
    that begins with the transcript the loop started from. *)
Theorem requests_carry_catalog_and_transcript fuel a c o model ms w :
  ∃ evs,
    w_log (agent_loop P fuel a c o model ms w).2 = w_log w ++ evs
    ∧ Forall (λ r, req_model r = model
                   ∧ req_tools r = tools
                   ∧ ms `prefix_of` req_messages r)
        (requests evs).
Proof.
  revert ms w. induction fuel as [|fuel IH]; intros ms w.
  - exists []. cbn. by rewrite app_nil_r.
  - cbn [agent_loop]. unfold bind.
    destruct (turn_requests a c o model ms w) as (evs1 & n & Hlog1 & Hreq1).
    assert (Forall (λ r, req_model r = model ∧ req_tools r = tools
                         ∧ ms `prefix_of` req_messages r) (requests evs1))
      as Hall1.
    { rewrite Hreq1. apply Forall_replicate. by split_and!. }
    destruct (turn P a c o model ms w) as [[[go_on ms1]|e|] w1] eqn:Hturn;
      cbn [snd] in *; try by exists evs1.
    destruct go_on; cbn [fst snd]; [|by exists evs1].
    apply turn_extends in Hturn as (m & rest & Hms1). simpl in Hms1.
    destruct (IH ms1 w1) as (evs2 & Hlog2 & Hall2).
    exists (evs1 ++ evs2). rewrite Hlog2, Hlog1, <- app_assoc.
    split; [done|]. rewrite requests_app. apply Forall_app. split; [done|].
    eapply Forall_impl; [done|]. intros r (? & ? & Hpre). split_and!; try done.
    etransitivity; [|done]. rewrite Hms1. by apply prefix_app_r.
Qed.

(** X24. Exhausted retries are fatal to the artifact: against a decision
    service that fails every call with an [OpenAIError] the loop raises the
    failure of the fifth call, having called five times and changed neither
    the transcript nor the file system. *)
Theorem exhausted_retries_abort_the_loop fuel a c o model ms w :
  (∀ s, ∃ e, (create P s (Request model ms tools)).1 = inl e
             ∧ is_OpenAIError e = true) →
  ∃ e evs,
    agent_loop P (S fuel) a c o model ms w =
      (Raise e,
       World (w_fs w) (svc_after P (Request model ms tools) 5 (w_svc w))
         (w_draws w + 4) (w_log w ++ evs))
    ∧ (create P (svc_after P (Request model ms tools) 4 (w_svc w))
         (Request model ms tools)).1 = inl e
    ∧ calls evs = 5.
Proof.
  intros Hfail.
  destruct (retry_exhausts P (Request model ms tools) Hfail 4 0 w eq_refl)
    as (evs & e & Hrun & He & Hcalls & _).
  exists e, evs. cbn [agent_loop]. unfold bind. rewrite turn_eq.
  unfold retry_openai_request. change (seq 0 max_retries) with (seq 0 5).
  by rewrite Hrun.
Qed.

Lemma basename_join directory x :
  Str.contains Str.slash x = false →
  PosixPath.basename (PosixPath.join directory x) = x.
Proof.
  intros Hx.
  assert (PosixPath.isabs x = false) as Hrel.
  { destruct x as [|d x]; [done|]. simpl in Hx.
    by apply orb_false_iff in Hx as [? _]. }
  unfold PosixPath.basename.
  destruct (decide (directory = ""%string)) as [->|Hne].
  - unfold PosixPath.join. unfold PosixPath.isabs in Hrel. rewrite Hrel.
    cbn [bool_decide decide_rel orb]. rewrite bool_decide_eq_true_2 by done.
    cbn [orb]. change (""%string +:+ x) with x.
    by rewrite rpartition_no_sep.
  - destruct (join_relative directory x Hrel Hne) as (a' & -> & _).
    by rewrite rpartition_app_sep.
Qed.

(** X25. A read request for the artifact under the name the listing gave it
    is answered from memory: with the artifact at
    [os.path.join(input, name)] and a name without a slash, the request for
    [name] gets the in-memory content, and nothing is opened or logged. *)
Theorem listed_name_reads_from_memory input name c o tc ms w members :
  Str.contains Str.slash name = false →
  tc_name tc = "read_file_content"%string →
  json_loads P (tc_arguments tc) = Some (JObject members) →
  assoc "file_path" members = Some (JString name) →
  dispatch P (PosixPath.join input name) c o tc ms w =
    (Ret (ms ++ [ToolMsg (tc_id tc) "read_file_content" c]), w).
Proof.
  intros Hname Hop Hdoc Hpath.
  rewrite (dispatch_read P _ c o tc ms w members name Hop Hdoc Hpath).
  rewrite basename_join by done. by rewrite bool_decide_eq_true_2.
Qed.

End LoopMore.

(** ** Directory listing *)

Section Listing.

Context {svc : Type} (P : platform svc).

Implicit Types (w : world svc) (names : list string).

Lemma levels_of_depth (max_depth : Z) :
  (0 <= max_depth)%Z → ∃ levels, Z.to_nat (max_depth + 1) = S levels.
Proof. intros Hd. exists (Z.to_nat max_depth). lia. Qed.

(** X26. With a negative [max_depth] the listing is the single line of the
    ellipsis, and the directory is not looked at: the result is the same
    whether or not it exists. *)
Theorem negative_depth_lists_nothing directory max_depth w :
  (max_depth < 0)%Z →
  list_directory_files P directory max_depth w = (Ret (elbow +:+ "..."), w).
Proof.
  intros Hd. unfold list_directory_files, bind, get_fs.
  assert (Z.to_nat (max_depth + 1) = 0) as -> by lia. done.
Qed.

(** X27. A directory that cannot be listed makes [list_directory_files]
    raise: unlike the File Store and the listing of the artifacts it absorbs
    nothing. *)
Theorem unlistable_directory_raises directory max_depth w code :
  (0 <= max_depth)%Z →
  FS.listdir (w_fs w) (cwd P) directory = inl code →
  list_directory_files P directory max_depth w
    = (Raise (OSError code directory), w).
Proof.
  intros Hd Hls. unfold list_directory_files, bind, get_fs.
  destruct (levels_of_depth max_depth Hd) as [levels ->].
  cbn [tree]. by rewrite Hls.
Qed.

Lemma pointers_cons n : pointers (S (S n)) = tee :: pointers (S n).
Proof. unfold pointers. simpl. by rewrite Nat.sub_0_r. Qed.

Lemma tree_entries_flat subtree is_dir dir_path prefix names :
  Forall (λ name, is_dir (PosixPath.join dir_path name) = false) names →
  tree_entries subtree is_dir dir_path prefix names =
    inr (zip_with (λ pointer name, prefix +:+ pointer +:+ name)
           (pointers (length names)) names).
Proof.
  induction 1 as [|name names Hname Hnames IH]; [done|].
  cbn [tree_entries]. rewrite Hname, IH. cbv zeta.
  destruct names as [|name' names]; [done|].
  cbn [length]. rewrite pointers_cons. by cbn [zip_with app].
Qed.

(** X28. A directory without subdirectories is listed one line per entry,
    in the order of the scan: every entry but the last after a tee, the last
    after an elbow, the lines joined by line feeds; an empty directory gives
    the empty text. *)
Theorem flat_directory_listing directory max_depth w names :
  (0 <= max_depth)%Z →
  FS.listdir (w_fs w) (cwd P) directory = inr names →
  Forall (λ name,
            FS.isdir (w_fs w) (cwd P) (PosixPath.join directory name) = false)
    names →
  list_directory_files P directory max_depth w =
    (Ret (join_lines
            (zip_with String.append (pointers (length names)) names)), w).
Proof.
  intros Hd Hls Hflat. unfold list_directory_files, bind, get_fs.
  destruct (levels_of_depth max_depth Hd) as [levels ->].
  cbn [tree]. rewrite Hls.
  by rewrite (tree_entries_flat _ _ directory ""%string names Hflat).
Qed.

End Listing.

(** ** Writing twice *)

Section WriteTwice.

Context {svc : Type} (P : platform svc).

Implicit Types (w : world svc) (t : FS.tree) (cur q : list string).

Lemma open_w_again t cwd path q t' x :
  FS.open_w t cwd path = inr (q, t') →
  FS.open_w (<[q := File x]> t) cwd path
    = inr (q, <[q := File ""%string]> t).
Proof.
  intros Hopen. destruct (open_w_inv _ _ _ _ _ Hopen) as (Hne & _ & Hnode).
  revert Hopen. unfold FS.open_w, FS.resolve.
  case_bool_decide; [done|].
  destruct (FS.walk t _ _) as [e|q0] eqn:Hwalk; [done|].
  intros Hopen.
  assert (q0 = q) as ->.
  { destruct (FS.node_at t q0) as [[text|]|]; [by simplify_eq|done|].
    destruct (FS.node_at t (removelast q0)) as [[text|]|]; by simplify_eq. }
  rewrite (walk_insert_file _ _ _ _ _ _ Hnode Hwalk).
  rewrite node_at_insert_eq by done. by rewrite insert_insert_eq.
Qed.

(** The directory is made and the file written; doing both again changes
    nothing and reports the same. *)
Lemma store_write_twice path content w text w1 :
  bind (os_makedirs P (PosixPath.dirname path))
    (λ _, write_file_content P path content) w = (Ret text, w1) →
  ∃ w2,
    bind (os_makedirs P (PosixPath.dirname path))
      (λ _, write_file_content P path content) w1 = (Ret text, w2)
    ∧ w_fs w2 = w_fs w1.
Proof.
  unfold bind. rewrite !os_makedirs_eq. cbv zeta.
  destruct (FS.makedirs (w_fs w) _ _) as [code|t1] eqn:Hmk; [done|].
  apply makedirs_fixed in Hmk.
  rewrite write_file_content_cases. cbn [w_fs w_svc w_draws w_log].
  destruct (FS.open_w t1 (cwd P) path) as [code|[q t']] eqn:Hopen.
  { intros [= <- <-]. cbn [w_fs]. rewrite Hmk.
    rewrite write_file_content_cases. cbn [w_fs w_svc w_draws w_log].
    rewrite Hopen. by eexists. }
  destruct (open_w_inv _ _ _ _ _ Hopen) as (Hne & -> & Hnode).
  assert (∀ x w0,
            w_fs w0 = <[q := File x]> t1 →
            FS.makedirs (w_fs w0) (cwd P) (PosixPath.dirname path)
              = inr (w_fs w0)
            ∧ FS.open_w (w_fs w0) (cwd P) path
              = inr (q, <[q := File ""%string]> t1)) as Hagain.
  { intros x w0 ->. split.
    - by apply makedirs_insert_file.
    - by apply (open_w_again _ _ _ _ _ x) in Hopen. }
  destruct content as [| | |s| |]; try destruct (encodable P s) eqn:Henc;
    intros [= <- <-];
    match goal with
    | |- context [FS.makedirs (w_fs ?w0)] =>
        first [ destruct (Hagain ""%string w0) as [-> Hop];
                [cbn [w_fs]; by rewrite ?insert_insert_eq|]
              | destruct (Hagain s w0) as [-> Hop];
                [cbn [w_fs]; by rewrite ?insert_insert_eq|] ]
    end;
    rewrite write_file_content_cases; cbn [w_fs w_svc w_draws w_log] in Hop |- *;
    rewrite Hop, ?Henc; eexists; (split; [done|]); cbn [w_fs];
    by rewrite ?insert_insert_eq.
Qed.


End WriteTwice.

(** ** Concrete runs of the properties above *)

Lemma failed_write_leaves_file_empty_witness :
  let q := ["work"; "out"; "a.txt"]%string in
  FS.open_w (w_fs world0) (cwd done_service) "out/a.txt"
    = inr (q, <[q := File ""%string]> tree0)
  ∧ ∃ detail w',
      write_file_content done_service "out/a.txt" JNull world0 =
        (Ret ("Error writing file content: " +:+ detail), w')
      ∧ w_fs w' = <[q := File ""%string]> (w_fs world0)
      ∧ w_fs w' !! q = Some (File ""%string).
Proof.
  intros q.
  assert (FS.open_w (w_fs world0) (cwd done_service) "out/a.txt"
          = inr (q, <[q := File ""%string]> tree0)) as Hopen
    by reflexivity.
  split; [exact Hopen|].
  exact (failed_write_leaves_file_empty done_service "out/a.txt" JNull world0
           q _ Hopen I).
Defined.


Lemma undecodable_arguments_abort_dispatch_witness :
  let tc := ToolCall "call_1" "read_file_content" "{file_path: a.js" in
  json_loads done_service (tc_arguments tc) = None
  ∧ dispatch_all done_service "in/2_demo.js" "// a.js" "out"
      [tc; delete_call] [] world0 =
      (Raise (JSONDecodeError "{file_path: a.js"), world0).
Proof.
  intros tc. split; [reflexivity|].
  exact (undecodable_arguments_abort_dispatch done_service "in/2_demo.js"
           "// a.js" "out" tc [delete_call] [] world0 eq_refl).
Defined.

Lemma missing_path_aborts_dispatch_witness :
  let tc := ToolCall "call_1" "read_file_content" "{}" in
  known_operation tc = true
  ∧ json_loads lenient_service (tc_arguments tc) = Some (JObject [])
  ∧ dispatch_all lenient_service "in/2_demo.js" "// a.js" "out"
      [tc; delete_call] [] world0 = (Raise (KeyError "file_path"), world0).
Proof.
  intros tc. split; [reflexivity|]. split; [reflexivity|].
  exact (missing_path_aborts_dispatch lenient_service "in/2_demo.js"
           "// a.js" "out" tc [delete_call] [] world0 [] eq_refl eq_refl
           eq_refl).
Defined.

Lemma write_without_content_keeps_directories_witness :
  let tc := ToolCall "call_1" "write_file_content" (doc_read "src/a.js") in
  let members := [("file_path"%string, JString "src/a.js")] in
  let t1 := <[ ["work"; "out"; "src"]%string := Dir ]> tree0 in
  json_loads done_service (tc_arguments tc) = Some (JObject members)
  ∧ assoc "content" members = None
  ∧ FS.makedirs (w_fs world0) (cwd done_service)
      (PosixPath.dirname (PosixPath.join "out" "src/a.js")) = inr t1
  ∧ dispatch done_service "in/2_demo.js" "// a.js" "out" tc [] world0 =
      (Raise (KeyError "content"),
       World t1 0 0
         [EvMakedirs "out/src";
          EvPrint "Writing / Updating the contents to out/src/a.js"]).
Proof.
  intros tc members t1.
  assert (FS.makedirs (w_fs world0) (cwd done_service)
            (PosixPath.dirname (PosixPath.join "out" "src/a.js")) = inr t1)
    as Hmk by reflexivity.
  split; [reflexivity|]. split; [reflexivity|]. split; [exact Hmk|].
  exact (write_without_content_keeps_directories done_service "in/2_demo.js"
           "// a.js" "out" tc [] world0 members "src/a.js" t1 eq_refl eq_refl
           eq_refl eq_refl Hmk).
Defined.

Lemma retry_succeeds_after_failures_witness :
  let m := AssistantMessage (Some "done"%string) None in
  (create flaky_service (svc_after flaky_service ask 2 (w_svc world0)) ask).1
    = inr m
  ∧ ∃ evs,
      retry_openai_request flaky_service
        (chat_completions_create flaky_service ask) world0 =
        (Ret (Some m), World tree0 3 2 evs)
      ∧ calls evs = 3
      ∧ length (sleeps evs) = 2
      ∧ last evs = Some (EvCreate ask).
Proof.
  intros m.
  assert (∀ i, i < 2 →
            ∃ e, (create flaky_service
                    (svc_after flaky_service ask i (w_svc world0)) ask).1
                 = inl e
                 ∧ is_OpenAIError e = true) as Hfail.
  { intros [|[|i]] Hi; [eexists; split; reflexivity..|lia]. }
  split; [reflexivity|].
  exact (retry_succeeds_after_failures flaky_service ask world0 2 m
           (le_n_S _ _ (le_n_S _ _ (le_n_S _ _ (Nat.le_0_l 2))))
           Hfail eq_refl).
Defined.

Lemma backoff_stays_below_cap_witness :
  let P := platform_of
             (failing (OpenAIError RateLimitError "slow down")) in
  let run := retry_openai_request P (chat_completions_create P ask) world0 in
  (∀ n, unit_interval (uniform P n))
  ∧ length (sleeps (w_log run.2)) = 4
  ∧ ∃ evs,
      w_log run.2 = w_log world0 ++ evs
      ∧ length (sleeps evs) ≤ 4
      ∧ ∀ i d, sleeps evs !! i = Some d →
          d = Float.add (exp2 (Z.of_nat i)) (uniform P (w_draws world0 + i))
          ∧ Float.leb (exp2 (Z.of_nat i)) d = true
          ∧ Float.leb d (Float.of_Z (2 ^ Z.of_nat i + 1)) = true
          ∧ Float.leb d (Float.of_Z 9) = true.
Proof.
  intros P run.
  assert (∀ n, unit_interval (uniform P n)) as Hjitter.
  { intros n. split_and!; reflexivity. }
  split; [exact Hjitter|]. split; [vm_compute; reflexivity|].
  exact (backoff_stays_below_cap P ask world0 Hjitter).
Defined.

Lemma listing_absorbs_failures_witness :
  let w := World tree_nested 0 0 [] in
  let v := World tree_three 0 0 [] in
  FS.listdir tree_nested (cwd done_service) "out"
    = inr ["readme.md"; "src"]%string
  ∧ Py.int (Str.first_field Str.underscore "readme.md") = None
  ∧ (∃ detail,
       list_artifact_files done_service "out" w =
         (Ret ["Error listing artifact files: "
               +:+ str_exc done_service (ValueError detail)], w))
  ∧ ∃ files,
      list_artifact_files done_service "in" v = (Ret files, v)
      ∧ files ≡ₚ ["10_c.js"; "2_b.js"; "1_a.js"]%string.
Proof.
  intros w v.
  assert (FS.listdir tree_nested (cwd done_service) "out"
          = inr ["readme.md"; "src"]%string) as Hls by reflexivity.
  assert (FS.listdir tree_three (cwd done_service) "in"
          = inr ["10_c.js"; "2_b.js"; "1_a.js"]%string) as Hls3
    by reflexivity.
  split; [exact Hls|]. split; [reflexivity|]. split.
  - destruct (listing_absorbs_failures done_service "out" w)
      as (files & Hrun & Hcase).
    change (w_fs w) with tree_nested in Hcase. rewrite Hls in Hcase.
    destruct Hcase as [_ Hbad].
    destruct (Hbad "readme.md"%string) as [detail ->].
    + by left.
    + reflexivity.
    + by exists detail.
  - destruct (listing_absorbs_failures done_service "in" v)
      as (files & Hrun & Hcase).
    change (w_fs v) with tree_three in Hcase. rewrite Hls3 in Hcase.
    destruct Hcase as [Hgood _].
    exists files. split; [exact Hrun|]. apply Hgood.
    repeat constructor; by eexists.
Defined.

Lemma empty_or_missing_output_is_accepted_witness :
  FS.listdir (w_fs world0) (cwd done_service) "out" = inr []
  ∧ ensure_empty_directory done_service "out" world0 = (Ret (), world0).
Proof.
  assert (FS.listdir (w_fs world0) (cwd done_service) "out" = inr [])
    as Hls by reflexivity.
  split; [exact Hls|].
  exact (empty_or_missing_output_is_accepted done_service "out" world0
           (or_intror Hls)).
Defined.

Lemma output_path_that_is_a_file_is_refused_witness :
  let args := Args "in" "in/2_demo.js" "gpt" false in
  let q := ["work"; "in"; "2_demo.js"]%string in
  FS.resolve (w_fs world0) (cwd done_service) (arg_output args) = inr q
  ∧ FS.node_at (w_fs world0) q = Some (File "// a.js")
  ∧ main done_service 3 args world0 =
      (Raise (OSError ENOTDIR "in/2_demo.js"), world0).
Proof.
  intros args q.
  assert (FS.resolve (w_fs world0) (cwd done_service) (arg_output args)
          = inr q) as Hq by reflexivity.
  assert (FS.node_at (w_fs world0) q = Some (File "// a.js")) as Hnode
    by reflexivity.
  split; [exact Hq|]. split; [exact Hnode|].
  exact (output_path_that_is_a_file_is_refused done_service 3 args world0 q
           "// a.js" Hq Hnode).
Defined.

Lemma listing_error_is_processed_as_artifact_witness :
  let args := Args "missing" "out" "gpt" false in
  let message :=
    "Error listing artifact files: [Errno 2] No such file or directory: 'missing'"%string in
  FS.listdir (w_fs world0) (cwd done_service) (arg_input args) = inl ENOENT
  ∧ ∃ evs,
      w_log (batch done_service 3 args world0).2 =
        w_log world0
        ++ EvPrint (processing_line message)
           :: EvOpenRead (PosixPath.join "missing" message) :: evs.
Proof.
  intros args message.
  assert (FS.listdir (w_fs world0) (cwd done_service) (arg_input args)
          = inl ENOENT) as Hls by reflexivity.
  split; [exact Hls|].
  exact (listing_error_is_processed_as_artifact done_service 3 args world0
           ENOENT Hls).
Defined.

Lemma listing_keeps_ties_in_order_witness :
  let w := World tree_ties 0 0 [] in
  let files := ["0_z.js"; "01_b.js"; "1_a.js"]%string in
  FS.listdir (w_fs w) (cwd done_service) "in" = inr files
  ∧ Forall (λ x, has_ordinal x = true) files
  ∧ ∃ sorted,
      list_artifact_files done_service "in" w = (Ret sorted, w)
      ∧ ∀ k, List.filter (λ x, (ordinal x =? k)%Z) sorted
             = List.filter (λ x, (ordinal x =? k)%Z) files.
Proof.
  intros w files.
  assert (FS.listdir (w_fs w) (cwd done_service) "in" = inr files) as Hls
    by reflexivity.
  assert (Forall (λ x, has_ordinal x = true) files) as Hord
    by (repeat constructor).
  split; [exact Hls|]. split; [exact Hord|].
  exact (listing_keeps_ties_in_order done_service "in" files w Hls Hord).
Defined.

Lemma commit_skipped_when_tree_is_clean_witness :
  let P := clean_platform_of (scripted []) in
  let done := CompletedProcess 0 "" in
  subprocess_run P ["git"; "status"; "--porcelain"]%string "out"
    (w_fs world0) = (inr done, tree0)
  ∧ create_git_commit P "out" "2_demo.js" "// a.js" world0 =
      (Ret (),
       World tree0 0 0
         [EvSubprocess ["git"; "status"; "--porcelain"]%string "out";
          EvPrint "No changes to commit for 2_demo.js"]).
Proof.
  intros P done. split; [reflexivity|].
  exact (commit_skipped_when_tree_is_clean P "out" "2_demo.js" "// a.js"
           world0 done tree0 eq_refl eq_refl).
Defined.

Lemma failed_artifact_is_reported_witness :
  let P := platform_of
             (failing (OpenAIError RateLimitError "slow down")) in
  let args := Args "in" "out" "gpt" false in
  let e := OpenAIError RateLimitError "slow down" in
  let run := process_artifact P 3 "in/2_demo.js" "out" "gpt"
               (World tree0 0 0 [EvPrint "Processing 2_demo.js..."]) in
  let reported :=
    World (w_fs run.2) (w_svc run.2) (w_draws run.2)
      (w_log run.2
       ++ [EvPrint "Error processing 2_demo.js: slow down";
           EvPrint "Stopping processing due to failure."]) in
  run = (Raise e, run.2)
  ∧ process_one P 3 args "2_demo.js" world0 = (Ret false, reported)
  ∧ for_artifacts P 3 args ["2_demo.js"; "3_next.js"]%string world0
      = (Ret (), reported).
Proof.
  intros P args e run reported.
  assert (run = (Raise e, run.2)) as Hrun by (vm_compute; reflexivity).
  destruct (failed_artifact_is_reported P 3 args "2_demo.js"
              ["3_next.js"%string] world0 e run.2 Hrun) as [Hone Hall].
  split; [exact Hrun|]. split; [exact Hone|]. exact (Hall eq_refl).
Defined.

Lemma failed_git_init_stops_main_witness :
  let P := gitless_platform_of (scripted []) in
  let args := Args "in" "out" "gpt" false in
  let done := CompletedProcess 128 "" in
  ensure_empty_directory P "out" world0 = (Ret (), world0)
  ∧ FS.makedirs (w_fs world0) (cwd P) "out" = inr tree0
  ∧ subprocess_run P ["git"; "init"]%string "out" tree0 = (inr done, tree0)
  ∧ main P 3 args world0 =
      (Raise (CalledProcessError ["git"; "init"]%string 128),
       World tree0 0 0
         [EvMakedirs "out"; EvSubprocess ["git"; "init"]%string "out"]).
Proof.
  intros P args done.
  assert (ensure_empty_directory P "out" world0 = (Ret (), world0)) as Hempty
    by reflexivity.
  assert (FS.makedirs (w_fs world0) (cwd P) "out" = inr tree0) as Hmk
    by reflexivity.
  split; [exact Hempty|]. split; [exact Hmk|]. split; [reflexivity|].
  refine (failed_git_init_stops_main P 3 args world0 tree0 done tree0 Hempty
            Hmk eq_refl _).
  discriminate.
Defined.

Lemma exhausted_retries_abort_the_loop_witness :
  let E := OpenAIError RateLimitError "slow down" in
  let P := platform_of (failing E) in
  let r := Request "gpt" [] tools in
  (∀ s, ∃ e, (create P s r).1 = inl e ∧ is_OpenAIError e = true)
  ∧ ∃ e evs,
      agent_loop P 1 "in/2_demo.js" "// a.js" "out" "gpt" [] world0 =
        (Raise e,
         World (w_fs world0) (svc_after P r 5 (w_svc world0))
           (w_draws world0 + 4) (w_log world0 ++ evs))
      ∧ (create P (svc_after P r 4 (w_svc world0)) r).1 = inl e
      ∧ calls evs = 5.
Proof.
  intros E P r.
  assert (∀ s, ∃ e, (create P s r).1 = inl e ∧ is_OpenAIError e = true)
    as Hfail.
  { intros s. exists E. split; reflexivity. }
  split; [exact Hfail|].
  exact (exhausted_retries_abort_the_loop P 0 "in/2_demo.js" "// a.js" "out"
           "gpt" [] world0 Hfail).
Defined.

Lemma listed_name_reads_from_memory_witness :
  let tc := ToolCall "call_1" "read_file_content" (doc_read "2_demo.js") in
  let members := [("file_path"%string, JString "2_demo.js")] in
  Str.contains Str.slash "2_demo.js" = false
  ∧ json_loads done_service (tc_arguments tc) = Some (JObject members)
  ∧ dispatch done_service (PosixPath.join "in" "2_demo.js") "// a.js" "out"
      tc [] world0 =
      (Ret [ToolMsg "call_1" "read_file_content" "// a.js"], world0).
Proof.
  intros tc members. split; [reflexivity|]. split; [reflexivity|].
  exact (listed_name_reads_from_memory done_service "in" "2_demo.js"
           "// a.js" "out" tc [] world0 members eq_refl eq_refl eq_refl
           eq_refl).
Defined.

Lemma negative_depth_lists_nothing_witness :
  (-1 < 0)%Z
  ∧ list_directory_files done_service "out" (-1) (World tree_nested 0 0 [])
    = (Ret (elbow +:+ "..."), World tree_nested 0 0 []).
Proof.
  split; [reflexivity|].
  exact (negative_depth_lists_nothing done_service "out" (-1)
           (World tree_nested 0 0 []) eq_refl).
Defined.

Lemma unlistable_directory_raises_witness :
  FS.listdir (w_fs world0) (cwd done_service) "missing" = inl ENOENT
  ∧ list_directory_files done_service "missing" 10 world0
    = (Raise (OSError ENOENT "missing"), world0).
Proof.
  assert (FS.listdir (w_fs world0) (cwd done_service) "missing" = inl ENOENT)
    as Hls by reflexivity.
  split; [exact Hls|].
  refine (unlistable_directory_raises done_service "missing" 10 world0 ENOENT
            _ Hls).
  discriminate.
Defined.

Lemma flat_directory_listing_witness :
  let w := World tree_flat 0 0 [] in
  let names := ["b.txt"; "a.txt"]%string in
  FS.listdir (w_fs w) (cwd done_service) "out" = inr names
  ∧ Forall (λ name,
              FS.isdir (w_fs w) (cwd done_service)
                (PosixPath.join "out" name) = false) names
  ∧ list_directory_files done_service "out" 10 w =
      (Ret (join_lines [tee +:+ "b.txt"; elbow +:+ "a.txt"]), w).
Proof.
  intros w names.
  assert (FS.listdir (w_fs w) (cwd done_service) "out" = inr names) as Hls
    by reflexivity.
  assert (Forall (λ name,
                    FS.isdir (w_fs w) (cwd done_service)
                      (PosixPath.join "out" name) = false) names) as Hflat.
  { repeat (constructor; [vm_compute; reflexivity|]). constructor. }
  split; [exact Hls|]. split; [exact Hflat|].
  refine (flat_directory_listing done_service "out" 10 w names _ Hls Hflat).
  discriminate.
Defined.

